(** * The schema-migration engine of Blog-MCP ([scripts/migrate.js])

    A shallow embedding of the class [MigrationManager] and the proofs of
    the properties its specification states about it.

    The file has these parts:
    - [Js]: the JavaScript built-ins the script calls ([endsWith],
      [replace], [split], [parseInt], [sort], [slice], [toISOString],
      [toFixed], ...);
    - [Pg]: the database session behind the Supabase client, whose code
      is not in the repository;
    - the [World] of the script (database, migrations directory, clock,
      console) and a small state and exception monad over it;
    - the methods of [MigrationManager]: [getMigrations],
      [getAppliedMigrations], [getPendingMigrations], [applyMigration],
      [runPending], [rollback], [status], [create], and the [down] command
      of [main];
    - the command line: the process (arguments, environment, exit code),
      the constructor, [init] and [main];
    - utilities of [src/infrastructure/utils]: [take], [takeRight],
      [drop], [dropRight], [rotate], [chunk], [unique] and [compress] of
      [array.ts], [camelToSnake], [snakeToCamel] and [truncate] of
      [string.ts];
    - the vocabulary of the properties and the worlds of the examples;
    - the properties.

    Strings are sequences of code units; a code unit is an [ascii], so the
    model covers strings whose code units are below 256.  On those,
    [String.compare] is the code-unit order JavaScript uses.  The lines of
    the console are kept as values ([Line]) that hold what each line
    interpolates, without the fixed text around it. *)

From Stdlib Require Import Bool Arith ZArith Lia List String Ascii.
From Stdlib Require Import Sorting.Sorted Sorting.Permutation.
From Stdlib Require Import DecimalString Floats Uint63.
Import ListNotations.

Local Open Scope string_scope.
Local Open Scope list_scope.
Local Open Scope nat_scope.

(* ===================================================================== *)
(** * JavaScript built-ins *)
(* ===================================================================== *)

Module Js.

(** ** Strings *)

(** [s.endsWith(suffix)] *)
Definition endsWith (s suffix : string) : bool :=
  let n := String.length s in
  let m := String.length suffix in
  (m <=? n) && (substring (n - m) m s =? suffix)%string.

(** Drop the first [n] code units. *)
Fixpoint drop (n : nat) (s : string) : string :=
  match n, s with
  | O, _ => s
  | S _, EmptyString => EmptyString
  | S n', String _ s' => drop n' s'
  end.

(** [s.replace(pattern, replacement)] with a string pattern: only the
    first occurrence is replaced. *)
Fixpoint replace (pattern replacement s : string) : string :=
  if prefix pattern s then (replacement ++ drop (String.length pattern) s)%string
  else match s with
       | EmptyString => EmptyString
       | String c s' => String c (replace pattern replacement s')
       end.

(** [s.replace(/[...]/g, '')]: every code unit of the class is removed. *)
Fixpoint remove_all (class : ascii -> bool) (s : string) : string :=
  match s with
  | EmptyString => EmptyString
  | String c s' =>
      if class c then remove_all class s' else String c (remove_all class s')
  end.

(** [s.slice(0, n)] for [0 <= n]. *)
Fixpoint take (n : nat) (s : string) : string :=
  match n, s with
  | O, _ => EmptyString
  | S _, EmptyString => EmptyString
  | S n', String c s' => String c (take n' s')
  end.

(** [s.split(sep)] for a separator of one code unit.  The result is
    never empty: [''.split('_')] is [['']]. *)
Fixpoint split (sep : ascii) (s : string) : list string :=
  match s with
  | EmptyString => [EmptyString]
  | String c s' =>
      if (c =? sep)%char then EmptyString :: split sep s'
      else match split sep s' with
           | [] => [String c EmptyString]
           | piece :: pieces => String c piece :: pieces
           end
  end.

(** [a[0]] on an array of strings that is known not to be empty. *)
Definition first (a : list string) : string := hd EmptyString a.

(** ** Numbers that are integers or [NaN]

    [parseInt] returns an integer or [NaN]; [None] stands for [NaN]. *)

Definition int := option Z.

Definition is_ws (c : ascii) : bool :=
  let n := nat_of_ascii c in
  (n =? 9) || (n =? 10) || (n =? 11) || (n =? 12) || (n =? 13)
  || (n =? 32) || (n =? 160).

Fixpoint trim_start (s : string) : string :=
  match s with
  | EmptyString => EmptyString
  | String c s' => if is_ws c then trim_start s' else s
  end.

(** The value of a digit in radix 36, as [parseInt] reads it. *)
Definition digit_value (c : ascii) : option nat :=
  let n := nat_of_ascii c in
  if (48 <=? n) && (n <=? 57) then Some (n - 48)
  else if (97 <=? n) && (n <=? 122) then Some (n - 87)
  else if (65 <=? n) && (n <=? 90) then Some (n - 55)
  else None.

(** The longest prefix of [s] made of digits of the radix. *)
Fixpoint digits_prefix (radix : nat) (s : string) : list nat :=
  match s with
  | EmptyString => []
  | String c s' =>
      match digit_value c with
      | Some v => if v <? radix then v :: digits_prefix radix s' else []
      | None => []
      end
  end.

Definition value_of (radix : nat) (ds : list nat) : Z :=
  fold_left (fun acc d => acc * Z.of_nat radix + Z.of_nat d)%Z ds 0%Z.

(** [parseInt(s)] without a radix: leading white space is skipped, a sign
    is read, [0x] selects radix 16, and the longest prefix of digits is
    the value; no digit at all gives [NaN].  The result is the
    mathematical integer: JavaScript rounds it to the nearest double,
    which is the same number below [2^53] (every 14-digit timestamp). *)
Definition parseInt (s : string) : int :=
  let s := trim_start s in
  let '(sign, s) :=
    match s with
    | String "-"%char s' => ((-1)%Z, s')
    | String "+"%char s' => (1%Z, s')
    | _ => (1%Z, s)
    end in
  let '(radix, s) :=
    if prefix "0x" s || prefix "0X" s then (16, drop 2 s) else (10, s) in
  match digits_prefix radix s with
  | [] => None
  | ds => Some (sign * value_of radix ds)%Z
  end.

(** Unary minus: [-NaN] is [NaN]. *)
Definition neg (n : int) : int := option_map Z.opp n.

(** ** Arrays *)

(** [a.includes(x)] on an array of strings. *)
Definition includes (a : list string) (x : string) : bool :=
  existsb (String.eqb x) a.

(** [a.sort()] on an array of strings: ascending code-unit order. *)
Fixpoint insert (x : string) (a : list string) : list string :=
  match a with
  | [] => [x]
  | y :: a' => if String.leb x y then x :: a else y :: insert x a'
  end.

Fixpoint sort (a : list string) : list string :=
  match a with
  | [] => []
  | x :: a' => insert x (sort a')
  end.

(** [a.slice(start)]: a negative [start] counts from the end, [NaN] is
    read as 0, and the index is clamped to the array. *)
Definition slice {A : Type} (start : int) (a : list A) : list A :=
  let len := Z.of_nat (List.length a) in
  let relative := match start with None => 0%Z | Some z => z end in
  let k := if (relative <? 0)%Z then Z.max (len + relative) 0
           else Z.min relative len in
  skipn (Z.to_nat k) a.

(** ** Dates

    The UTC fields of a [Date], as [new Date()] reads them off the clock
    of the machine the script runs on. *)

Record Date := {
  year : Z;
  month : nat;          (* 1 .. 12 *)
  day : nat;            (* 1 .. 31 *)
  hours : nat;
  minutes : nat;
  seconds : nat;
  milliseconds : nat
}.

Definition decimal (n : nat) : string :=
  DecimalString.NilZero.string_of_uint (Nat.to_uint n).

Fixpoint zeros (n : nat) : string :=
  match n with
  | O => EmptyString
  | S n' => String "0"%char (zeros n')
  end.

(** [s.padStart(width, '0')] *)
Definition padStart0 (width : nat) (s : string) : string :=
  (zeros (width - String.length s) ++ s)%string.

Definition pad (width n : nat) : string := padStart0 width (decimal n).

(** The year of an ISO date: four digits from 0 to 9999, otherwise a sign
    and six digits. *)
Definition iso_year (y : Z) : string :=
  if ((0 <=? y) && (y <=? 9999))%Z then pad 4 (Z.to_nat y)
  else ((if (y <? 0)%Z then "-" else "+") ++ pad 6 (Z.abs_nat y))%string.

(** The part of [toISOString] down to the second:
    [YYYY-MM-DDTHH:mm:ss]. *)
Definition iso_seconds (d : Date) : string :=
  (iso_year (year d) ++ "-" ++ pad 2 (month d) ++ "-" ++ pad 2 (day d)
   ++ "T" ++ pad 2 (hours d) ++ ":" ++ pad 2 (minutes d)
   ++ ":" ++ pad 2 (seconds d))%string.

(** [d.toISOString()]: [YYYY-MM-DDTHH:mm:ss.sssZ] *)
Definition toISOString (d : Date) : string :=
  (iso_seconds d ++ "." ++ pad 3 (milliseconds d) ++ "Z")%string.

(** ** Numbers that are doubles

    [a.length / b.length * 100] is computed on IEEE 754 doubles, which are
    Rocq's primitive floats. *)

Definition of_length (n : nat) : float :=
  PrimFloat.of_uint63 (Uint63.of_Z (Z.of_nat n)).

(** [x.toFixed(1)] for [|x| < 1e21]: the integer [n] with [n / 10]
    nearest to [x] (the larger one on a tie), written with one decimal.
    The value of a finite double is [m * 2^e], so [n] is computed on
    integers. *)
Definition tenths (m : positive) (e : Z) : Z :=
  if (0 <=? e)%Z then Z.pos m * 2 ^ e * 10
  else (20 * Z.pos m + 2 ^ (- e)) / (2 * 2 ^ (- e)).

Definition fixed1 (n : Z) : string :=
  let ds := padStart0 2 (decimal (Z.to_nat n)) in
  let k := String.length ds - 1 in
  (take k ds ++ "." ++ drop k ds)%string.

Definition toFixed1 (x : float) : string :=
  match Prim2SF x with
  | S754_nan => "NaN"
  | S754_infinity false => "Infinity"
  | S754_infinity true => "-Infinity"
  | S754_zero _ => "0.0"
  | S754_finite sign m e =>
      ((if sign then "-" else "") ++ fixed1 (tenths m e))%string
  end.

(** ** Arrays and strings: [slice] with two indices

    [a.slice(start, end)]: an index that is negative counts from the
    end, [NaN] is read as 0, and both indices are clamped to the
    array. *)

Definition relative_index (len : Z) (i : int) : Z :=
  let relative := match i with None => 0%Z | Some z => z end in
  if (relative <? 0)%Z then Z.max (len + relative) 0 else Z.min relative len.

Definition slice_to {A : Type} (start final : int) (a : list A) : list A :=
  let len := Z.of_nat (List.length a) in
  let k := relative_index len start in
  let e := relative_index len final in
  firstn (Z.to_nat (e - k)) (skipn (Z.to_nat k) a).

(** [s.slice(start, end)] on a string. *)
Definition string_slice_to (start final : int) (s : string) : string :=
  string_of_list_ascii (slice_to start final (list_ascii_of_string s)).

End Js.

(* ===================================================================== *)
(** * The database session *)
(* ===================================================================== *)

(** Modelled from the spec: the connection to the database.  The script
    reaches the database through the Supabase client:
    [client.rpc('exec_sql', {sql})] runs a statement and
    [client.from('schema_migrations').select('*').order('applied_at')]
    reads the ledger.  Neither the client nor the function [exec_sql] is
    in the repository.  The specification takes them as "a connection
    object capable of executing SQL and participating in transactions"
    and the ledger as the table [schema_migrations(id, name unique,
    filename, applied_at)]; this module is that connection, with
    PostgreSQL's rules:
    - [BEGIN] opens a transaction, [COMMIT] and [ROLLBACK] close it; each
      of them succeeds (with a warning at most) whatever the state;
    - a statement that fails inside a transaction aborts the transaction:
      what follows is refused until it is closed, and closing it, also by
      [COMMIT], discards all of it;
    - outside a transaction a statement is its own transaction;
    - [NOW()] is the start time of the transaction;
    - a string constant ends at the first quote that is not doubled.

    What the SQL of a migration does is not interpreted ("the engine
    treats each migration's body as an opaque, atomically-executed
    unit"): an applied body is recorded in [schema], and [sql_error] says
    which bodies fail on which schema.  The session reads the two ledger
    statements of the script, and refuses as a syntax error a statement
    that starts like one of them and is not one.  It also reads the
    statement of [init], [CREATE TABLE IF NOT EXISTS schema_migrations
    ...]: unless the server refuses it, the ledger table exists afterwards,
    with the rows it had ("idempotently creates the ledger table if
    absent"). *)

Module Pg.

Record Error := { code : string; message : string }.

Definition undefined_table : Error :=
  {| code := "42P01"; message := "relation schema_migrations does not exist" |}.
Definition unique_violation : Error :=
  {| code := "23505"; message := "duplicate key value violates unique constraint" |}.
Definition syntax_error : Error :=
  {| code := "42601"; message := "syntax error" |}.
Definition in_failed_sql_transaction : Error :=
  {| code := "25P02"; message := "current transaction is aborted" |}.

(** The effect of a migration body: all of it, or the part before the
    statement that failed. *)
Inductive Change :=
| Applied (sql : string)
| Partial (sql : string).

(** A row of [schema_migrations] (the [id] column is never read). *)
Record Row := { name : string; filename : string; applied_at : nat }.

(** [ledger] is [None] while the table [schema_migrations] does not
    exist. *)
Record Store := { schema : list Change; ledger : option (list Row) }.

Record Txn := { working : Store; started : nat; aborted : bool }.

Record Session := {
  committed : Store;
  txn : option Txn;
  clock : nat;                      (* the server's clock *)
  select_fault : option Error;      (* a failure of ledger reads: a timeout,
                                       a lost connection, a missing grant *)
  received : list string            (* the statements received, oldest first *)
}.

(** What the source does not determine about the server. *)
Class Server := {
  sql_error : list Change -> string -> option Error;
  timestamptz_out : nat -> string
}.

(** ** Reading the statements the script sends *)

Inductive Stmt :=
| SBegin
| SCommit
| SRollback
| SInsert (name filename : string)
| SDelete (name : string)
| SSyntaxError
| SCreateLedger (sql : string)
| SOther (sql : string).

Definition is_space (c : ascii) : bool :=
  let n := nat_of_ascii c in
  (n =? 32) || (n =? 9) || (n =? 10) || (n =? 12) || (n =? 13).

Fixpoint skip_ws (s : string) : string :=
  match s with
  | EmptyString => EmptyString
  | String c s' => if is_space c then skip_ws s' else s
  end.

Definition expect (token s : string) : option string :=
  if prefix token s then Some (Js.drop (String.length token) s) else None.

(** The body of a string constant, read from after its opening quote:
    the value and the text after the closing quote.  A doubled quote
    stands for one quote. *)
Fixpoint literal (s : string) : option (string * string) :=
  match s with
  | EmptyString => None
  | String c s' =>
      if (c =? "'")%char then
        match s' with
        | String c' s'' =>
            if (c' =? "'")%char then
              match literal s'' with
              | Some (v, rest) => Some (String "'"%char v, rest)
              | None => None
              end
            else Some (EmptyString, s')
        | EmptyString => Some (EmptyString, EmptyString)
        end
      else
        match literal s' with
        | Some (v, rest) => Some (String c v, rest)
        | None => None
        end
  end.

Definition parse_insert (s : string) : option (string * string) :=
  match expect "INSERT INTO schema_migrations (name, filename, applied_at)" (skip_ws s) with
  | None => None
  | Some s1 =>
  match expect "VALUES ('" (skip_ws s1) with
  | None => None
  | Some s2 =>
  match literal s2 with
  | None => None
  | Some (n, s3) =>
  match expect ", '" s3 with
  | None => None
  | Some s4 =>
  match literal s4 with
  | None => None
  | Some (f, s5) =>
  match expect ", NOW());" s5 with
  | None => None
  | Some s6 => if (skip_ws s6 =? "")%string then Some (n, f) else None
  end end end end end end.

Definition parse_delete (s : string) : option string :=
  match expect "DELETE FROM schema_migrations WHERE name = '" s with
  | None => None
  | Some s1 =>
  match literal s1 with
  | None => None
  | Some (n, s2) => if (s2 =? ";")%string then Some n else None
  end end.

Definition classify (sql : string) : Stmt :=
  if (sql =? "BEGIN;")%string then SBegin
  else if (sql =? "COMMIT;")%string then SCommit
  else if (sql =? "ROLLBACK;")%string then SRollback
  else if prefix "INSERT INTO schema_migrations" (skip_ws sql) then
    match parse_insert sql with
    | Some (n, f) => SInsert n f
    | None => SSyntaxError
    end
  else if prefix "DELETE FROM schema_migrations" sql then
    match parse_delete sql with
    | Some n => SDelete n
    | None => SSyntaxError
    end
  else if prefix "CREATE TABLE IF NOT EXISTS schema_migrations (" (skip_ws sql) then
    SCreateLedger sql
  else SOther sql.

(** ** Running a statement *)

(** One data statement on a store at time [now]: the error if it fails,
    and the store it leaves. *)
Definition run {srv : Server} (now : nat) (s : Store) (st : Stmt)
  : option Error * Store :=
  match st with
  | SOther sql =>
      match sql_error (schema s) sql with
      | Some e => (Some e, {| schema := schema s ++ [Partial sql]; ledger := ledger s |})
      | None => (None, {| schema := schema s ++ [Applied sql]; ledger := ledger s |})
      end
  | SInsert n f =>
      match ledger s with
      | None => (Some undefined_table, s)
      | Some rows =>
          if existsb (fun r => (name r =? n)%string) rows
          then (Some unique_violation, s)
          else (None, {| schema := schema s;
                         ledger := Some (rows ++ [{| name := n; filename := f; applied_at := now |}]) |})
      end
  | SDelete n =>
      match ledger s with
      | None => (Some undefined_table, s)
      | Some rows =>
          (None, {| schema := schema s;
                    ledger := Some (filter (fun r => negb (name r =? n)%string) rows) |})
      end
  | SSyntaxError => (Some syntax_error, s)
  | SCreateLedger sql =>
      match sql_error (schema s) sql with
      | Some e => (Some e, s)
      | None =>
          (None, {| schema := schema s;
                    ledger := Some (match ledger s with Some rows => rows | None => [] end) |})
      end
  | SBegin | SCommit | SRollback => (None, s)
  end.

(** Modelled from the spec: [exec_sql], the database function the script
    calls for every statement.  The statement is received, the clock
    moves on, and the transaction rules apply. *)
Definition exec_sql {srv : Server} (sql : string) (d : Session)
  : option Error * Session :=
  let now := S (clock d) in
  let log := received d ++ [sql] in
  let same := {| committed := committed d; txn := txn d; clock := now;
                 select_fault := select_fault d; received := log |} in
  match classify sql with
  | SBegin =>
      match txn d with
      | None =>
          (None, {| committed := committed d;
                    txn := Some {| working := committed d; started := now; aborted := false |};
                    clock := now; select_fault := select_fault d; received := log |})
      | Some _ => (None, same)
      end
  | SCommit =>
      match txn d with
      | None => (None, same)
      | Some t =>
          (None, {| committed := if aborted t then committed d else working t;
                    txn := None;
                    clock := now; select_fault := select_fault d; received := log |})
      end
  | SRollback =>
      (None, {| committed := committed d; txn := None;
                clock := now; select_fault := select_fault d; received := log |})
  | st =>
      match txn d with
      | None =>
          let '(e, s') := run now (committed d) st in
          (e, {| committed := match e with None => s' | Some _ => committed d end;
                 txn := None;
                 clock := now; select_fault := select_fault d; received := log |})
      | Some t =>
          if aborted t then (Some in_failed_sql_transaction, same)
          else
            let '(e, s') := run (started t) (working t) st in
            (e, {| committed := committed d;
                   txn := Some {| working := s'; started := started t;
                                 aborted := match e with None => false | Some _ => true end |};
                   clock := now; select_fault := select_fault d; received := log |})
      end
  end.

(** ** Reading the ledger *)

(** [ORDER BY applied_at ASC]; rows of equal time keep the order in which
    they were inserted. *)
Fixpoint insert_row (r : Row) (rows : list Row) : list Row :=
  match rows with
  | [] => [r]
  | r' :: rows' =>
      if applied_at r <=? applied_at r' then r :: rows
      else r' :: insert_row r rows'
  end.

Fixpoint order_by_applied_at (rows : list Row) : list Row :=
  match rows with
  | [] => []
  | r :: rows' => insert_row r (order_by_applied_at rows')
  end.

(** Modelled from the spec: the read of the ledger,
    [select * from schema_migrations order by applied_at].  It fails when
    the table does not exist (42P01), inside an aborted transaction, and
    when the session has a [select_fault]. *)
Definition select_ordered (d : Session) : (option (list Row) * option Error) * Session :=
  let d' := {| committed := committed d; txn := txn d; clock := S (clock d);
               select_fault := select_fault d; received := received d |} in
  let read (s : Store) :=
    match ledger s with
    | None => (None, Some undefined_table)
    | Some rows => (Some (order_by_applied_at rows), None)
    end in
  match select_fault d with
  | Some e => ((None, Some e), d')
  | None =>
      match txn d with
      | None => (read (committed d), d')
      | Some t =>
          if aborted t then ((None, Some in_failed_sql_transaction), d')
          else (read (working t), d')
      end
  end.

End Pg.

(* ===================================================================== *)
(** * The world of the script *)
(* ===================================================================== *)

(** What the script throws. *)
Inductive Exn :=
| MigrationsDirMissing (dir : string)   (* getMigrations: the directory does not exist *)
| MigrationNameRequired                 (* create: no name given *)
| PostgrestError (e : Pg.Error)         (* the [error] of a response, rethrown *)
| ENOENT (path : string)                (* fs: no such file or directory *)
| EACCES (path : string).               (* fs: permission denied *)

(** The lines the script writes to the console, one constructor for each
    call of [console.log], [console.warn] and [console.error] in the
    class, with the values the line interpolates. *)
Inductive Line :=
| Warn_get_applied_failed (e : Exn)
| Log_applying (filename : string)
| Log_applied (filename : string)
| Error_apply_failed (filename : string) (e : Exn)
| Log_run_start
| Log_no_pending
| Log_found_pending (n : nat)
| Log_run_aborted
| Log_all_applied
| Log_rollback_start (steps : Js.int)
| Log_nothing_to_rollback
| Log_will_rollback (n : nat)
| Log_rolling_back (filename : string)
| Log_manual_rollback (filename : string)
| Log_rolled_back (filename : string)
| Error_rollback_failed (filename : string) (e : Exn)
| Log_rollback_done
| Log_status_title
| Log_table_title
| Log_table_top
| Log_table_head
| Log_table_rule
| Log_table_row (filename : string) (isApplied : bool) (appliedAt : string)
| Log_table_bottom
| Log_stats_title
| Log_stats_total (n : nat)
| Log_stats_applied (n : nat)
| Log_stats_pending (n : nat)
| Log_stats_rate (percent : string)
| Log_created (filename : string)
| Log_created_path (filepath : string).

Record World := {
  db : Pg.Session;
  cwd : string;                              (* process.cwd() *)
  files : option (list (string * string));   (* the migrations directory: name and
                                                content of each file; [None] when
                                                the directory does not exist *)
  denied : list string;                      (* the files of the directory the
                                                process is not allowed to read *)
  clock : nat -> Js.Date;                    (* the successive readings of the clock *)
  ticks : nat;                               (* how many readings were taken *)
  console : list Line                        (* oldest line first *)
}.

(** [path.join] of a directory and a plain name: nothing is there to
    normalise. *)
Definition join (dir file : string) : string := (dir ++ "/" ++ file)%string.

(** [this.migrationsDir], set by the constructor. *)
Definition migrationsDir (w : World) : string :=
  join (join (cwd w) "supabase") "migrations".

(** ** The monad: state and exceptions *)

Inductive Completion (A : Type) :=
| Normal (a : A)
| Throw (e : Exn).
Arguments Normal {A} a.
Arguments Throw {A} e.

Definition M (A : Type) : Type := World -> Completion A * World.

Definition ret {A} (a : A) : M A := fun w => (Normal a, w).

Definition bind {A B} (c : M A) (k : A -> M B) : M B :=
  fun w => match c w with
           | (Normal a, w') => k a w'
           | (Throw e, w') => (Throw e, w')
           end.

Definition throw {A} (e : Exn) : M A := fun w => (Throw e, w).

(** [try { body } catch (error) { handler }] *)
Definition try_catch {A} (body : M A) (handler : Exn -> M A) : M A :=
  fun w => match body w with
           | (Normal a, w') => (Normal a, w')
           | (Throw e, w') => handler e w'
           end.

Declare Scope js_scope.
Delimit Scope js_scope with js.
Notation "x <- c ;; k" := (bind c (fun x => k))
  (at level 61, c at next level, right associativity) : js_scope.
Notation "c ;; k" := (bind c (fun _ => k))
  (at level 61, right associativity) : js_scope.
Local Open Scope js_scope.

(** [for (const x of xs) { body }] where the body may [return]: the body
    yields [Some v] for [return v] and [None] to go on. *)
Fixpoint for_of {A R} (xs : list A) (body : A -> M (option R)) : M (option R) :=
  match xs with
  | [] => ret None
  | x :: xs' =>
      r <- body x ;;
      match r with
      | Some v => ret (Some v)
      | None => for_of xs' body
      end
  end.

Definition say (l : Line) (w : World) : World :=
  {| db := db w; cwd := cwd w; files := files w; denied := denied w;
     clock := clock w; ticks := ticks w; console := console w ++ [l] |}.

(** [console.log(...)], [console.warn(...)], [console.error(...)] *)
Definition log (l : Line) : M unit := fun w => (Normal tt, say l w).

(** [new Date()] *)
Definition new_Date : M Js.Date :=
  fun w => (Normal (clock w (ticks w)),
            {| db := db w; cwd := cwd w; files := files w; denied := denied w;
               clock := clock w; ticks := S (ticks w); console := console w |}).

(** ** The file system: the migrations directory *)

Definition existsSync_migrationsDir : M bool :=
  fun w => (Normal (match files w with Some _ => true | None => false end), w).

Definition readdirSync_migrationsDir : M (list string) :=
  fun w => match files w with
           | Some fs => (Normal (map fst fs), w)
           | None => (Throw (ENOENT (migrationsDir w)), w)
           end.

(** [readFileSync(path, 'utf8')]: the content of the file, when the file
    is there and the process is allowed to read it. *)
Definition readFileSync (path : string) : M string :=
  fun w => match files w with
           | None => (Throw (ENOENT path), w)
           | Some fs =>
               match find (fun f => (join (migrationsDir w) (fst f) =? path)%string) fs with
               | Some f =>
                   if existsb (String.eqb (fst f)) (denied w)
                   then (Throw (EACCES path), w)
                   else (Normal (snd f), w)
               | None => (Throw (ENOENT path), w)
               end
           end.

Fixpoint write (file content : string) (fs : list (string * string))
  : list (string * string) :=
  match fs with
  | [] => [(file, content)]
  | (g, c) :: fs' =>
      if (g =? file)%string then (file, content) :: fs'
      else (g, c) :: write file content fs'
  end.

(** [writeFileSync(path, content)] creates the file or replaces its
    content.  The model has the migrations directory only, and a file
    name in it is a plain name.  A name with a path separator is outside
    the model: [path.join] would normalise such a path, and the file would
    be written where the normalised path leads.  The properties of
    [create] are for names without a separator. *)
Definition writeFileSync (path content : string) : M unit :=
  fun w =>
    let dir := (migrationsDir w ++ "/")%string in
    let file := Js.drop (String.length dir) path in
    match files w with
    | Some fs =>
        if prefix dir path && negb (existsb (Ascii.eqb "/"%char) (list_ascii_of_string file))
        then (Normal tt,
              {| db := db w; cwd := cwd w; files := Some (write file content fs);
                 denied := denied w;
                 clock := clock w; ticks := ticks w; console := console w |})
        else (Throw (ENOENT path), w)
    | None => (Throw (ENOENT path), w)
    end.

(* ===================================================================== *)
(** * MigrationManager *)
(* ===================================================================== *)

(** The objects [getMigrations] builds. *)
Module Migration.
Record t := mk {
  filename : string;
  path : string;
  name : string;
  timestamp : Js.int
}.
End Migration.

(** The rows of [schema_migrations] as the client returns them. *)
Module Applied.
Record t := mk {
  name : string;
  filename : string;
  applied_at : string
}.
End Applied.

(** The [{ data, error }] of a response. *)
Record Response (A : Type) := { data : option A; error : option Pg.Error }.
Arguments data {A} r.
Arguments error {A} r.

Section MigrationManager.

Context {srv : Pg.Server}.

Definition set_db (d : Pg.Session) (w : World) : World :=
  {| db := d; cwd := cwd w; files := files w; denied := denied w;
     clock := clock w; ticks := ticks w; console := console w |}.

(** [await this.client.rpc('exec_sql', { sql })]: the promise resolves
    with the response, also when the statement fails. *)
Definition rpc_exec_sql (sql : string) : M (Response unit) :=
  fun w => let '(e, d) := Pg.exec_sql sql (db w) in
           (Normal {| data := None; error := e |}, set_db d w).

Definition to_object (r : Pg.Row) : Applied.t :=
  {| Applied.name := Pg.name r;
     Applied.filename := Pg.filename r;
     Applied.applied_at := Pg.timestamptz_out (Pg.applied_at r) |}.

(** [await this.client.from('schema_migrations').select('*')
      .order('applied_at', { ascending: true })] *)
Definition select_schema_migrations : M (Response (list Applied.t)) :=
  fun w => let '((rows, e), d) := Pg.select_ordered (db w) in
           (Normal {| data := option_map (map to_object) rows; error := e |},
            set_db d w).

(** [getMigrations()] *)
Definition getMigrations : M (list Migration.t) :=
  fun w =>
  (found <- existsSync_migrationsDir ;;
   if negb found then throw (MigrationsDirMissing (migrationsDir w))
   else
     names <- readdirSync_migrationsDir ;;
     let files :=
       map (fun file =>
              {| Migration.filename := file;
                 Migration.path := join (migrationsDir w) file;
                 Migration.name := Js.replace ".sql" "" file;
                 Migration.timestamp := Js.parseInt (Js.first (Js.split "_" file)) |})
           (Js.sort (filter (fun file => Js.endsWith file ".sql") names)) in
     ret files) w.

(** [getAppliedMigrations()] *)
Definition getAppliedMigrations : M (list Applied.t) :=
  try_catch
    (r <- select_schema_migrations ;;
     match error r with
     | Some error =>
         if (Pg.code error =? "42P01")%string then ret []
         else throw (PostgrestError error)
     | None =>
         ret (match data r with Some data => data | None => [] end)
     end)
    (fun error =>
       log (Warn_get_applied_failed error) ;;
       ret []).

(** [getPendingMigrations()] *)
Definition getPendingMigrations : M (list Migration.t) :=
  allMigrations <- getMigrations ;;
  appliedMigrations <- getAppliedMigrations ;;
  let appliedNames := map Applied.name appliedMigrations in
  ret (filter (fun migration => negb (Js.includes appliedNames (Migration.name migration)))
              allMigrations).

(** The statement that records a migration in the ledger. *)
Definition insert_sql (migration : Migration.t) : string :=
  ("
                    INSERT INTO schema_migrations (name, filename, applied_at)
                    VALUES ('" ++ Migration.name migration ++ "', '" ++ Migration.filename migration ++ "', NOW());
                ")%string.

(** [applyMigration(migration)] *)
Definition applyMigration (migration : Migration.t) : M bool :=
  log (Log_applying (Migration.filename migration)) ;;
  sql <- readFileSync (Migration.path migration) ;;
  try_catch
    (rpc_exec_sql "BEGIN;" ;;
     r <- rpc_exec_sql sql ;;
     match error r with
     | Some error => throw (PostgrestError error)
     | None =>
         rpc_exec_sql (insert_sql migration) ;;
         rpc_exec_sql "COMMIT;" ;;
         log (Log_applied (Migration.filename migration)) ;;
         ret true
     end)
    (fun error =>
       rpc_exec_sql "ROLLBACK;" ;;
       log (Error_apply_failed (Migration.filename migration) error) ;;
       ret false).

(** [runPending()] *)
Definition runPending : M bool :=
  log Log_run_start ;;
  pendingMigrations <- getPendingMigrations ;;
  if List.length pendingMigrations =? 0 then
    log Log_no_pending ;;
    ret true
  else
    log (Log_found_pending (List.length pendingMigrations)) ;;
    returned <-
      for_of pendingMigrations (fun migration =>
        success <- applyMigration migration ;;
        if negb success then
          log Log_run_aborted ;;
          ret (Some false)
        else ret None) ;;
    match returned with
    | Some v => ret v
    | None =>
        log Log_all_applied ;;
        ret true
    end.

(** The statement that removes a record from the ledger. *)
Definition delete_sql (migration : Applied.t) : string :=
  ("DELETE FROM schema_migrations WHERE name = '" ++ Applied.name migration ++ "';")%string.

(** [appliedMigrations.slice(-steps).reverse()] *)
Definition migrationsToRollback (steps : Js.int) (appliedMigrations : list Applied.t)
  : list Applied.t :=
  rev (Js.slice (Js.neg steps) appliedMigrations).

(** [rollback(steps)] *)
Definition rollback (steps : Js.int) : M bool :=
  log (Log_rollback_start steps) ;;
  appliedMigrations <- getAppliedMigrations ;;
  if List.length appliedMigrations =? 0 then
    log Log_nothing_to_rollback ;;
    ret true
  else
    let migrationsToRollback := migrationsToRollback steps appliedMigrations in
    log (Log_will_rollback (List.length migrationsToRollback)) ;;
    returned <-
      for_of migrationsToRollback (fun migration =>
        log (Log_rolling_back (Applied.filename migration)) ;;
        try_catch
          (rpc_exec_sql "BEGIN;" ;;
           rpc_exec_sql (delete_sql migration) ;;
           log (Log_manual_rollback (Applied.filename migration)) ;;
           rpc_exec_sql "COMMIT;" ;;
           log (Log_rolled_back (Applied.filename migration)) ;;
           ret None)
          (fun error =>
             rpc_exec_sql "ROLLBACK;" ;;
             log (Error_rollback_failed (Applied.filename migration) error) ;;
             ret (Some false))) ;;
    match returned with
    | Some v => ret v
    | None =>
        log Log_rollback_done ;;
        ret true
    end.

(** The [down] command of [main]:
    [rollback(args[1] ? parseInt(args[1]) : 1)]. *)
Definition down (arg : option string) : M bool :=
  let rollbackSteps :=
    match arg with
    | None => Some 1%Z
    | Some a => if (a =? "")%string then Some 1%Z else Js.parseInt a
    end in
  rollback rollbackSteps.

(** [status()] *)
Definition status : M unit :=
  log Log_status_title ;;
  allMigrations <- getMigrations ;;
  appliedMigrations <- getAppliedMigrations ;;
  pendingMigrations <- getPendingMigrations ;;
  let appliedNames := map Applied.name appliedMigrations in
  log Log_table_title ;;
  log Log_table_top ;;
  log Log_table_head ;;
  log Log_table_rule ;;
  for_of (R := unit) allMigrations (fun migration =>
    let isApplied := Js.includes appliedNames (Migration.name migration) in
    let appliedMigration :=
      find (fun m => (Applied.name m =? Migration.name migration)%string) appliedMigrations in
    let appliedAt :=
      match appliedMigration with
      | Some m => Js.first (Js.split "T" (Applied.applied_at m))
      | None => "-"
      end in
    log (Log_table_row (Migration.filename migration) isApplied appliedAt) ;;
    ret None) ;;
  log Log_table_bottom ;;
  log Log_stats_title ;;
  log (Log_stats_total (List.length allMigrations)) ;;
  log (Log_stats_applied (List.length appliedMigrations)) ;;
  log (Log_stats_pending (List.length pendingMigrations)) ;;
  log (Log_stats_rate
         (Js.toFixed1 (Js.of_length (List.length appliedMigrations)
                       / Js.of_length (List.length allMigrations)
                       * Js.of_length 100)%float)).

End MigrationManager.

(** The class [[-:T.]]. *)
Definition punctuation (c : ascii) : bool :=
  existsb (Ascii.eqb c) (list_ascii_of_string "-:T.").

(** [new Date().toISOString().replace(/[-:T.]/g, '').slice(0, 14)]: the
    first fourteen code units of the ISO date without its punctuation. *)
Definition compact_timestamp (d : Js.Date) : string :=
  Js.take 14 (Js.remove_all punctuation (Js.toISOString d)).

(** The text of a new migration file. *)
Definition template (name iso : string) : string :=
  ("-- " ++ name ++ "
-- 创建时间: " ++ iso ++ "

-- 在这里编写您的 SQL 语句

-- 示例：创建表
-- CREATE TABLE example (
--     id UUID PRIMARY KEY DEFAULT gen_random_uuid(),
--     name VARCHAR(100) NOT NULL,
--     created_at TIMESTAMPTZ DEFAULT NOW()
-- );

-- 示例：添加列
-- ALTER TABLE table_name ADD COLUMN new_column VARCHAR(100);

-- 示例：创建索引
-- CREATE INDEX idx_table_name_column ON table_name(column);

-- 示例：创建函数
-- CREATE OR REPLACE FUNCTION example_function()
-- RETURNS void AS $$
-- BEGIN
--     -- 函数逻辑
-- END;
-- $$ language 'plpgsql';

-- 记得在需要时更新 RLS 策略
")%string.

(** [create(name)]; [None] is [undefined], the argument [main] passes when
    the command line has no name. *)
Definition create (name : option string) : M unit :=
  fun w =>
  match name with
  | None => throw MigrationNameRequired w
  | Some name =>
      if (name =? "")%string then throw MigrationNameRequired w
      else
        (now <- new_Date ;;
         let timestamp := compact_timestamp now in
         let filename := (timestamp ++ "_" ++ name ++ ".sql")%string in
         let filepath := join (migrationsDir w) filename in
         now' <- new_Date ;;
         let template := template name (Js.toISOString now') in
         writeFileSync filepath template ;;
         log (Log_created filename) ;;
         log (Log_created_path filepath)) w
  end.

(* ===================================================================== *)
(** * The command line *)
(* ===================================================================== *)

(** [init] and [main] write lines of their own and end in ways the
    methods above do not: the constructor throws an error that is not an
    exception of a method, and [main] ends the process.  The process is
    the world of the methods with the command line, the environment and
    the whole console. *)

(** What is thrown outside the methods above. *)
Inductive Failure :=
| ConfigMissing           (* the constructor: a variable of the environment is not set *)
| Raised (e : Exn).       (* what a method throws *)

(** The lines of the console of the process: the lines of the methods
    above, and one constructor for each call of [console.log] and
    [console.error] in [init] and [main]. *)
Inductive Output :=
| Of_class (l : Line)
| Log_init_start
| Log_init_done
| Error_init_failed (error : Failure)
| Log_usage (text : string)
| Log_fresh_warning
| Log_fresh_backup
| Error_unknown_command (command : string)
| Error_failed (error : Failure).

Record Process := {
  argv : list string;                (* process.argv *)
  env : string -> option string;     (* process.env, once dotenv.config() has run *)
  world : World;
  output : list Output               (* oldest line first *)
}.

(** How a part of the script ends: normally, with an exception, or with
    the process, by [process.exit(code)]. *)
Inductive Outcome (A : Type) :=
| Done (a : A)
| Failed (f : Failure)
| Exit (code : nat).
Arguments Done {A} a.
Arguments Failed {A} f.
Arguments Exit {A} code.

Definition Proc (A : Type) : Type := Process -> Outcome A * Process.

Definition pure {A} (a : A) : Proc A := fun p => (Done a, p).

Definition andThen {A B} (c : Proc A) (k : A -> Proc B) : Proc B :=
  fun p => match c p with
           | (Done a, p') => k a p'
           | (Failed f, p') => (Failed f, p')
           | (Exit code, p') => (Exit code, p')
           end.

Definition raise {A} (f : Failure) : Proc A := fun p => (Failed f, p).

(** [try { body } catch (error) { handler }]: the end of the process is
    not caught. *)
Definition attempt {A} (body : Proc A) (handler : Failure -> Proc A) : Proc A :=
  fun p => match body p with
           | (Failed f, p') => handler f p'
           | r => r
           end.

(** [process.exit(code)] *)
Definition exit {A} (code : nat) : Proc A := fun p => (Exit code, p).

Declare Scope proc_scope.
Delimit Scope proc_scope with proc.
Notation "x <- c ;; k" := (andThen c (fun x => k))
  (at level 61, c at next level, right associativity) : proc_scope.
Notation "c ;; k" := (andThen c (fun _ => k))
  (at level 61, right associativity) : proc_scope.

Definition put (o : Output) (p : Process) : Process :=
  {| argv := argv p; env := env p; world := world p; output := output p ++ [o] |}.

(** [console.log(...)] and [console.error(...)] in [init] and [main] *)
Definition print (o : Output) : Proc unit := fun p => (Done tt, put o p).

(** The lines a method has added to the console of the world [w]. *)
Definition added (w w' : World) : list Line :=
  skipn (List.length (console w)) (console w').

(** The process after a method has taken the world to [w']. *)
Definition moved (w' : World) (p : Process) : Process :=
  {| argv := argv p; env := env p; world := w';
     output := output p ++ map Of_class (added (world p) w') |}.

(** [await manager.method(...)]: the method runs on the world of the
    process, and what it writes goes to the console of the process. *)
Definition call {A} (c : M A) : Proc A :=
  fun p => match c (world p) with
           | (Normal a, w') => (Done a, moved w' p)
           | (Throw e, w') => (Failed (Raised e), moved w' p)
           end.

(** [!x] for a string or [undefined]. *)
Definition falsy (x : option string) : bool :=
  match x with
  | None => true
  | Some s => (s =? "")%string
  end.

(** The constructor of [MigrationManager].  [createClient] is taken to
    return a client for every URL and key that are not empty;
    [this.migrationsDir] is [migrationsDir] of the world, and
    [this.appliedMigrationsFile] is never read. *)
Definition constructor : Proc unit :=
  fun p =>
  let supabaseUrl := env p "NEXT_PUBLIC_SUPABASE_URL" in
  let supabaseKey := env p "SUPABASE_SERVICE_ROLE_KEY" in
  if falsy supabaseUrl || falsy supabaseKey then raise ConfigMissing p
  else pure tt p.

(** The statement of [init]: the session reads it as the creation of the
    ledger table ([Pg.SCreateLedger]). *)
Definition createMigrationsTable : string := "
            CREATE TABLE IF NOT EXISTS schema_migrations (
                id SERIAL PRIMARY KEY,
                name VARCHAR(255) NOT NULL UNIQUE,
                filename VARCHAR(255) NOT NULL,
                applied_at TIMESTAMPTZ DEFAULT NOW()
            );

            CREATE INDEX IF NOT EXISTS idx_schema_migrations_name ON schema_migrations(name);
            CREATE INDEX IF NOT EXISTS idx_schema_migrations_applied_at ON schema_migrations(applied_at);
        ".

(** [init()] *)
Definition init {srv : Pg.Server} : Proc unit :=
  (print Log_init_start ;;
   attempt
     (r <- call (rpc_exec_sql createMigrationsTable) ;;
      match error r with
      | Some error => raise (Raised (PostgrestError error))
      | None => print Log_init_done
      end)
     (fun error =>
        print (Error_init_failed error) ;;
        raise error))%proc.

(** The lines of the help of [main]. *)
Definition usage : list string :=
  ["📖 使用说明:";
   "  node scripts/migrate.js <command> [options]";
   "";
   "🔧 可用命令:";
   "  init                    - 初始化迁移系统";
   "  up [steps]              - 运行待应用的迁移";
   "  down [steps]            - 回滚指定数量的迁移";
   "  status                  - 显示迁移状态";
   "  create <name>           - 创建新迁移";
   "  fresh                   - 重置数据库并运行所有迁移";
   "";
   "📝 示例:";
   "  node scripts/migrate.js up";
   "  node scripts/migrate.js down 1";
   "  node scripts/migrate.js create add_user_table";
   "  node scripts/migrate.js status"].

Fixpoint prints (os : list Output) : Proc unit :=
  match os with
  | [] => pure tt
  | o :: os' => (print o ;; prints os')%proc
  end.

(** [main()]; [args] is [process.argv.slice(2)].  The [switch] compares
    the command with each label in turn. *)
Definition main {srv : Pg.Server} : Proc unit :=
  fun p =>
  let args := Js.slice (Some 2%Z) (argv p) in
  let command := nth_error args 0 in
  if falsy command then prints (map Log_usage usage) p
  else
    let command := match command with Some c => c | None => EmptyString end in
    (constructor ;;
     attempt
       (if (command =? "init")%string then init
        else if (command =? "up")%string then
          let steps :=
            if falsy (nth_error args 1) then Some 1%Z
            else Js.parseInt (match nth_error args 1 with Some a => a | None => EmptyString end) in
          call runPending ;;
          pure tt
        else if (command =? "down")%string then
          call (down (nth_error args 1)) ;;
          pure tt
        else if (command =? "status")%string then call status
        else if (command =? "create")%string then call (create (nth_error args 1))
        else if (command =? "fresh")%string then
          print Log_fresh_warning ;;
          print Log_fresh_backup
        else print (Error_unknown_command command))
       (fun error =>
          print (Error_failed error) ;;
          exit 1))%proc p.

(* ===================================================================== *)
(** * Utilities *)
(* ===================================================================== *)

(** The functions of [src/infrastructure/utils/array.ts] and
    [src/infrastructure/utils/string.ts] that are modelled.  A [number]
    that is an index or a count is an integer or [NaN] ([Js.int]), or an
    integer ([Z]) where the function computes with it; a loop that need
    not end takes a bound on the number of its iterations and returns
    [None] when it reaches the bound. *)

Module ArrayUtils.

Section Elements.

Context {T : Type}.

(** [take(arr, n)] is [arr.slice(0, n)]. *)
Definition take (arr : list T) (n : Js.int) : list T :=
  Js.slice_to (Some 0%Z) n arr.

(** [takeRight(arr, n)] is [arr.slice(-n)]. *)
Definition takeRight (arr : list T) (n : Js.int) : list T :=
  Js.slice (Js.neg n) arr.

(** [drop(arr, n)] is [arr.slice(n)]. *)
Definition drop (arr : list T) (n : Js.int) : list T :=
  Js.slice n arr.

(** [dropRight(arr, n)] is [arr.slice(0, -n)]. *)
Definition dropRight (arr : list T) (n : Js.int) : list T :=
  Js.slice_to (Some 0%Z) (Js.neg n) arr.

(** [rotate(arr, n)] for an integer [n]; [%] is the remainder that has
    the sign of its first operand. *)
Definition rotate (arr : list T) (n : Z) : list T :=
  let len := Z.of_nat (List.length arr) in
  if (len =? 0)%Z then []
  else
    let normalizedN := Z.rem (Z.rem n len + len) len in
    Js.slice (Some normalizedN) arr ++ Js.slice_to (Some 0%Z) (Some normalizedN) arr.

(** The loop of [chunk]:
    [for (let i = 0; i < arr.length; i += size)
       chunks.push(arr.slice(i, i + size))]. *)
Fixpoint chunk_loop (bound : nat) (arr : list T) (size i : Z) (chunks : list (list T))
  : option (list (list T)) :=
  match bound with
  | O => None
  | S bound' =>
      if (i <? Z.of_nat (List.length arr))%Z then
        chunk_loop bound' arr size (i + size)
                   (chunks ++ [Js.slice_to (Some i) (Some (i + size)%Z) arr])
      else Some chunks
  end.

(** [chunk(arr, size)] for an integer [size]. *)
Definition chunk (bound : nat) (arr : list T) (size : Z) : option (list (list T)) :=
  chunk_loop bound arr size 0 [].

End Elements.

(** ** Arrays of numbers

    A number is an integer or [NaN].  [new Set] and [includes] compare
    with SameValueZero, for which [NaN] is [NaN]; [indexOf] compares with
    [===], for which it is not. *)

Definition same_value_zero (a b : Js.int) : bool :=
  match a, b with
  | Some x, Some y => (x =? y)%Z
  | None, None => true
  | _, _ => false
  end.

Definition strict_equal (a b : Js.int) : bool :=
  match a, b with
  | Some x, Some y => (x =? y)%Z
  | _, _ => false
  end.

(** The elements of [new Set(arr)] in the order of their insertion,
    [seen] being in the set already. *)
Fixpoint set_of (seen arr : list Js.int) : list Js.int :=
  match arr with
  | [] => []
  | item :: arr' =>
      if existsb (same_value_zero item) seen then set_of seen arr'
      else item :: set_of (seen ++ [item]) arr'
  end.

(** [unique(arr)] is [[...new Set(arr)]]. *)
Definition unique (arr : list Js.int) : list Js.int := set_of [] arr.

(** [self.indexOf(item)], from the index [i] of the first element of
    [self] on. *)
Fixpoint indexOf_from (i : Z) (self : list Js.int) (item : Js.int) : Z :=
  match self with
  | [] => (-1)%Z
  | x :: self' => if strict_equal x item then i else indexOf_from (i + 1) self' item
  end.

Definition indexOf (self : list Js.int) (item : Js.int) : Z := indexOf_from 0 self item.

(** [arr.filter((item, index, self) => ...)], from the index [i] of the
    first element of [arr] on. *)
Fixpoint filter_from (keep : Js.int -> Z -> bool) (i : Z) (arr : list Js.int) : list Js.int :=
  match arr with
  | [] => []
  | item :: arr' =>
      if keep item i then item :: filter_from keep (i + 1) arr'
      else filter_from keep (i + 1) arr'
  end.

(** [compress(arr)] is
    [arr.filter((item, index, self) => self.indexOf(item) === index)]. *)
Definition compress (arr : list Js.int) : list Js.int :=
  filter_from (fun item index => (indexOf arr item =? index)%Z) 0 arr.

End ArrayUtils.

Module StringUtils.

Definition is_upper (c : ascii) : bool :=
  let n := nat_of_ascii c in (65 <=? n) && (n <=? 90).

Definition is_lower (c : ascii) : bool :=
  let n := nat_of_ascii c in (97 <=? n) && (n <=? 122).

(** [toLowerCase] and [toUpperCase] on a code unit below 128. *)
Definition toLowerCase (c : ascii) : ascii :=
  if is_upper c then ascii_of_nat (nat_of_ascii c + 32) else c.

Definition toUpperCase (c : ascii) : ascii :=
  if is_lower c then ascii_of_nat (nat_of_ascii c - 32) else c.

(** [camelToSnake(str)] is
    [str.replace(/[A-Z]/g, (letter) => `_${letter.toLowerCase()}`)]. *)
Fixpoint camelToSnake (str : string) : string :=
  match str with
  | EmptyString => EmptyString
  | String letter str' =>
      if is_upper letter then String "_" (String (toLowerCase letter) (camelToSnake str'))
      else String letter (camelToSnake str')
  end.

(** [[-_]] *)
Definition is_separator (c : ascii) : bool := (c =? "-")%char || (c =? "_")%char.

(** [snakeToCamel(str)] is
    [str.replace(/([-_][a-z])/g,
       (group) => group.toUpperCase().replace('-', '').replace('_', ''))]:
    the matches are taken from the left and do not overlap, and a group,
    a separator and a letter, becomes the letter in upper case. *)
Fixpoint snakeToCamel (str : string) : string :=
  match str with
  | String c (String d str' as rest) =>
      if is_separator c && is_lower d then String (toUpperCase d) (snakeToCamel str')
      else String c (snakeToCamel rest)
  | _ => str
  end.

(** [truncate(str, length, suffix)] for an integer [length]:
    [if (!str || str.length <= length) return str;
     return str.slice(0, length) + suffix]. *)
Definition truncate (str : string) (length : Z) (suffix : string) : string :=
  if (str =? "")%string || (Z.of_nat (String.length str) <=? length)%Z then str
  else (Js.string_slice_to (Some 0%Z) (Some length) str ++ suffix)%string.

(** The suffix of [truncate] when none is given. *)
Definition ellipsis : string := "...".

End StringUtils.

(* ===================================================================== *)
(** * Vocabulary of the properties *)
(* ===================================================================== *)

(** The object [getMigrations] builds for a file name. *)
Definition entry (w : World) (file : string) : Migration.t :=
  {| Migration.filename := file;
     Migration.path := join (migrationsDir w) file;
     Migration.name := Js.replace ".sql" "" file;
     Migration.timestamp := Js.parseInt (Js.first (Js.split "_" file)) |}.

Definition is_digit (c : ascii) : bool :=
  let n := nat_of_ascii c in (48 <=? n) && (n <=? 57).

Fixpoint all_digits (s : string) : bool :=
  match s with
  | EmptyString => true
  | String c s' => is_digit c && all_digits s'
  end.

(** The file name starts with [k] digits followed by an underscore. *)
Definition version_width (k : nat) (file : string) : bool :=
  let p := Js.first (Js.split "_" file) in
  (String.length p =? k) && all_digits p.

(** Ascending by version, ties broken by the code-unit order of the file
    names.  A migration whose version is [NaN] is not comparable. *)
Definition version_le (a b : Migration.t) : Prop :=
  match Migration.timestamp a, Migration.timestamp b with
  | Some x, Some y =>
      (x < y)%Z \/ (x = y /\ String.leb (Migration.filename a) (Migration.filename b) = true)
  | _, _ => False
  end.

Definition lexical_le (a b : string) : Prop := String.leb a b = true.

(** The pattern [<numeric-prefix>_<slug>.<ext>] of the specification: one
    digit or more, an underscore, a slug and an extension, neither of
    them empty. *)
Definition spec_pattern (file : string) : bool :=
  match Js.split "_" file with
  | p :: q :: rest =>
      negb (p =? "")%string && all_digits p
      && match rev (Js.split "." (String.concat "_" (q :: rest))) with
         | ext :: slug :: more =>
             negb (ext =? "")%string
             && negb (String.concat "." (rev (slug :: more)) =? "")%string
         | _ => false
         end
  | _ => false
  end.

(** A date the clock can read: the year has four digits and the other
    fields are in their ranges. *)
Definition valid_date (d : Js.Date) : bool :=
  ((0 <=? Js.year d)%Z && (Js.year d <=? 9999)%Z
   && (1 <=? Js.month d) && (Js.month d <=? 12)
   && (1 <=? Js.day d) && (Js.day d <=? 31)
   && (Js.hours d <=? 23) && (Js.minutes d <=? 59) && (Js.seconds d <=? 59)
   && (Js.milliseconds d <=? 999))%bool.

(** [YYYYMMDDHHmmss] *)
Definition digits14 (d : Js.Date) : string :=
  (Js.pad 4 (Z.to_nat (Js.year d)) ++ Js.pad 2 (Js.month d) ++ Js.pad 2 (Js.day d)
   ++ Js.pad 2 (Js.hours d) ++ Js.pad 2 (Js.minutes d) ++ Js.pad 2 (Js.seconds d))%string.

(** Two dates in the same second: the resolution of the timestamp. *)
Definition same_second (d1 d2 : Js.Date) : Prop :=
  Js.year d1 = Js.year d2 /\ Js.month d1 = Js.month d2 /\ Js.day d1 = Js.day d2
  /\ Js.hours d1 = Js.hours d2 /\ Js.minutes d1 = Js.minutes d2
  /\ Js.seconds d1 = Js.seconds d2.

(** The [filename] of [create(name)] when the clock reads [d]. *)
Definition created_filename (d : Js.Date) (name : string) : string :=
  (compact_timestamp d ++ "_" ++ name ++ ".sql")%string.

(** No path separator in the name. *)
Definition plain (name : string) : bool :=
  negb (existsb (Ascii.eqb "/"%char) (list_ascii_of_string name)).

(** The content of a file of the directory. *)
Definition content (file : string) (fs : list (string * string)) : option string :=
  option_map snd (find (fun f => (fst f =? file)%string) fs).

(** No single quote in the string. *)
Definition quote_free (s : string) : bool :=
  negb (existsb (Ascii.eqb "'"%char) (list_ascii_of_string s)).

(** [k] single quotes. *)
Fixpoint quotes (k : nat) : string :=
  match k with
  | O => EmptyString
  | S k' => String "'"%char (quotes k')
  end.

(** The parts of the text of [insert_sql] around the two values. *)
Definition insert_into : string :=
  "INSERT INTO schema_migrations (name, filename, applied_at)".

Definition insert_indent : string := "
                    ".

Definition insert_end : string := " NOW());
                ".

(** The parts of the text of [delete_sql] around the value. *)
Definition delete_where : string := "DELETE FROM schema_migrations WHERE name = '".

(** The invariant of the specification's data model: every applied
    record is the record of a migration of the catalog. *)
Definition ledger_within_catalog (d : Pg.Session) (fs : list (string * string)) : Prop :=
  forall rows r,
    Pg.ledger (Pg.committed d) = Some rows -> In r rows ->
    exists file,
      In file (map fst fs) /\ Js.endsWith file ".sql" = true
      /\ Js.replace ".sql" "" file = Pg.name r.

(** The SQL of a migration: the content of the file at its path, when
    the file is there and can be read. *)
Definition body_of (w : World) (m : Migration.t) : option string :=
  match files w with
  | Some fs =>
      match find (fun f => (join (migrationsDir w) (fst f) =? Migration.path m)%string) fs with
      | Some f => if existsb (String.eqb (fst f)) (denied w) then None else Some (snd f)
      | None => None
      end
  | None => None
  end.

(** The process may read every [.sql] file of the directory. *)
Definition readable (w : World) (fs : list (string * string)) : Prop :=
  forall file, In file (map fst fs) -> Js.endsWith file ".sql" = true ->
               existsb (String.eqb file) (denied w) = false.

(** The record of a migration applied at time [t]. *)
Definition row_of (m : Migration.t) (t : nat) : Pg.Row :=
  {| Pg.name := Migration.name m; Pg.filename := Migration.filename m; Pg.applied_at := t |}.

(** A migration applied and ledgered. *)
Definition applied_and_ledgered (m : Migration.t) (sql : string) (t : nat)
    (rows : list Pg.Row) (s : Pg.Store) : Pg.Store :=
  {| Pg.schema := Pg.schema s ++ [Pg.Applied sql];
     Pg.ledger := Some (rows ++ [row_of m t]) |}.

(** The store a transaction that runs [sql] and records [m] at time [t]
    leaves when [sql] succeeds: both changes, or the store as it was when
    the record is refused (no ledger table, or a record of that name). *)
Definition recorded (m : Migration.t) (sql : string) (t : nat) (s : Pg.Store) : Pg.Store :=
  match Pg.ledger s with
  | Some rows =>
      if existsb (fun r => (Pg.name r =? Migration.name m)%string) rows then s
      else applied_and_ledgered m sql t rows s
  | None => s
  end.

(** The world after some round trips to the database that leave the
    session idle: the store, the number of round trips, the statements
    sent with [exec_sql] and the lines written. *)
Definition advance (s : Pg.Store) (trips : nat) (stmts : list string) (lines : list Line)
    (w : World) : World :=
  {| db := {| Pg.committed := s; Pg.txn := None;
              Pg.clock := trips + Pg.clock (db w);
              Pg.select_fault := Pg.select_fault (db w);
              Pg.received := Pg.received (db w) ++ stmts |};
     cwd := cwd w; files := files w; denied := denied w;
     clock := clock w; ticks := ticks w;
     console := console w ++ lines |}.

(** The name has a record in the ledger. *)
Definition ledgered (s : Pg.Store) (name : string) : Prop :=
  exists rows r, Pg.ledger s = Some rows /\ In r rows /\ Pg.name r = name.

(** The catalog [getMigrations] returns for the files [fs]. *)
Definition catalog (w : World) (fs : list (string * string)) : list Migration.t :=
  map (entry w) (Js.sort (filter (fun file => Js.endsWith file ".sql") (map fst fs))).

(** The migrations of the catalog without a record among [rows], in the
    order of the catalog. *)
Definition pending_of (w : World) (fs : list (string * string)) (rows : list Pg.Row)
  : list Migration.t :=
  filter (fun m => negb (Js.includes (map Pg.name (Pg.order_by_applied_at rows))
                                     (Migration.name m)))
         (catalog w fs).

(** The bodies run in this order on this schema all succeed. *)
Fixpoint bodies_succeed {srv : Pg.Server} (schema : list Pg.Change) (bodies : list string)
  : bool :=
  match bodies with
  | [] => true
  | b :: bodies' =>
      match Pg.sql_error schema b with
      | Some _ => false
      | None => bodies_succeed (schema ++ [Pg.Applied b]) bodies'
      end
  end.

(** The records of migrations applied one after the other, from the
    time [t] on: each takes four round trips, and its record has the time
    of its [BEGIN]. *)
Fixpoint records_from (t : nat) (ms : list Migration.t) : list Pg.Row :=
  match ms with
  | [] => []
  | m :: ms' => row_of m (S t) :: records_from (4 + t) ms'
  end.

(** The statements sent to apply the migrations [ms] of bodies
    [bodies]. *)
Fixpoint statements_of (ms : list Migration.t) (bodies : list string) : list string :=
  match ms, bodies with
  | m :: ms', b :: bodies' =>
      "BEGIN;" :: b :: insert_sql m :: "COMMIT;" :: statements_of ms' bodies'
  | _, _ => []
  end.

(** The lines written when the migrations [ms] are applied. *)
Fixpoint lines_of (ms : list Migration.t) : list Line :=
  match ms with
  | [] => []
  | m :: ms' =>
      Log_applying (Migration.filename m) :: Log_applied (Migration.filename m)
      :: lines_of ms'
  end.

(** The body of the loop of [runPending]. *)
Definition apply_or_abort {srv : Pg.Server} (migration : Migration.t) : M (option bool) :=
  (success <- applyMigration migration ;;
   if negb success then
     log Log_run_aborted ;;
     ret (Some false)
   else ret None)%js.

(** A migration [applyMigration] can record: its file is there, its SQL
    has no statement of its own on transactions or on the ledger, and its
    name and file name have no quote. *)
Definition ready (w : World) (m : Migration.t) (sql : string) : Prop :=
  body_of w m = Some sql /\ Pg.classify sql = Pg.SOther sql
  /\ quote_free (Migration.name m) = true /\ quote_free (Migration.filename m) = true.

(** The body of the loop of [rollback]. *)
Definition revert_or_abort {srv : Pg.Server} (migration : Applied.t) : M (option bool) :=
  (log (Log_rolling_back (Applied.filename migration)) ;;
   try_catch
     (rpc_exec_sql "BEGIN;" ;;
      rpc_exec_sql (delete_sql migration) ;;
      log (Log_manual_rollback (Applied.filename migration)) ;;
      rpc_exec_sql "COMMIT;" ;;
      log (Log_rolled_back (Applied.filename migration)) ;;
      ret None)
     (fun error =>
        rpc_exec_sql "ROLLBACK;" ;;
        log (Error_rollback_failed (Applied.filename migration) error) ;;
        ret (Some false)))%js.

(** The rows without the records of a name, and of the names of a
    list. *)
Definition without (name : string) (rows : list Pg.Row) : list Pg.Row :=
  filter (fun r => negb (Pg.name r =? name)%string) rows.

Fixpoint without_all (names : list string) (rows : list Pg.Row) : list Pg.Row :=
  match names with
  | [] => rows
  | n :: names' => without_all names' (without n rows)
  end.

(** The statements sent and the lines written to revert the records
    [rs]. *)
Fixpoint deletions (rs : list Applied.t) : list string :=
  match rs with
  | [] => []
  | r :: rs' => "BEGIN;" :: delete_sql r :: "COMMIT;" :: deletions rs'
  end.

Fixpoint revert_lines (rs : list Applied.t) : list Line :=
  match rs with
  | [] => []
  | r :: rs' =>
      Log_rolling_back (Applied.filename r) :: Log_manual_rollback (Applied.filename r)
      :: Log_rolled_back (Applied.filename r) :: revert_lines rs'
  end.

(** The applied records as [getAppliedMigrations] returns them. *)
Definition applied_list {srv : Pg.Server} (rows : list Pg.Row) : list Applied.t :=
  map to_object (Pg.order_by_applied_at rows).

(** No transaction is open. *)
Definition idle (w : World) : Prop := Pg.txn (db w) = None.

(** The command line of the process after [node] and the script. *)
Definition args_of (p : Process) : list string := Js.slice (Some 2%Z) (argv p).

(** The two variables of the environment the constructor reads are set. *)
Definition configured (p : Process) : Prop :=
  falsy (env p "NEXT_PUBLIC_SUPABASE_URL") = false
  /\ falsy (env p "SUPABASE_SERVICE_ROLE_KEY") = false.

(** A command of [main] that has a label in its [switch]. *)
Definition known_command (command : string) : bool :=
  existsb (String.eqb command) ["init"; "up"; "down"; "status"; "create"; "fresh"].

(** From [w] to [w'] the database was read at most: no statement was
    sent, the store and the transaction are as they were, and so are the
    files. *)
Definition only_read (w w' : World) : Prop :=
  Pg.committed (db w') = Pg.committed (db w)
  /\ Pg.txn (db w') = Pg.txn (db w)
  /\ Pg.received (db w') = Pg.received (db w)
  /\ files w' = files w
  /\ cwd w' = cwd w.

(** Every run of [c] is in the relation [R]. *)
Definition preserves {A} (R : World -> World -> Prop) (c : M A) : Prop :=
  forall w, R w (snd (c w)).

(** The process after the lines [os] were written. *)
Definition puts (os : list Output) (p : Process) : Process :=
  {| argv := argv p; env := env p; world := world p; output := output p ++ os |}.

(** The row of the table of [status] for a migration, given the applied
    list: the file name, whether the name has a record, and the date of
    the record, which is the part of [applied_at] before its [T]. *)
Definition table_row (applied : list Applied.t) (m : Migration.t) : Line :=
  Log_table_row (Migration.filename m)
    (Js.includes (map Applied.name applied) (Migration.name m))
    match find (fun r => (Applied.name r =? Migration.name m)%string) applied with
    | Some r => Js.first (Js.split "T" (Applied.applied_at r))
    | None => "-"
    end.

(** [((applied / total) * 100).toFixed(1)] *)
Definition rate (applied total : nat) : string :=
  Js.toFixed1 (Js.of_length applied / Js.of_length total * Js.of_length 100)%float.

(** [s.includes(pattern)]: the pattern occurs in the string. *)
Fixpoint contains (pattern s : string) : bool :=
  prefix pattern s
  || match s with
     | EmptyString => false
     | String _ s' => contains pattern s'
     end.

(** The number [YYYYMMDDHHmmss] of a date. *)
Definition stamp (d : Js.Date) : Z :=
  (((((Js.year d * 100 + Z.of_nat (Js.month d)) * 100 + Z.of_nat (Js.day d)) * 100
     + Z.of_nat (Js.hours d)) * 100 + Z.of_nat (Js.minutes d)) * 100
   + Z.of_nat (Js.seconds d))%Z.

(** [a] comes before [b] in the list. *)
Definition before {A} (a b : A) (l : list A) : Prop :=
  exists l1 l2 l3, l = l1 ++ a :: l2 ++ b :: l3.

(** The number is not [NaN]. *)
Definition is_number (x : Js.int) : bool :=
  match x with
  | Some _ => true
  | None => false
  end.

(** No separator of the string is followed by a small letter: the
    string has no group that [snakeToCamel] replaces. *)
Fixpoint camel_case (str : string) : bool :=
  match str with
  | String c (String d _ as rest) =>
      negb (StringUtils.is_separator c && StringUtils.is_lower d) && camel_case rest
  | _ => true
  end.

(** No capital letter, and no hyphen followed by a small letter. *)
Fixpoint snake_case (str : string) : bool :=
  match str with
  | EmptyString => true
  | String c rest =>
      negb (StringUtils.is_upper c)
      && match rest with
         | String d _ => negb ((c =? "-")%char && StringUtils.is_lower d)
         | EmptyString => true
         end
      && snake_case rest
  end.

(* ===================================================================== *)
(** * Worlds used in the examples *)
(* ===================================================================== *)

Module Example.

Definition relation_exists : Pg.Error :=
  {| Pg.code := "42P07"; Pg.message := "relation already exists" |}.

Definition statement_timeout : Pg.Error :=
  {| Pg.code := "57014"; Pg.message := "canceling statement due to statement timeout" |}.

(** A server on which the bodies of [failing] raise an error. *)
Definition server (failing : list string) : Pg.Server :=
  {| Pg.sql_error := fun _ sql =>
       if existsb (String.eqb sql) failing then Some relation_exists else None;
     Pg.timestamptz_out := fun t =>
       ("2024-01-15T10:30:" ++ Js.pad 2 t ++ "+00:00")%string |}.

(** A session after [init]: the ledger exists and is empty. *)
Definition fresh : Pg.Session :=
  {| Pg.committed := {| Pg.schema := []; Pg.ledger := Some [] |};
     Pg.txn := None; Pg.clock := 0; Pg.select_fault := None; Pg.received := [] |}.

(** A session before [init]: no ledger table. *)
Definition bootstrap : Pg.Session :=
  {| Pg.committed := {| Pg.schema := []; Pg.ledger := None |};
     Pg.txn := None; Pg.clock := 0; Pg.select_fault := None; Pg.received := [] |}.

Definition row (n : string) (t : nat) : Pg.Row :=
  {| Pg.name := n; Pg.filename := (n ++ ".sql")%string; Pg.applied_at := t |}.

(** A session whose ledger holds [rows] and whose schema holds the bodies
    [bodies]. *)
Definition session (bodies : list string) (rows : list Pg.Row) : Pg.Session :=
  {| Pg.committed := {| Pg.schema := map Pg.Applied bodies; Pg.ledger := Some rows |};
     Pg.txn := None; Pg.clock := 100; Pg.select_fault := None; Pg.received := [] |}.

(** The same session when reading the ledger times out. *)
Definition unreadable (d : Pg.Session) : Pg.Session :=
  {| Pg.committed := Pg.committed d; Pg.txn := Pg.txn d; Pg.clock := Pg.clock d;
     Pg.select_fault := Some statement_timeout; Pg.received := Pg.received d |}.

Definition date (s ms : nat) : Js.Date :=
  {| Js.year := 2024; Js.month := 1; Js.day := 15; Js.hours := 10;
     Js.minutes := 30; Js.seconds := s; Js.milliseconds := ms |}.

(** The clock reads 10:30:05.100, .101, .102, ... *)
Definition world (d : Pg.Session) (fs : list (string * string)) : World :=
  {| db := d; cwd := "/app"; files := Some fs; denied := [];
     clock := fun k => date 5 (100 + k); ticks := 0; console := [] |}.

(** The same world when the process may not read the files [names]. *)
Definition locked (names : list string) (w : World) : World :=
  {| db := db w; cwd := cwd w; files := files w; denied := names;
     clock := clock w; ticks := ticks w; console := console w |}.

Definition abc : list (string * string) :=
  [("20240101000000_a.sql", "CREATE TABLE a (id int);");
   ("20240102000000_b.sql", "CREATE TABLE b (id int);");
   ("20240103000000_c.sql", "CREATE TABLE c (id int);")].

(** The environment of a process that is configured, and of one that
    has no key. *)
Definition environment (name : string) : option string :=
  if (name =? "NEXT_PUBLIC_SUPABASE_URL")%string then Some "https://blog.supabase.co"
  else if (name =? "SUPABASE_SERVICE_ROLE_KEY")%string then Some "service-role-key"
  else None.

Definition no_key (name : string) : option string :=
  if (name =? "NEXT_PUBLIC_SUPABASE_URL")%string then Some "https://blog.supabase.co"
  else None.

(** [node scripts/migrate.js args...] *)
Definition process (args : list string) (w : World) : Process :=
  Build_Process ("node" :: "scripts/migrate.js" :: args) environment w [].

End Example.

(* ===================================================================== *)
(** * Properties *)
(* ===================================================================== *)

(** ** The built-ins on examples *)

Example parseInt_ts : Js.parseInt "20240115103000" = Some 20240115103000%Z.
Proof. reflexivity. Qed.
Example parseInt_nan : Js.parseInt "init.sql" = None.
Proof. reflexivity. Qed.
Example parseInt_hex : Js.parseInt "  -0x1f_z" = Some (-31)%Z.
Proof. reflexivity. Qed.
Example replace_first_only : Js.replace ".sql" "" "a.sql.sql" = "a.sql".
Proof. reflexivity. Qed.
Example split_first : Js.first (Js.split "_" "001_add_users.sql") = "001".
Proof. reflexivity. Qed.
Example sort_lexical : Js.sort ["9_a.sql"; "10_b.sql"; "1_c.sql"] = ["10_b.sql"; "1_c.sql"; "9_a.sql"].
Proof. reflexivity. Qed.
Example slice_neg : Js.slice (Some (-2)%Z) [1;2;3] = [2;3].
Proof. reflexivity. Qed.
Example slice_zero : Js.slice (Js.neg (Some 0%Z)) [1;2;3] = [1;2;3].
Proof. reflexivity. Qed.
Example iso_example :
  Js.toISOString {| Js.year := 2024; Js.month := 1; Js.day := 15; Js.hours := 10;
                    Js.minutes := 30; Js.seconds := 5; Js.milliseconds := 42 |}
  = "2024-01-15T10:30:05.042Z".
Proof. reflexivity. Qed.
Example toFixed_third : Js.toFixed1 (Js.of_length 1 / Js.of_length 3 * Js.of_length 100)%float = "33.3".
Proof. vm_compute. reflexivity. Qed.
Example toFixed_two_thirds : Js.toFixed1 (Js.of_length 2 / Js.of_length 3 * Js.of_length 100)%float = "66.7".
Proof. vm_compute. reflexivity. Qed.
Example toFixed_all : Js.toFixed1 (Js.of_length 3 / Js.of_length 3 * Js.of_length 100)%float = "100.0".
Proof. vm_compute. reflexivity. Qed.
Example toFixed_small : Js.toFixed1 (Js.of_length 1 / Js.of_length 4000 * Js.of_length 100)%float = "0.0".
Proof. vm_compute. reflexivity. Qed.
Example toFixed_nan : Js.toFixed1 (Js.of_length 0 / Js.of_length 0 * Js.of_length 100)%float = "NaN".
Proof. vm_compute. reflexivity. Qed.
Example toFixed_inf : Js.toFixed1 (Js.of_length 2 / Js.of_length 0 * Js.of_length 100)%float = "Infinity".
Proof. vm_compute. reflexivity. Qed.

Example spec_pattern_ok : spec_pattern "20240115103000_add_users.sql" = true.
Proof. reflexivity. Qed.
Example spec_pattern_no_prefix : spec_pattern "init.sql" = false.
Proof. reflexivity. Qed.
Example spec_pattern_no_prefix' : spec_pattern "add_users.sql" = false.
Proof. reflexivity. Qed.
Example spec_pattern_no_ext : spec_pattern "001_add_users" = false.
Proof. reflexivity. Qed.

(** ** The order of strings *)

Lemma ascii_compare_refl c : Ascii.compare c c = Eq.
Proof. unfold Ascii.compare. apply N.compare_refl. Qed.

Lemma ascii_compare_trans c1 c2 c3 o :
  Ascii.compare c1 c2 = o -> Ascii.compare c2 c3 = o -> Ascii.compare c1 c3 = o.
Proof.
  unfold Ascii.compare. intros H1 H2. destruct o.
  - apply N.compare_eq_iff in H1, H2. apply N.compare_eq_iff. congruence.
  - rewrite N.compare_lt_iff in *. lia.
  - rewrite N.compare_gt_iff in *. lia.
Qed.

Lemma string_compare_trans_gt :
  forall s1 s2 s3,
    String.compare s1 s2 <> Gt -> String.compare s2 s3 <> Gt ->
    String.compare s1 s3 <> Gt.
Proof.
  induction s1 as [|c1 s1 IH]; intros [|c2 s2] [|c3 s3]; simpl; try congruence.
  destruct (Ascii.compare c1 c2) eqn:E12; try congruence;
    destruct (Ascii.compare c2 c3) eqn:E23; try congruence; intros H1 H2.
  - rewrite (ascii_compare_trans _ _ _ _ E12 E23). now apply IH with s2.
  - apply Ascii.compare_eq_iff in E12. subst. now rewrite E23.
  - apply Ascii.compare_eq_iff in E23. subst. now rewrite E12.
  - now rewrite (ascii_compare_trans _ _ _ _ E12 E23).
Qed.

Lemma lexical_le_trans a b c : lexical_le a b -> lexical_le b c -> lexical_le a c.
Proof.
  unfold lexical_le, String.leb. intros H1 H2.
  pose proof (string_compare_trans_gt a b c) as H.
  destruct (String.compare a b); try discriminate;
    destruct (String.compare b c); try discriminate;
    destruct (String.compare a c); try reflexivity;
    exfalso; apply H; congruence.
Qed.

Lemma lexical_le_total a b : lexical_le a b \/ lexical_le b a.
Proof. apply String.leb_total. Qed.

(** ** [sort] sorts *)

Lemma insert_perm x a : Permutation (Js.insert x a) (x :: a).
Proof.
  induction a as [|y a IH]; simpl; [reflexivity|].
  destruct (String.leb x y); [reflexivity|].
  rewrite IH. apply perm_swap.
Qed.

Lemma sort_perm a : Permutation (Js.sort a) a.
Proof.
  induction a as [|x a IH]; simpl; [constructor|].
  rewrite insert_perm. now constructor.
Qed.

Lemma insert_sorted x a :
  StronglySorted lexical_le a -> StronglySorted lexical_le (Js.insert x a).
Proof.
  induction 1 as [|y a Hs IH Hall]; simpl.
  - repeat constructor.
  - destruct (String.leb x y) eqn:E.
    + constructor; [now constructor|].
      constructor; [exact E|].
      eapply Forall_impl; [|exact Hall].
      intros z Hz. now apply lexical_le_trans with y.
    + constructor; [exact IH|].
      assert (Hyx : lexical_le y x).
      { destruct (lexical_le_total x y) as [H|H]; [unfold lexical_le in H; congruence|exact H]. }
      rewrite (Forall_forall (lexical_le y)). intros z Hz.
      apply (Permutation_in _ (insert_perm x a)) in Hz.
      destruct Hz as [<-|Hz]; [exact Hyx|].
      rewrite Forall_forall in Hall. now apply Hall.
Qed.

Lemma sort_sorted a : StronglySorted lexical_le (Js.sort a).
Proof.
  induction a as [|x a IH]; simpl; [constructor|now apply insert_sorted].
Qed.

(** ** [getMigrations] *)

Lemma getMigrations_run w fs :
  files w = Some fs ->
  getMigrations w
  = (Normal (map (entry w)
               (Js.sort (filter (fun file => Js.endsWith file ".sql") (map fst fs)))), w).
Proof.
  intros H. unfold getMigrations, bind, existsSync_migrationsDir, readdirSync_migrationsDir, ret.
  rewrite H. simpl. rewrite H. reflexivity.
Qed.

Lemma getMigrations_missing w :
  files w = None ->
  getMigrations w = (Throw (MigrationsDirMissing (migrationsDir w)), w).
Proof.
  intros H. unfold getMigrations, bind, existsSync_migrationsDir, throw.
  rewrite H. reflexivity.
Qed.

Lemma filename_entry w l : map Migration.filename (map (entry w) l) = l.
Proof. rewrite map_map. simpl. apply map_id. Qed.

(** ** Versions of fixed width *)

Lemma split_nonempty sep s : Js.split sep s <> [].
Proof.
  destruct s as [|c s]; simpl; [discriminate|].
  destruct (Ascii.eqb c sep); [discriminate|].
  destruct (Js.split sep s); discriminate.
Qed.

(** [s.split(sep)[0]] is the part of [s] before its first [sep]. *)
Lemma first_split sep s :
  exists rest, s = (Js.first (Js.split sep s) ++ rest)%string.
Proof.
  induction s as [|c s [rest IH]]; simpl.
  - exists EmptyString. reflexivity.
  - destruct (Ascii.eqb c sep).
    + exists (String c s). reflexivity.
    + destruct (Js.split sep s) as [|piece pieces] eqn:E.
      * now apply split_nonempty in E.
      * exists rest. simpl in *. now rewrite <- IH.
Qed.

Lemma is_digit_inv c :
  is_digit c = true ->
  Js.digit_value c = Some (nat_of_ascii c - 48) /\ nat_of_ascii c - 48 < 10
  /\ Js.is_ws c = false
  /\ (48 <= N_of_ascii c <= 57)%N.
Proof.
  destruct c as [[] [] [] [] [] [] [] []]; intros H; try discriminate H;
    repeat split; try reflexivity; try (vm_compute; lia);
    try (vm_compute; discriminate).
Qed.

(** The decimal value of a string of digits. *)
Lemma digits_prefix_all p :
  all_digits p = true ->
  Js.digits_prefix 10 p = map (fun c => nat_of_ascii c - 48) (list_ascii_of_string p).
Proof.
  induction p as [|c p IH]; simpl; [reflexivity|].
  intros H. apply andb_true_iff in H as [Hc Hp].
  destruct (is_digit_inv c Hc) as (Hv & Hlt & _).
  rewrite Hv. apply Nat.ltb_lt in Hlt. rewrite Hlt. now rewrite IH.
Qed.

Lemma prefix_nil s : prefix EmptyString s = true.
Proof. destruct s; reflexivity. Qed.

Lemma prefix_cons a s1 b s2 :
  prefix (String a s1) (String b s2) = (Ascii.eqb a b && prefix s1 s2)%bool.
Proof.
  cbn [prefix]. destruct (ascii_dec a b) as [->|Hne].
  - now rewrite Ascii.eqb_refl.
  - apply Ascii.eqb_neq in Hne. now rewrite Hne.
Qed.

Lemma prefix_empty a s1 : prefix (String a s1) EmptyString = false.
Proof. reflexivity. Qed.

Lemma parseInt_digits p :
  all_digits p = true -> p <> EmptyString ->
  Js.parseInt p = Some (Js.value_of 10 (Js.digits_prefix 10 p)).
Proof.
  destruct p as [|c p]; [congruence|]. intros H _.
  pose proof (digits_prefix_all _ H) as Hds.
  cbn [all_digits] in H. apply andb_true_iff in H as [Hc Hp].
  assert (Hx : prefix "0x" (String c p) || prefix "0X" (String c p) = false).
  { rewrite !prefix_cons.
    destruct p as [|c' p].
    - rewrite !prefix_empty, !andb_false_r. reflexivity.
    - cbn [all_digits] in Hp. apply andb_true_iff in Hp as [Hc' _].
      rewrite !prefix_cons, !prefix_nil.
      destruct (Ascii.eqb_spec "x" c') as [<-|]; [discriminate Hc'|].
      destruct (Ascii.eqb_spec "X" c') as [<-|]; [discriminate Hc'|].
      rewrite !andb_false_r. reflexivity. }
  unfold Js.parseInt. cbn [Js.trim_start].
  destruct (is_digit_inv c Hc) as (_ & _ & Hws & _). rewrite Hws.
  assert (Hsign : (match String c p with
                   | String "-"%char s' => ((-1)%Z, s')
                   | String "+"%char s' => (1%Z, s')
                   | _ => (1%Z, String c p)
                   end) = (1%Z, String c p)).
  { destruct c as [[] [] [] [] [] [] [] []]; try reflexivity; discriminate Hc. }
  rewrite Hsign, Hx.
  destruct (Js.digits_prefix 10 (String c p)) as [|d ds] eqn:E.
  - cbn [list_ascii_of_string map] in Hds. discriminate Hds.
  - f_equal. destruct (Js.value_of 10 (d :: ds)); reflexivity.
Qed.

Lemma fold_value_acc (radix : Z) ds acc :
  fold_left (fun a d => a * radix + Z.of_nat d)%Z ds acc
  = (acc * radix ^ Z.of_nat (List.length ds)
     + fold_left (fun a d => a * radix + Z.of_nat d)%Z ds 0)%Z.
Proof.
  revert acc. induction ds as [|d ds IH]; intros acc.
  - simpl. lia.
  - cbn [fold_left List.length]. rewrite IH, (IH (0 * radix + Z.of_nat d)%Z).
    rewrite Nat2Z.inj_succ, Z.pow_succ_r by lia. ring.
Qed.

Lemma value_of_cons d ds :
  Js.value_of 10 (d :: ds)
  = (Z.of_nat d * 10 ^ Z.of_nat (List.length ds) + Js.value_of 10 ds)%Z.
Proof.
  unfold Js.value_of. cbn [fold_left]. rewrite fold_value_acc.
  change (Z.of_nat 10) with 10%Z. ring.
Qed.

Lemma value_of_bound ds :
  Forall (fun d => d < 10) ds ->
  (0 <= Js.value_of 10 ds < 10 ^ Z.of_nat (List.length ds))%Z.
Proof.
  induction 1 as [|d ds Hd _ IH].
  - unfold Js.value_of. simpl. lia.
  - rewrite value_of_cons. cbn [List.length].
    rewrite Nat2Z.inj_succ, Z.pow_succ_r by lia. nia.
Qed.

Lemma digits_prefix_length p :
  all_digits p = true ->
  List.length (Js.digits_prefix 10 p) = String.length p
  /\ Forall (fun d => d < 10) (Js.digits_prefix 10 p).
Proof.
  induction p as [|c p IH]; simpl; intros H; [split; constructor|].
  apply andb_true_iff in H as [Hc Hp].
  destruct (is_digit_inv c Hc) as (Hv & Hlt & _).
  rewrite Hv. pose proof Hlt as Hlt'. apply Nat.ltb_lt in Hlt'. rewrite Hlt'.
  destruct (IH Hp) as [Hlen Hall]. split; [simpl; congruence|now constructor].
Qed.

(** On strings of digits of one length the code-unit order is the order
    of the numbers. *)
Lemma compare_digits :
  forall p1 p2,
    all_digits p1 = true -> all_digits p2 = true ->
    String.length p1 = String.length p2 ->
    String.compare p1 p2
    = Z.compare (Js.value_of 10 (Js.digits_prefix 10 p1))
                (Js.value_of 10 (Js.digits_prefix 10 p2)).
Proof.
  induction p1 as [|c1 p1 IH]; intros [|c2 p2] H1 H2 Hlen; try discriminate Hlen.
  - reflexivity.
  - pose proof (digits_prefix_length _ H1) as [L1 B1].
    pose proof (digits_prefix_length _ H2) as [L2 B2].
    cbn [all_digits] in H1, H2.
    apply andb_true_iff in H1 as [Hc1 Hp1]. apply andb_true_iff in H2 as [Hc2 Hp2].
    injection Hlen as Hlen.
    specialize (IH p2 Hp1 Hp2 Hlen).
    destruct (is_digit_inv c1 Hc1) as (Hv1 & Hlt1 & _ & Hr1).
    destruct (is_digit_inv c2 Hc2) as (Hv2 & Hlt2 & _ & Hr2).
    pose proof (digits_prefix_length _ Hp1) as [L1' B1'].
    pose proof (digits_prefix_length _ Hp2) as [L2' B2'].
    pose proof (value_of_bound _ B1') as V1. pose proof (value_of_bound _ B2') as V2.
    cbn [Js.digits_prefix String.compare] in *.
    rewrite Hv1, Hv2.
    pose proof Hlt1 as T1. apply Nat.ltb_lt in T1. rewrite T1.
    pose proof Hlt2 as T2. apply Nat.ltb_lt in T2. rewrite T2.
    rewrite !value_of_cons, L1', L2', Hlen in *.
    set (n := (10 ^ Z.of_nat (String.length p2))%Z) in *.
    unfold Ascii.compare, nat_of_ascii in *.
    destruct (N.compare_spec (N_of_ascii c1) (N_of_ascii c2)) as [E|E|E].
    + rewrite E, IH. symmetry.
      destruct (Z.compare_spec (Js.value_of 10 (Js.digits_prefix 10 p1))
                               (Js.value_of 10 (Js.digits_prefix 10 p2)));
        [apply Z.compare_eq_iff|apply Z.compare_lt_iff|apply Z.compare_gt_iff]; lia.
    + symmetry. apply Z.compare_lt_iff. nia.
    + symmetry. apply Z.compare_gt_iff. nia.
Qed.

Lemma compare_app :
  forall p1 p2 r1 r2,
    String.length p1 = String.length p2 ->
    String.compare (p1 ++ r1) (p2 ++ r2)
    = match String.compare p1 p2 with
      | Eq => String.compare r1 r2
      | o => o
      end.
Proof.
  induction p1 as [|c1 p1 IH]; intros [|c2 p2] r1 r2 Hlen; try discriminate Hlen.
  - reflexivity.
  - injection Hlen as Hlen. simpl. destruct (Ascii.compare c1 c2); auto.
Qed.

Lemma version_le_of_lexical w k f1 f2 :
  0 < k ->
  version_width k f1 = true -> version_width k f2 = true ->
  lexical_le f1 f2 ->
  version_le (entry w f1) (entry w f2).
Proof.
  unfold version_width, version_le, lexical_le, entry. cbn [Migration.timestamp Migration.filename].
  intros Hk H1 H2 Hle.
  apply andb_true_iff in H1 as [L1 D1]. apply andb_true_iff in H2 as [L2 D2].
  apply Nat.eqb_eq in L1, L2.
  destruct (first_split "_" f1) as [r1 E1]. destruct (first_split "_" f2) as [r2 E2].
  set (p1 := Js.first (Js.split "_" f1)) in *.
  set (p2 := Js.first (Js.split "_" f2)) in *.
  assert (N1 : p1 <> EmptyString) by (intros E; rewrite E in L1; simpl in L1; lia).
  assert (N2 : p2 <> EmptyString) by (intros E; rewrite E in L2; simpl in L2; lia).
  rewrite (parseInt_digits p1 D1 N1), (parseInt_digits p2 D2 N2).
  pose proof (compare_digits p1 p2 D1 D2 ltac:(congruence)) as Hcmp.
  pose proof Hle as Hle'. unfold String.leb in Hle'.
  rewrite E1, E2, compare_app, Hcmp in Hle' by congruence.
  destruct (Z.compare_spec (Js.value_of 10 (Js.digits_prefix 10 p1))
                           (Js.value_of 10 (Js.digits_prefix 10 p2))) as [E|E|E].
  - right. split; [exact E|exact Hle].
  - left. exact E.
  - discriminate Hle'.
Qed.

Lemma StronglySorted_map_in {A B} (R : A -> A -> Prop) (R' : B -> B -> Prop) (f : A -> B) l :
  (forall a b, In a l -> In b l -> R a b -> R' (f a) (f b)) ->
  StronglySorted R l -> StronglySorted R' (map f l).
Proof.
  intros H Hs. induction Hs as [|a l Hs IH Hall]; simpl; constructor.
  - apply IH. intros x y Hx Hy. apply H; now right.
  - rewrite Forall_forall in *. intros y Hy.
    apply in_map_iff in Hy as (x & <- & Hx). apply H; [now left|now right|auto].
Qed.

(** ** The catalog *)

(** C5 (amended): [getMigrations] skips, without a word, the files whose
    name does not end in [.sql], and only those: every file of the
    directory whose name ends in [.sql] is in the catalog, with or without
    a numeric prefix, and nothing is written to the console. *)
Theorem getMigrations_lists_every_sql_file (w : World) (fs : list (string * string)) :
  files w = Some fs ->
  exists ms,
    getMigrations w = (Normal ms, w)
    /\ forall file,
         In file (map Migration.filename ms)
         <-> In file (map fst fs) /\ Js.endsWith file ".sql" = true.
Proof.
  intros H. eexists. split; [exact (getMigrations_run w fs H)|].
  intros file. rewrite filename_entry. split.
  - intros Hin. apply (Permutation_in _ (sort_perm _)) in Hin.
    now apply filter_In in Hin.
  - intros Hin. apply (Permutation_in _ (Permutation_sym (sort_perm _))).
    now apply filter_In.
Qed.

Lemma getMigrations_lists_every_sql_file_witness :
  exists ms,
    getMigrations (Example.world Example.fresh [("init.sql", "SELECT 1;"); ("notes.txt", "")])
    = (Normal ms, Example.world Example.fresh [("init.sql", "SELECT 1;"); ("notes.txt", "")])
    /\ forall file,
         In file (map Migration.filename ms)
         <-> In file (map fst [("init.sql", "SELECT 1;"); ("notes.txt", "")])
             /\ Js.endsWith file ".sql" = true.
Proof.
  apply (getMigrations_lists_every_sql_file
           (Example.world Example.fresh [("init.sql", "SELECT 1;"); ("notes.txt", "")])).
  reflexivity.
Defined.

(** C5, as stated, fails: [init.sql] does not match
    [<numeric-prefix>_<slug>.<ext>] and is in the catalog, with the
    version [NaN]. *)
Lemma getMigrations_keeps_file_without_prefix :
  spec_pattern "init.sql" = false
  /\ getMigrations (Example.world Example.fresh [("init.sql", "SELECT 1;")])
     = (Normal [ {| Migration.filename := "init.sql";
                    Migration.path := "/app/supabase/migrations/init.sql";
                    Migration.name := "init";
                    Migration.timestamp := None |} ],
        Example.world Example.fresh [("init.sql", "SELECT 1;")]).
Proof. split; reflexivity. Qed.

Lemma string_compare_refl (s : string) : String.compare s s = Eq.
Proof. induction s as [|c s IH]; [reflexivity|]. simpl. now rewrite ascii_compare_refl. Qed.

(** In a list in ascending order, the smaller of two names comes
    first. *)
Lemma sorted_before (l : list string) (a b : string) :
  StronglySorted lexical_le l ->
  In a l -> In b l -> String.compare a b = Lt -> before a b l.
Proof.
  intros Hs. induction Hs as [|x l Hs IH Hall]; intros Ha Hb Hlt; [destruct Ha|].
  destruct (string_dec x a) as [->|Hne].
  - destruct Hb as [->|Hb].
    + rewrite string_compare_refl in Hlt. discriminate Hlt.
    + apply in_split in Hb as (l2 & l3 & ->). now exists [], l2, l3.
  - destruct Ha as [Ha|Ha]; [congruence|].
    destruct Hb as [->|Hb].
    + exfalso. rewrite Forall_forall in Hall. specialize (Hall a Ha).
      unfold lexical_le, String.leb in Hall.
      rewrite String.compare_antisym, Hlt in Hall. discriminate Hall.
    + destruct (IH Ha Hb Hlt) as (l1 & l2 & l3 & ->). now exists (x :: l1), l2, l3.
Qed.

(** C4 (amended): [getMigrations] returns the catalog in ascending
    code-unit order of the file names, for every directory: of two
    files, the one whose name is smaller comes first, whatever their
    versions are.  When the numeric prefixes of all the [.sql] files have
    the same number of digits (the 14-digit timestamps [create] writes),
    that order is ascending by version, two files of equal version being
    in the code-unit order of their names. *)
Theorem getMigrations_ordered (w : World) (fs : list (string * string)) :
  files w = Some fs ->
  exists ms,
    getMigrations w = (Normal ms, w)
    /\ Permutation (map Migration.filename ms)
                   (filter (fun file => Js.endsWith file ".sql") (map fst fs))
    /\ StronglySorted lexical_le (map Migration.filename ms)
    /\ (forall a b,
          In a (map Migration.filename ms) -> In b (map Migration.filename ms) ->
          String.compare a b = Lt ->
          before a b (map Migration.filename ms))
    /\ (forall k,
          0 < k ->
          (forall file, In file (map fst fs) -> Js.endsWith file ".sql" = true ->
                        version_width k file = true) ->
          StronglySorted version_le ms).
Proof.
  intros H. eexists. split; [exact (getMigrations_run w fs H)|].
  rewrite filename_entry. split; [apply sort_perm|]. split; [apply sort_sorted|]. split.
  - intros a b. apply sorted_before, sort_sorted.
  - intros k Hk Hw.
    apply StronglySorted_map_in with (R := lexical_le); [|apply sort_sorted].
    intros a b Ha Hb Hab.
    apply (Permutation_in _ (sort_perm _)), filter_In in Ha, Hb.
    apply version_le_of_lexical with k; auto; apply Hw; tauto.
Qed.

Lemma getMigrations_ordered_witness :
  exists ms,
    getMigrations (Example.world Example.fresh
                     [("20240102000000_b.sql", ""); ("20240101000000_c.sql", "");
                      ("20240101000000_a.sql", ""); ("README.md", "")])
    = (Normal ms, Example.world Example.fresh
                     [("20240102000000_b.sql", ""); ("20240101000000_c.sql", "");
                      ("20240101000000_a.sql", ""); ("README.md", "")])
    /\ map Migration.filename ms
       = ["20240101000000_a.sql"; "20240101000000_c.sql"; "20240102000000_b.sql"]
    /\ StronglySorted lexical_le (map Migration.filename ms)
    /\ before "20240101000000_c.sql" "20240102000000_b.sql" (map Migration.filename ms)
    /\ StronglySorted version_le ms.
Proof.
  destruct (getMigrations_ordered
              (Example.world Example.fresh
                 [("20240102000000_b.sql", ""); ("20240101000000_c.sql", "");
                  ("20240101000000_a.sql", ""); ("README.md", "")]) _ eq_refl)
    as (ms & E & _ & Hs & Hb & Hv).
  exists ms. split; [exact E|].
  assert (Hnames : map Migration.filename ms
                   = ["20240101000000_a.sql"; "20240101000000_c.sql"; "20240102000000_b.sql"]).
  { injection E as <-. reflexivity. }
  split; [exact Hnames|]. split; [exact Hs|]. split.
  - apply Hb; [rewrite Hnames; simpl; tauto|rewrite Hnames; simpl; tauto|reflexivity].
  - apply (Hv 14); [lia|].
    intros file [<-|[<-|[<-|[<-|[]]]]] Hsql; try reflexivity; discriminate Hsql.
Defined.

(** C4, as stated, fails: [9_a.sql] has the smaller version and the
    greater name, and comes after [10_b.sql]. *)
Lemma getMigrations_not_by_version :
  exists ms,
    getMigrations (Example.world Example.fresh [("9_a.sql", ""); ("10_b.sql", "")])
    = (Normal ms, Example.world Example.fresh [("9_a.sql", ""); ("10_b.sql", "")])
    /\ map Migration.filename ms = ["10_b.sql"; "9_a.sql"]
    /\ map Migration.timestamp ms = [Some 10%Z; Some 9%Z]
    /\ ~ StronglySorted version_le ms.
Proof.
  eexists. split; [reflexivity|]. split; [reflexivity|]. split; [reflexivity|].
  intros Hs. inversion Hs as [|a l _ Hall]; subst.
  inversion Hall as [|b l' Hab _]; subst.
  vm_compute in Hab. destruct Hab as [Hlt|[Heq _]]; discriminate.
Qed.

(** ** [create] *)

Lemma append_assoc (a b c : string) : ((a ++ b) ++ c = a ++ (b ++ c))%string.
Proof. induction a; simpl; congruence. Qed.

Lemma append_length (a b : string) :
  String.length (a ++ b) = String.length a + String.length b.
Proof. induction a; simpl; congruence. Qed.

Lemma append_inv_head (a b c : string) : (a ++ b = a ++ c)%string -> b = c.
Proof. induction a; simpl; intros H; [exact H|injection H; auto]. Qed.

Lemma append_inv_tail (a b c : string) : (a ++ c = b ++ c)%string -> a = b.
Proof.
  revert b. induction a as [|x a IH]; intros [|y b] H; simpl in H.
  - reflexivity.
  - apply (f_equal String.length) in H. simpl in H. rewrite append_length in H. lia.
  - apply (f_equal String.length) in H. simpl in H. rewrite append_length in H. lia.
  - injection H as -> H. f_equal. now apply IH.
Qed.

Lemma remove_all_app class (a b : string) :
  Js.remove_all class (a ++ b) = (Js.remove_all class a ++ Js.remove_all class b)%string.
Proof.
  induction a as [|c a IH]; simpl; [reflexivity|].
  destruct (class c); simpl; congruence.
Qed.

Lemma take_app n (a b : string) :
  String.length a = n -> Js.take n (a ++ b) = a.
Proof.
  revert n. induction a as [|c a IH]; intros n <-; simpl.
  - destruct b; reflexivity.
  - f_equal. now apply IH.
Qed.

Lemma remove_all_digits s :
  all_digits s = true -> Js.remove_all punctuation s = s.
Proof.
  induction s as [|c s IH]; simpl; [reflexivity|].
  intros H. apply andb_true_iff in H as [Hc Hs]. rewrite (IH Hs).
  destruct c as [[] [] [] [] [] [] [] []]; try discriminate Hc; reflexivity.
Qed.

Lemma all_digits_app a b :
  all_digits a = true -> all_digits b = true -> all_digits (a ++ b) = true.
Proof.
  induction a as [|c a IH]; simpl; intros Ha Hb; [exact Hb|].
  apply andb_true_iff in Ha as [Hc Ha]. rewrite Hc. now apply IH.
Qed.

(** Padded numbers are digits, and as many as the width when they fit. *)
Lemma pad_digits w bound :
  forallb (fun n => (String.length (Js.pad w n) =? w) && all_digits (Js.pad w n))
          (seq 0 bound) = true ->
  forall n, n < bound ->
    String.length (Js.pad w n) = w /\ all_digits (Js.pad w n) = true.
Proof.
  intros H n Hn. rewrite forallb_forall in H.
  specialize (H n ltac:(apply in_seq; lia)).
  apply andb_true_iff in H as [H1 H2]. now apply Nat.eqb_eq in H1.
Qed.

Lemma pad2 n : n < 100 ->
  String.length (Js.pad 2 n) = 2 /\ all_digits (Js.pad 2 n) = true.
Proof. apply pad_digits. vm_compute. reflexivity. Qed.

Lemma pad4 n : n < 100 * 100 ->
  String.length (Js.pad 4 n) = 4 /\ all_digits (Js.pad 4 n) = true.
Proof. apply pad_digits. vm_compute. reflexivity. Qed.

(** The timestamp of a valid date is its fourteen digits. *)
Lemma compact_timestamp_digits d :
  valid_date d = true ->
  compact_timestamp d = digits14 d
  /\ String.length (digits14 d) = 14 /\ all_digits (digits14 d) = true.
Proof.
  unfold valid_date. rewrite !andb_true_iff.
  intros (((((((((Hy0 & Hy1) & Hm0) & Hm1) & Hd0) & Hd1) & Hh) & Hmi) & Hs) & Hms).
  apply Z.leb_le in Hy0, Hy1. apply Nat.leb_le in Hm0, Hm1, Hd0, Hd1, Hh, Hmi, Hs, Hms.
  destruct (pad4 (Z.to_nat (Js.year d)) ltac:(lia)) as [Ly Dy].
  destruct (pad2 (Js.month d) ltac:(lia)) as [Lm Dm].
  destruct (pad2 (Js.day d) ltac:(lia)) as [Ld Dd].
  destruct (pad2 (Js.hours d) ltac:(lia)) as [Lh Dh].
  destruct (pad2 (Js.minutes d) ltac:(lia)) as [Lmi Dmi].
  destruct (pad2 (Js.seconds d) ltac:(lia)) as [Ls Ds].
  assert (Hlen : String.length (digits14 d) = 14).
  { unfold digits14. rewrite !append_length. lia. }
  split; [|split; [exact Hlen|]].
  - unfold compact_timestamp, Js.toISOString, Js.iso_seconds, Js.iso_year.
    replace ((0 <=? Js.year d)%Z && (Js.year d <=? 9999)%Z) with true
      by (symmetry; apply andb_true_iff; split; now apply Z.leb_le).
    rewrite !remove_all_app.
    rewrite (remove_all_digits _ Dy), (remove_all_digits _ Dm), (remove_all_digits _ Dd),
      (remove_all_digits _ Dh), (remove_all_digits _ Dmi), (remove_all_digits _ Ds).
    change (Js.remove_all punctuation "-") with EmptyString.
    change (Js.remove_all punctuation "T") with EmptyString.
    change (Js.remove_all punctuation ":") with EmptyString.
    change (Js.remove_all punctuation ".") with EmptyString.
    cbn [String.append].
    apply take_app. exact Hlen.
  - unfold digits14. do 5 (apply all_digits_app; [assumption|]). assumption.
Qed.

Lemma prefix_app (a b : string) : prefix a (a ++ b) = true.
Proof.
  induction a as [|c a IH]; [apply prefix_nil|].
  cbn [String.append]. rewrite prefix_cons, Ascii.eqb_refl. exact IH.
Qed.

Lemma drop_app (a b : string) : Js.drop (String.length a) (a ++ b) = b.
Proof. induction a; [destruct b; reflexivity|exact IHa]. Qed.

Lemma plain_app a b : plain (a ++ b) = (plain a && plain b)%bool.
Proof.
  unfold plain. induction a as [|c a IH]; [reflexivity|].
  cbn [String.append list_ascii_of_string existsb].
  destruct (Ascii.eqb "/" c); cbn [orb negb andb]; [reflexivity|exact IH].
Qed.

Lemma plain_digits s : all_digits s = true -> plain s = true.
Proof.
  unfold plain. induction s as [|c s IH]; [reflexivity|].
  cbn [all_digits list_ascii_of_string existsb].
  intros H. apply andb_true_iff in H as [Hc Hs].
  destruct (Ascii.eqb_spec "/" c) as [<-|_]; [discriminate Hc|].
  cbn [orb]. now apply IH.
Qed.

Lemma content_write file text fs : content file (write file text fs) = Some text.
Proof.
  unfold content. induction fs as [|[g c] fs IH]; simpl.
  - now rewrite String.eqb_refl.
  - destruct (String.eqb_spec g file) as [->|Hne]; simpl.
    + now rewrite String.eqb_refl.
    + apply String.eqb_neq in Hne. rewrite Hne. exact IH.
Qed.

Lemma same_second_digits d1 d2 : same_second d1 d2 -> digits14 d1 = digits14 d2.
Proof.
  intros (Hy & Hm & Hd & Hh & Hmi & Hs). unfold digits14.
  now rewrite Hy, Hm, Hd, Hh, Hmi, Hs.
Qed.

(** C7 (amended): [create] rejects a missing or empty name; otherwise it
    writes [<YYYYMMDDHHmmss>_<name>.sql], the name as given, into the
    migrations directory, whatever file of that name was there.  Two
    calls in the same second get distinct file names exactly when their
    names differ. *)
Theorem create_writes_timestamped_file
    (w : World) (fs : list (string * string)) (name : string) :
  files w = Some fs ->
  name <> EmptyString ->
  plain name = true ->
  valid_date (clock w (ticks w)) = true ->
  let filename := (digits14 (clock w (ticks w)) ++ "_" ++ name ++ ".sql")%string in
  create None w = (Throw MigrationNameRequired, w)
  /\ create (Some EmptyString) w = (Throw MigrationNameRequired, w)
  /\ (exists w' text,
        create (Some name) w = (Normal tt, w')
        /\ files w' = Some (write filename text fs)
        /\ content filename (write filename text fs) = Some text
        /\ console w' = console w ++ [Log_created filename;
                                      Log_created_path (join (migrationsDir w) filename)])
  /\ (forall d1 d2 name1 name2,
        valid_date d1 = true -> valid_date d2 = true -> same_second d1 d2 ->
        (created_filename d1 name1 = created_filename d2 name2 <-> name1 = name2)).
Proof.
  intros Hfs Hname Hplain Hdate filename.
  split; [reflexivity|]. split; [reflexivity|]. split.
  - destruct (compact_timestamp_digits _ Hdate) as (Hts & _ & Hdig).
    assert (Hfile : plain filename = true).
    { unfold filename. rewrite !plain_app, (plain_digits _ Hdig), Hplain. reflexivity. }
    unfold create. apply String.eqb_neq in Hname. rewrite Hname.
    unfold bind, new_Date, writeFileSync, log, say, migrationsDir.
    cbn [files cwd ticks clock db console].
    rewrite Hfs, Hts. fold filename.
    set (dir := join (join (cwd w) "supabase") "migrations").
    change (join dir filename) with (dir ++ ("/" ++ filename))%string.
    rewrite <- append_assoc, prefix_app, drop_app.
    unfold plain in Hfile. rewrite Hfile. cbn [andb].
    eexists. eexists. split; [reflexivity|].
    cbn [files console]. split; [reflexivity|]. split; [apply content_write|].
    rewrite <- app_assoc. reflexivity.
  - intros d1 d2 n1 n2 H1 H2 Hsame. unfold created_filename.
    destruct (compact_timestamp_digits _ H1) as (-> & _).
    destruct (compact_timestamp_digits _ H2) as (-> & _).
    rewrite (same_second_digits _ _ Hsame). split.
    + intros H. apply append_inv_head, append_inv_head in H.
      now apply append_inv_tail in H.
    + now intros ->.
Qed.

Lemma create_writes_timestamped_file_witness :
  let w := Example.world Example.fresh Example.abc in
  let filename := (digits14 (clock w (ticks w)) ++ "_" ++ "add_users" ++ ".sql")%string in
  create None w = (Throw MigrationNameRequired, w)
  /\ create (Some EmptyString) w = (Throw MigrationNameRequired, w)
  /\ (exists w' text,
        create (Some "add_users") w = (Normal tt, w')
        /\ files w' = Some (write filename text Example.abc)
        /\ content filename (write filename text Example.abc) = Some text
        /\ console w' = console w ++ [Log_created filename;
                                      Log_created_path (join (migrationsDir w) filename)])
  /\ (forall d1 d2 name1 name2,
        valid_date d1 = true -> valid_date d2 = true -> same_second d1 d2 ->
        (created_filename d1 name1 = created_filename d2 name2 <-> name1 = name2)).
Proof.
  apply (create_writes_timestamped_file
           (Example.world Example.fresh Example.abc) Example.abc "add_users").
  - reflexivity.
  - discriminate.
  - reflexivity.
  - reflexivity.
Defined.

(** C7, as stated, fails: two calls of [create('add_users')] at 10:30:05.100
    and 10:30:05.102 get the same file name, and the second replaces the
    file the first wrote (the texts differ in the time of their second
    line). *)
Lemma create_twice_same_second_same_file :
  same_second (Example.date 5 100) (Example.date 5 102)
  /\ exists w1 w2 text1 text2,
       create (Some "add_users") (Example.world Example.fresh []) = (Normal tt, w1)
       /\ create (Some "add_users") w1 = (Normal tt, w2)
       /\ files w1 = Some [("20240115103005_add_users.sql", text1)]
       /\ files w2 = Some [("20240115103005_add_users.sql", text2)]
       /\ text1 <> text2
       /\ console w2
          = [Log_created "20240115103005_add_users.sql";
             Log_created_path "/app/supabase/migrations/20240115103005_add_users.sql";
             Log_created "20240115103005_add_users.sql";
             Log_created_path "/app/supabase/migrations/20240115103005_add_users.sql"].
Proof.
  split; [repeat split|].
  eexists. eexists. eexists. eexists.
  split; [vm_compute; reflexivity|].
  split; [vm_compute; reflexivity|].
  split; [reflexivity|]. split; [reflexivity|]. split; [|reflexivity].
  intros H. apply (f_equal (fun s => String.get 52 s)) in H. vm_compute in H. discriminate H.
Qed.

(** ** The statements of the ledger *)

Lemma quote_free_cons c s :
  quote_free (String c s) = (negb (Ascii.eqb "'" c) && quote_free s)%bool.
Proof.
  unfold quote_free. cbn [list_ascii_of_string existsb].
  now rewrite negb_orb.
Qed.

Lemma quote_free_app a b : quote_free (a ++ b) = (quote_free a && quote_free b)%bool.
Proof.
  induction a as [|c a IH]; [reflexivity|].
  cbn [String.append]. rewrite !quote_free_cons, IH. apply andb_assoc.
Qed.

Lemma literal_cons_other c s :
  c <> "'"%char ->
  Pg.literal (String c s)
  = match Pg.literal s with
    | Some (v, rest) => Some (String c v, rest)
    | None => None
    end.
Proof.
  intros Hc. cbn [Pg.literal].
  apply Ascii.eqb_neq in Hc. now rewrite Hc.
Qed.

Lemma literal_closing c s :
  c <> "'"%char -> Pg.literal (String "'" (String c s)) = Some (EmptyString, String c s).
Proof.
  intros Hc. cbn [Pg.literal]. rewrite Ascii.eqb_refl.
  apply Ascii.eqb_neq in Hc. now rewrite Hc.
Qed.

Lemma literal_doubled s :
  Pg.literal (String "'" (String "'" s))
  = match Pg.literal s with
    | Some (v, rest) => Some (String "'" v, rest)
    | None => None
    end.
Proof. cbn [Pg.literal]. now rewrite Ascii.eqb_refl. Qed.

(** A value without quote between quotes is read back as it is. *)
Lemma literal_quote_free n c rest :
  quote_free n = true -> c <> "'"%char ->
  Pg.literal (n ++ String "'" (String c rest)) = Some (n, String c rest).
Proof.
  intros Hn Hc. induction n as [|x n IH].
  - now apply literal_closing.
  - rewrite quote_free_cons in Hn. apply andb_true_iff in Hn as [Hx Hn].
    apply negb_true_iff, Ascii.eqb_neq in Hx.
    cbn [String.append]. rewrite literal_cons_other by congruence.
    now rewrite (IH Hn).
Qed.

Lemma quotes_comm k s : (quotes k ++ String "'" s)%string = String "'" (quotes k ++ s).
Proof. induction k as [|k IH]; simpl; congruence. Qed.

(** A value is read back as it is only if it has no quote: the reader
    never gets ahead of the text by [k] quotes, and it falls behind at the
    first quote. *)
Lemma literal_behind c rest :
  c <> "'"%char ->
  forall len n k r,
    String.length n <= len ->
    Pg.literal (n ++ String "'" (String c rest)) = Some ((quotes k ++ n)%string, r) ->
    k = 0 /\ quote_free n = true.
Proof.
  intros Hc. induction len as [len IH] using lt_wf_ind.
  intros n k r Hlen H.
  destruct n as [|x n].
  - cbn [String.append] in H. rewrite literal_closing in H by exact Hc.
    destruct k; [split; reflexivity|discriminate H].
  - cbn [String.append String.length] in H, Hlen.
    destruct (Ascii.eqb_spec "'" x) as [<-|Hx].
    + exfalso. destruct n as [|y n].
      * cbn [String.append] in H. rewrite literal_doubled in H.
        rewrite literal_cons_other in H by exact Hc.
        destruct (Pg.literal rest) as [[v r']|]; [|discriminate H].
        rewrite quotes_comm in H. injection H as H _.
        destruct k; simpl in H; [discriminate H|]. injection H as H _. congruence.
      * cbn [String.append String.length] in H, Hlen.
        destruct (Ascii.eqb_spec "'" y) as [<-|Hy].
        -- rewrite literal_doubled in H.
           destruct (Pg.literal (n ++ String "'" (String c rest))) as [[v r']|] eqn:E;
             [|discriminate H].
           rewrite quotes_comm in H. injection H as H Hr.
           rewrite quotes_comm in H. subst v.
           change (String "'" (quotes k ++ n))%string with (quotes (S k) ++ n)%string in E.
           destruct (IH (String.length n) ltac:(lia) n (S k) r' (le_n _) E) as [Hk _].
           discriminate Hk.
        -- cbn [Pg.literal] in H. rewrite Ascii.eqb_refl in H.
           assert (Hy' : Ascii.eqb y "'" = false) by (apply Ascii.eqb_neq; congruence).
           rewrite Hy' in H. injection H as H _.
           destruct k; discriminate H.
    + rewrite literal_cons_other in H by congruence.
      destruct (Pg.literal (n ++ String "'" (String c rest))) as [[v r']|] eqn:E;
        [|discriminate H].
      injection H as H Hr. destruct k as [|k].
      * cbn [quotes String.append] in H. injection H as ->.
        destruct (IH (String.length n) ltac:(lia) n 0 r' (le_n _) E) as [_ Hn].
        split; [reflexivity|]. rewrite quote_free_cons, Hn.
        apply Ascii.eqb_neq in Hx. now rewrite Hx.
      * cbn [quotes String.append] in H. injection H as H _. congruence.
Qed.

Lemma literal_not_read_back n c rest r :
  c <> "'"%char -> quote_free n = false ->
  Pg.literal (n ++ String "'" (String c rest)) <> Some (n, r).
Proof.
  intros Hc Hq H.
  destruct (literal_behind c rest Hc (String.length n) n 0 r (le_n _) H) as [_ Hn].
  congruence.
Qed.

Lemma expect_app token rest : Pg.expect token (token ++ rest) = Some rest.
Proof. unfold Pg.expect. now rewrite prefix_app, drop_app. Qed.

Lemma insert_sql_text m :
  insert_sql m
  = (insert_indent ++ insert_into ++ insert_indent ++ "VALUES ('"
     ++ Migration.name m ++ "', '" ++ Migration.filename m ++ "'," ++ insert_end)%string.
Proof. reflexivity. Qed.

Lemma delete_sql_text r :
  delete_sql r = (delete_where ++ Applied.name r ++ "';")%string.
Proof. reflexivity. Qed.

(** How the session reads the text of [insert_sql]: the two values
    between the quotes, as string constants. *)
Lemma parse_insert_sql m :
  Pg.parse_insert (insert_sql m)
  = match Pg.literal (Migration.name m
                      ++ String "'" (String "," (" '" ++ Migration.filename m
                                                 ++ String "'" (String "," insert_end))))
    with
    | Some (n, s3) =>
        match Pg.expect ", '" s3 with
        | Some s4 =>
            match Pg.literal s4 with
            | Some (f, s5) =>
                match Pg.expect ", NOW());" s5 with
                | Some s6 => if (Pg.skip_ws s6 =? "")%string then Some (n, f) else None
                | None => None
                end
            | None => None
            end
        | None => None
        end
    | None => None
    end.
Proof.
  unfold Pg.parse_insert.
  change (Pg.skip_ws (insert_sql m))
    with (insert_into
          ++ (insert_indent ++ "VALUES ('" ++ Migration.name m ++ "', '"
              ++ Migration.filename m ++ "'," ++ insert_end))%string.
  rewrite expect_app.
  change (Pg.skip_ws (insert_indent ++ "VALUES ('" ++ Migration.name m ++ "', '"
                      ++ Migration.filename m ++ "'," ++ insert_end))
    with ("VALUES ('" ++ (Migration.name m ++ "', '"
                          ++ Migration.filename m ++ "'," ++ insert_end))%string.
  rewrite expect_app. reflexivity.
Qed.

Lemma classify_insert_sql m :
  Pg.classify (insert_sql m)
  = match Pg.parse_insert (insert_sql m) with
    | Some (n, f) => Pg.SInsert n f
    | None => Pg.SSyntaxError
    end.
Proof. reflexivity. Qed.

Lemma classify_delete_sql r :
  Pg.classify (delete_sql r)
  = match Pg.literal (Applied.name r ++ String "'" (String ";" EmptyString)) with
    | Some (n, s2) => if (s2 =? ";")%string then Pg.SDelete n else Pg.SSyntaxError
    | None => Pg.SSyntaxError
    end.
Proof.
  change (Pg.classify (delete_sql r))
    with (match Pg.parse_delete (delete_sql r) with
          | Some n => Pg.SDelete n
          | None => Pg.SSyntaxError
          end).
  unfold Pg.parse_delete. rewrite delete_sql_text. unfold delete_where.
  rewrite expect_app.
  change (Applied.name r ++ "';")%string
    with (Applied.name r ++ String "'" (String ";" EmptyString))%string.
  destruct (Pg.literal _) as [[n s2]|]; [|reflexivity].
  destruct (s2 =? ";")%string; reflexivity.
Qed.

(** The session reads the record of a migration whose name and file name
    have no quote. *)
Lemma classify_insert m :
  quote_free (Migration.name m) = true ->
  quote_free (Migration.filename m) = true ->
  Pg.classify (insert_sql m) = Pg.SInsert (Migration.name m) (Migration.filename m).
Proof.
  intros Hn Hf. rewrite classify_insert_sql, parse_insert_sql.
  rewrite (literal_quote_free _ "," _ Hn) by discriminate.
  change (String "," (" '" ++ Migration.filename m ++ String "'" (String "," insert_end)))
    with (", '" ++ (Migration.filename m ++ String "'" (String "," insert_end)))%string.
  rewrite expect_app.
  rewrite (literal_quote_free _ "," _ Hf) by discriminate.
  reflexivity.
Qed.

Lemma classify_delete r :
  quote_free (Applied.name r) = true ->
  Pg.classify (delete_sql r) = Pg.SDelete (Applied.name r).
Proof.
  intros Hn. rewrite classify_delete_sql.
  rewrite (literal_quote_free _ ";" _ Hn) by discriminate. reflexivity.
Qed.

Lemma quote_free_middle a b : quote_free (a ++ "'" ++ b) = false.
Proof.
  rewrite quote_free_app. cbn [String.append]. rewrite quote_free_cons, Ascii.eqb_refl.
  apply andb_false_r.
Qed.

(** C9: the statements that insert and delete a ledger record hold the
    name and the file name as they are, between two quotes.  A quote of
    the name stands in the statement as it is, not doubled, and the
    session does not read the statement as the record of that name. *)
Theorem ledger_statements_keep_quotes (m : Migration.t) (r : Applied.t) (a b : string) :
  (Migration.name m = (a ++ "'" ++ b)%string ->
   insert_sql m
   = (insert_indent ++ insert_into ++ insert_indent ++ "VALUES ('"
      ++ a ++ "'" ++ b ++ "', '" ++ Migration.filename m ++ "'," ++ insert_end)%string
   /\ Pg.classify (insert_sql m) <> Pg.SInsert (Migration.name m) (Migration.filename m))
  /\ (Applied.name r = (a ++ "'" ++ b)%string ->
      delete_sql r = (delete_where ++ a ++ "'" ++ b ++ "';")%string
      /\ Pg.classify (delete_sql r) <> Pg.SDelete (Applied.name r)).
Proof.
  split; intros Hname.
  - split.
    + rewrite insert_sql_text, Hname, !append_assoc. reflexivity.
    + rewrite classify_insert_sql, parse_insert_sql.
      pose proof (literal_not_read_back (Migration.name m) ","
                    (" '" ++ Migration.filename m ++ String "'" (String "," insert_end))) as H.
      destruct (Pg.literal _) as [[n s3]|]; [|discriminate].
      destruct (Pg.expect ", '" s3) as [s4|]; [|discriminate].
      destruct (Pg.literal s4) as [[f s5]|]; [|discriminate].
      destruct (Pg.expect ", NOW());" s5) as [s6|]; [|discriminate].
      destruct (Pg.skip_ws s6 =? "")%string; [|discriminate].
      intros E. injection E as -> ->.
      apply (H s3); [discriminate| |reflexivity].
      rewrite Hname. apply quote_free_middle.
  - split.
    + rewrite delete_sql_text, Hname, !append_assoc. reflexivity.
    + rewrite classify_delete_sql.
      pose proof (literal_not_read_back (Applied.name r) ";" EmptyString) as H.
      destruct (Pg.literal _) as [[n s2]|]; [|discriminate].
      destruct (s2 =? ";")%string; [|discriminate].
      intros E. injection E as ->.
      apply (H s2); [discriminate| |reflexivity].
      rewrite Hname. apply quote_free_middle.
Qed.

Lemma ledger_statements_keep_quotes_witness :
  let m := {| Migration.filename := "001_user's_table.sql"; Migration.path := "";
              Migration.name := "001_user's_table"; Migration.timestamp := Some 1%Z |} in
  let r := {| Applied.name := "001_user's_table"; Applied.filename := "001_user's_table.sql";
              Applied.applied_at := "2024-01-15T10:30:05+00:00" |} in
  (insert_sql m
   = (insert_indent ++ insert_into ++ insert_indent ++ "VALUES ('"
      ++ "001_user" ++ "'" ++ "s_table" ++ "', '" ++ Migration.filename m ++ "',"
      ++ insert_end)%string
   /\ Pg.classify (insert_sql m) <> Pg.SInsert (Migration.name m) (Migration.filename m))
  /\ (delete_sql r = (delete_where ++ "001_user" ++ "'" ++ "s_table" ++ "';")%string
      /\ Pg.classify (delete_sql r) <> Pg.SDelete (Applied.name r)).
Proof.
  intros m r.
  destruct (ledger_statements_keep_quotes m r "001_user" "s_table") as [H1 H2].
  split; [apply H1|apply H2]; reflexivity.
Defined.

(** ** [getAppliedMigrations] *)

Lemma getAppliedMigrations_run {srv : Pg.Server} (w : World) :
  getAppliedMigrations w
  = match Pg.select_ordered (db w) with
    | ((_, Some e), d) =>
        if (Pg.code e =? "42P01")%string then (Normal [], set_db d w)
        else (Normal [], say (Warn_get_applied_failed (PostgrestError e)) (set_db d w))
    | ((Some rows, None), d) => (Normal (map to_object rows), set_db d w)
    | ((None, None), d) => (Normal [], set_db d w)
    end.
Proof.
  unfold getAppliedMigrations, try_catch, bind, select_schema_migrations.
  destruct (Pg.select_ordered (db w)) as [[[rows|] [e|]] d]; cbn [error data option_map];
    try reflexivity; destruct (Pg.code e =? "42P01")%string; reflexivity.
Qed.

(** C3 (amended): [getAppliedMigrations] returns the empty sequence on
    every failure of the ledger read: without a word when the table does
    not exist (code 42P01), after a warning on the console for any other
    error.  It never throws, so no read failure aborts a run. *)
Theorem getAppliedMigrations_swallows_read_failures {srv : Pg.Server} (w : World) :
  (exists rows w', getAppliedMigrations w = (Normal rows, w'))
  /\ (Pg.select_fault (db w) = None -> Pg.txn (db w) = None ->
      Pg.ledger (Pg.committed (db w)) = None ->
      exists w', getAppliedMigrations w = (Normal [], w') /\ console w' = console w)
  /\ (forall e, Pg.select_fault (db w) = Some e ->
        exists w', getAppliedMigrations w = (Normal [], w')
          /\ console w'
             = if (Pg.code e =? "42P01")%string then console w
               else console w ++ [Warn_get_applied_failed (PostgrestError e)]).
Proof.
  rewrite getAppliedMigrations_run. split; [|split].
  - destruct (Pg.select_ordered (db w)) as [[[rows|] [e|]] d];
      try destruct (Pg.code e =? "42P01")%string; eexists; eexists; reflexivity.
  - intros Hf Ht Hl. unfold Pg.select_ordered. rewrite Hf, Ht, Hl.
    eexists. split; reflexivity.
  - intros e Hf. unfold Pg.select_ordered. rewrite Hf.
    destruct (Pg.code e =? "42P01")%string; eexists; split; reflexivity.
Qed.

Lemma getAppliedMigrations_swallows_read_failures_witness :
  let srv := Example.server [] in
  let w := Example.world (Example.unreadable
                            (Example.session ["CREATE TABLE a (id int);"]
                                             [Example.row "20240101000000_a" 7]))
                         Example.abc in
  let w0 := Example.world Example.bootstrap Example.abc in
  (exists w', getAppliedMigrations w0 = (Normal [], w') /\ console w' = console w0)
  /\ (exists w', getAppliedMigrations w = (Normal [], w')
        /\ console w' = console w
                        ++ [Warn_get_applied_failed (PostgrestError Example.statement_timeout)]).
Proof.
  intros srv w w0. split.
  - destruct (@getAppliedMigrations_swallows_read_failures srv w0) as (_ & H & _).
    apply H; reflexivity.
  - destruct (@getAppliedMigrations_swallows_read_failures srv w) as (_ & _ & H).
    apply (H Example.statement_timeout). reflexivity.
Defined.

(** C3, as stated, fails: the ledger table exists and records [a], the
    read times out, and [getAppliedMigrations] returns the empty sequence
    all the same; [runPending] is not aborted: it sends the SQL of [a],
    [b] and [c] and returns [true]. *)
Lemma read_timeout_is_swallowed :
  let srv := Example.server [] in
  let w := Example.world (Example.unreadable
                            (Example.session ["CREATE TABLE a (id int);"]
                                             [Example.row "20240101000000_a" 7]))
                         Example.abc in
  Pg.ledger (Pg.committed (db w)) <> None
  /\ (exists w', getAppliedMigrations w = (Normal [], w'))
  /\ (exists w',
        runPending w = (Normal true, w')
        /\ filter (fun sql => existsb (String.eqb sql) (map snd Example.abc))
                  (Pg.received (db w'))
           = ["CREATE TABLE a (id int);"; "CREATE TABLE b (id int);";
              "CREATE TABLE c (id int);"]).
Proof.
  intros srv w. split; [discriminate|]. split.
  - eexists. vm_compute. reflexivity.
  - eexists. split; vm_compute; reflexivity.
Qed.

(** ** Running the monad *)

Lemma bind_normal {A B} (c : M A) (k : A -> M B) w a w' :
  c w = (Normal a, w') -> bind c k w = k a w'.
Proof. unfold bind. now intros ->. Qed.

Lemma bind_throw {A B} (c : M A) (k : A -> M B) w e w' :
  c w = (Throw e, w') -> bind c k w = (Throw e, w').
Proof. unfold bind. now intros ->. Qed.

Lemma bind_log {B} l (k : unit -> M B) w : bind (log l) k w = k tt (say l w).
Proof. reflexivity. Qed.

Lemma filter_none {A} (f : A -> bool) l :
  (forall x, In x l -> f x = false) -> filter f l = [].
Proof.
  induction l as [|x l IH]; intros H; [reflexivity|].
  simpl. rewrite (H x (or_introl eq_refl)). apply IH. intros y Hy. apply H. now right.
Qed.

(** ** [status] *)

(** A session that is idle and whose ledger has no row reads as the empty
    sequence, whatever else happens to the read. *)
Lemma getAppliedMigrations_no_rows {srv : Pg.Server} (w : World) :
  Pg.txn (db w) = None ->
  (forall rows, Pg.ledger (Pg.committed (db w)) = Some rows -> rows = []) ->
  exists w' lines,
    getAppliedMigrations w = (Normal [], w')
    /\ files w' = files w /\ console w' = console w ++ lines
    /\ Pg.txn (db w') = None
    /\ Pg.committed (db w') = Pg.committed (db w).
Proof.
  intros Ht Hrows. rewrite getAppliedMigrations_run. unfold Pg.select_ordered.
  rewrite Ht. destruct (Pg.select_fault (db w)) as [e|].
  - destruct (Pg.code e =? "42P01")%string.
    + eexists. exists []. split; [reflexivity|].
      unfold set_db. cbn. rewrite app_nil_r. auto.
    + eexists. exists [Warn_get_applied_failed (PostgrestError e)].
      split; [reflexivity|]. unfold say, set_db. cbn. auto.
  - destruct (Pg.ledger (Pg.committed (db w))) as [rows|] eqn:El.
    + rewrite (Hrows rows eq_refl). eexists. exists [].
      split; [reflexivity|]. unfold set_db. cbn. rewrite app_nil_r. auto.
    + eexists. exists []. split; [reflexivity|].
      unfold set_db. cbn. rewrite app_nil_r. auto.
Qed.

(** C10: when the catalog is empty, and the applied records are within
    the catalog, [status] divides 0 by 0: the rate it prints is [NaN],
    and it ends normally. *)
Theorem status_of_empty_catalog_prints_NaN {srv : Pg.Server}
    (w : World) (fs : list (string * string)) :
  files w = Some fs ->
  (forall file, In file (map fst fs) -> Js.endsWith file ".sql" = false) ->
  Pg.txn (db w) = None ->
  ledger_within_catalog (db w) fs ->
  PrimFloat.is_nan (Js.of_length 0 / Js.of_length 0 * Js.of_length 100)%float = true
  /\ exists w' lines,
       status w = (Normal tt, w')
       /\ console w'
          = console w ++ lines
            ++ [Log_stats_total 0; Log_stats_applied 0; Log_stats_pending 0;
                Log_stats_rate "NaN"].
Proof.
  intros Hfs Hnone Ht Hinv. split; [reflexivity|].
  assert (Hrows : forall rows, Pg.ledger (Pg.committed (db w)) = Some rows -> rows = []).
  { intros [|r rows] Hl; [reflexivity|]. exfalso.
    destruct (Hinv _ r Hl (or_introl eq_refl)) as (file & Hin & Hsql & _).
    rewrite (Hnone file Hin) in Hsql. discriminate Hsql. }
  assert (Hcat : forall w1, files w1 = Some fs -> getMigrations w1 = (Normal [], w1)).
  { intros w1 H1. rewrite (getMigrations_run w1 fs H1), (filter_none _ _ Hnone). reflexivity. }
  unfold status. rewrite bind_log.
  rewrite (bind_normal _ _ _ _ _ (Hcat (say Log_status_title w) Hfs)).
  destruct (getAppliedMigrations_no_rows (say Log_status_title w) Ht Hrows)
    as (w1 & l1 & E1 & F1 & C1 & T1 & S1).
  rewrite (bind_normal _ _ _ _ _ E1).
  assert (Hfs1 : files w1 = Some fs) by (rewrite F1; exact Hfs).
  assert (Hrows1 : forall rows, Pg.ledger (Pg.committed (db w1)) = Some rows -> rows = [])
    by (rewrite S1; exact Hrows).
  destruct (getAppliedMigrations_no_rows w1 T1 Hrows1)
    as (w2 & l2 & E2 & F2 & C2 & T2 & S2).
  assert (Epending : getPendingMigrations w1 = (Normal [], w2)).
  { unfold getPendingMigrations.
    rewrite (bind_normal _ _ _ _ _ (Hcat w1 Hfs1)), (bind_normal _ _ _ _ _ E2). reflexivity. }
  rewrite (bind_normal _ _ _ _ _ Epending).
  rewrite !bind_log. cbn [for_of]. unfold ret at 1. cbn [bind].
  rewrite !bind_log. cbn [List.length map].
  eexists. exists ([Log_status_title] ++ l1 ++ l2
                   ++ [Log_table_title; Log_table_top; Log_table_head; Log_table_rule;
                       Log_table_bottom; Log_stats_title]).
  split; [reflexivity|].
  cbn [say console]. rewrite C2, C1. cbn [say console].
  rewrite <- !app_assoc. reflexivity.
Qed.

Lemma status_of_empty_catalog_prints_NaN_witness :
  let srv := Example.server [] in
  let w := Example.world Example.fresh [("README.md", "migrations go here")] in
  PrimFloat.is_nan (Js.of_length 0 / Js.of_length 0 * Js.of_length 100)%float = true
  /\ exists w' lines,
       status w = (Normal tt, w')
       /\ console w'
          = console w ++ lines
            ++ [Log_stats_total 0; Log_stats_applied 0; Log_stats_pending 0;
                Log_stats_rate "NaN"].
Proof.
  intros srv w.
  apply (@status_of_empty_catalog_prints_NaN srv w [("README.md", "migrations go here")]).
  - reflexivity.
  - intros file [<-|[]]. reflexivity.
  - reflexivity.
  - intros rows r Hl Hin. injection Hl as <-. destruct Hin.
Defined.

(** Outside the invariant the division is unguarded all the same: with
    one record left in the ledger and no file, the rate is 1/0. *)
Example status_of_empty_catalog_with_a_record :
  let srv := Example.server [] in
  let w := Example.world (Example.session [] [Example.row "20240101000000_a" 7]) [] in
  exists w', status w = (Normal tt, w')
             /\ last (console w') Log_status_title = Log_stats_rate "Infinity".
Proof. intros srv w. eexists. split; vm_compute; reflexivity. Qed.

(** ** One migration in one transaction *)

Lemma classify_begin : Pg.classify "BEGIN;" = Pg.SBegin.
Proof. reflexivity. Qed.

Lemma classify_commit : Pg.classify "COMMIT;" = Pg.SCommit.
Proof. reflexivity. Qed.

Lemma classify_rollback : Pg.classify "ROLLBACK;" = Pg.SRollback.
Proof. reflexivity. Qed.

Lemma readFileSync_body w m sql :
  body_of w m = Some sql -> readFileSync (Migration.path m) w = (Normal sql, w).
Proof.
  unfold body_of, readFileSync. destruct (files w) as [fs|]; [|discriminate].
  destruct (find _ fs) as [f|]; [|discriminate].
  destruct (existsb _ (denied w)); [discriminate|]. now intros [= ->].
Qed.

(** One step of the evaluation of a method: the projections are
    computed, the definitions of the model stay folded. *)
Ltac step :=
  cbn [db cwd files denied clock ticks console error data
       Pg.committed Pg.txn Pg.clock Pg.select_fault Pg.received
       Pg.working Pg.started Pg.aborted Pg.schema Pg.ledger Pg.run].

Ltac open_world w :=
  let d := fresh "d" in
  destruct w as [d ? ? ? ? ? ?]; destruct d as [[? ?] ? ? ? ?];
  cbn [db cwd files denied clock ticks console
       Pg.committed Pg.txn Pg.clock Pg.select_fault Pg.received Pg.schema Pg.ledger] in *;
  subst.

Ltac run_methods :=
  unfold try_catch, bind, ret, throw, log, say, rpc_exec_sql, set_db, Pg.exec_sql, advance;
  step.

Lemma app2 {A} (l : list A) a b : (l ++ [a]) ++ [b] = l ++ [a; b].
Proof. now rewrite <- app_assoc. Qed.

Lemma app3 {A} (l : list A) a b c : ((l ++ [a]) ++ [b]) ++ [c] = l ++ [a; b; c].
Proof. now rewrite <- !app_assoc. Qed.

Lemma app4 {A} (l : list A) a b c d : (((l ++ [a]) ++ [b]) ++ [c]) ++ [d] = l ++ [a; b; c; d].
Proof. now rewrite <- !app_assoc. Qed.

(** What [applyMigration] does on an idle session, for a migration whose
    SQL has no statement of its own on transactions or on the ledger, and
    whose name and file name have no quote. *)
Lemma applyMigration_run {srv : Pg.Server} (m : Migration.t) (w : World) (sql : string) :
  Pg.txn (db w) = None ->
  body_of w m = Some sql ->
  Pg.classify sql = Pg.SOther sql ->
  quote_free (Migration.name m) = true ->
  quote_free (Migration.filename m) = true ->
  applyMigration m w
  = match Pg.sql_error (Pg.schema (Pg.committed (db w))) sql with
    | Some e =>
        (Normal false,
         advance (Pg.committed (db w)) 3 ["BEGIN;"; sql; "ROLLBACK;"]
           [Log_applying (Migration.filename m);
            Error_apply_failed (Migration.filename m) (PostgrestError e)] w)
    | None =>
        (Normal true,
         advance (recorded m sql (S (Pg.clock (db w))) (Pg.committed (db w)))
           4 ["BEGIN;"; sql; insert_sql m; "COMMIT;"]
           [Log_applying (Migration.filename m); Log_applied (Migration.filename m)] w)
    end.
Proof.
  intros Ht Hbody Hc Hqn Hqf.
  unfold applyMigration. rewrite bind_log.
  rewrite (bind_normal _ _ _ _ _ (readFileSync_body (say _ w) m sql Hbody)).
  clear Hbody.
  destruct (Pg.ledger (Pg.committed (db w))) as [rows|] eqn:Hl;
    open_world w; run_methods;
    rewrite classify_begin; step; rewrite Hc; step;
    (destruct (Pg.sql_error _ sql) as [e|]; step;
     [rewrite classify_rollback; step; now rewrite app3, app2|]);
    rewrite (classify_insert m Hqn Hqf); step; unfold recorded; step.
  - destruct (existsb _ rows); step; rewrite classify_commit; step;
      now rewrite app4, app2.
  - rewrite classify_commit. step. now rewrite app4, app2.
Qed.

Lemma ledgered_applied m sql t rows s :
  ledgered (applied_and_ledgered m sql t rows s) (Migration.name m).
Proof.
  exists (rows ++ [row_of m t]), (row_of m t).
  split; [reflexivity|]. split; [|reflexivity]. apply in_or_app. right. now left.
Qed.

(** C1 (amended): [applyMigration] is atomic with respect to the ledger
    for a migration whose name and file name have no single quote.  The
    session has no open transaction, the file of the migration can be
    read, and its SQL has no statement of its own on transactions or on
    the ledger.  When the SQL of the migration fails, the transaction is
    rolled back: the store is as it was, without a record of the
    migration.  When the SQL succeeds, the record is inserted after it in
    the same transaction, before [COMMIT]: the store then has the schema
    change and the record, or it is as it was. *)
Theorem applyMigration_atomic {srv : Pg.Server} (m : Migration.t) (w : World) (sql : string) :
  Pg.txn (db w) = None ->
  body_of w m = Some sql ->
  Pg.classify sql = Pg.SOther sql ->
  quote_free (Migration.name m) = true ->
  quote_free (Migration.filename m) = true ->
  let s := Pg.committed (db w) in
  let t := S (Pg.clock (db w)) in
  exists ok s' stmts lines,
    applyMigration m w = (Normal ok, advance s' (List.length stmts) stmts lines w)
    /\ (forall e, Pg.sql_error (Pg.schema s) sql = Some e ->
          ok = false /\ stmts = ["BEGIN;"; sql; "ROLLBACK;"] /\ s' = s)
    /\ (Pg.sql_error (Pg.schema s) sql = None ->
          ok = true /\ stmts = ["BEGIN;"; sql; insert_sql m; "COMMIT;"]
          /\ ((exists rows, Pg.ledger s = Some rows
                            /\ s' = applied_and_ledgered m sql t rows s)
              \/ s' = s)
          /\ (forall rows,
                Pg.ledger s = Some rows ->
                existsb (fun r => (Pg.name r =? Migration.name m)%string) rows = false ->
                s' = applied_and_ledgered m sql t rows s))
    /\ (~ ledgered s (Migration.name m) ->
          (ledgered s' (Migration.name m)
           /\ Pg.schema s' = Pg.schema s ++ [Pg.Applied sql])
          \/ (~ ledgered s' (Migration.name m) /\ s' = s)).
Proof.
  intros Ht Hbody Hc Hqn Hqf s t.
  rewrite (applyMigration_run m w sql Ht Hbody Hc Hqn Hqf). fold s t.
  destruct (Pg.sql_error (Pg.schema s) sql) as [e|].
  - exists false, s, ["BEGIN;"; sql; "ROLLBACK;"]. eexists.
    split; [reflexivity|]. split; [|split].
    + intros e' _. auto.
    + discriminate.
    + intros Hn. right. auto.
  - exists true, (recorded m sql t s), ["BEGIN;"; sql; insert_sql m; "COMMIT;"]. eexists.
    split; [reflexivity|]. split; [|split].
    + discriminate.
    + intros _. split; [reflexivity|]. split; [reflexivity|]. unfold recorded. split.
      * destruct (Pg.ledger s) as [rows|]; [|now right].
        destruct (existsb _ rows); [now right|]. left. now exists rows.
      * intros rows Hl Hfresh. now rewrite Hl, Hfresh.
    + intros Hn. unfold recorded.
      destruct (Pg.ledger s) as [rows|] eqn:Hl; [|now right].
      destruct (existsb _ rows); [now right|].
      left. split; [apply ledgered_applied|reflexivity].
Qed.

Lemma applyMigration_atomic_witness :
  let srv := Example.server ["CREATE TABLE b (id int);"] in
  let w := Example.world Example.fresh Example.abc in
  let m := entry w "20240101000000_a.sql" in
  let sql := "CREATE TABLE a (id int);" in
  let s := Pg.committed (db w) in
  let t := S (Pg.clock (db w)) in
  exists ok s' stmts lines,
    applyMigration m w = (Normal ok, advance s' (List.length stmts) stmts lines w)
    /\ (forall e, Pg.sql_error (Pg.schema s) sql = Some e ->
          ok = false /\ stmts = ["BEGIN;"; sql; "ROLLBACK;"] /\ s' = s)
    /\ (Pg.sql_error (Pg.schema s) sql = None ->
          ok = true /\ stmts = ["BEGIN;"; sql; insert_sql m; "COMMIT;"]
          /\ ((exists rows, Pg.ledger s = Some rows
                            /\ s' = applied_and_ledgered m sql t rows s)
              \/ s' = s)
          /\ (forall rows,
                Pg.ledger s = Some rows ->
                existsb (fun r => (Pg.name r =? Migration.name m)%string) rows = false ->
                s' = applied_and_ledgered m sql t rows s))
    /\ (~ ledgered s (Migration.name m) ->
          (ledgered s' (Migration.name m)
           /\ Pg.schema s' = Pg.schema s ++ [Pg.Applied sql])
          \/ (~ ledgered s' (Migration.name m) /\ s' = s)).
Proof.
  intros srv w m sql.
  apply (@applyMigration_atomic srv m w sql); reflexivity.
Defined.

(** C1, as stated, fails for a migration with a quote in its name.  The
    name and the file name go into the [INSERT] as they are.  For the file
    [20240102000000_b''s.sql] the statement is accepted, and the database
    reads the doubled quote as one: the body is committed with a record
    of the name [20240102000000_b's], which is not the name of the
    migration.  The schema has the change, the ledger has no record of
    the migration, and the migration is still pending. *)
Lemma applyMigration_not_atomic_with_quote :
  let srv := Example.server [] in
  let w := Example.world Example.fresh
             [("20240102000000_b''s.sql", "CREATE TABLE b (id int);")] in
  let m := entry w "20240102000000_b''s.sql" in
  exists w' w'',
    applyMigration m w = (Normal true, w')
    /\ Pg.committed (db w')
       = {| Pg.schema := [Pg.Applied "CREATE TABLE b (id int);"];
            Pg.ledger := Some [ {| Pg.name := "20240102000000_b's";
                                   Pg.filename := "20240102000000_b's.sql";
                                   Pg.applied_at := 1 |} ] |}
    /\ Migration.name m = "20240102000000_b''s"
    /\ ~ ledgered (Pg.committed (db w')) (Migration.name m)
    /\ getPendingMigrations w' = (Normal [m], w'').
Proof.
  intros srv w m. eexists. eexists.
  split; [vm_compute; reflexivity|]. split; [reflexivity|]. split; [reflexivity|].
  split; [|vm_compute; reflexivity].
  intros (rows & r & Hl & Hin & Hname). injection Hl as <-.
  destruct Hin as [<-|[]]. discriminate Hname.
Qed.

(** The two outcomes, on the catalog [a], [b], [c] when the SQL of [b]
    fails. *)
Example applyMigration_a_applied :
  let srv := Example.server ["CREATE TABLE b (id int);"] in
  let w := Example.world Example.fresh Example.abc in
  exists w',
    applyMigration (entry w "20240101000000_a.sql") w = (Normal true, w')
    /\ Pg.committed (db w')
       = {| Pg.schema := [Pg.Applied "CREATE TABLE a (id int);"];
            Pg.ledger := Some [ {| Pg.name := "20240101000000_a";
                                   Pg.filename := "20240101000000_a.sql";
                                   Pg.applied_at := 1 |} ] |}
    /\ Pg.txn (db w') = None.
Proof. intros srv w. eexists. split; [vm_compute; reflexivity|]. split; reflexivity. Qed.

Example applyMigration_b_rolled_back :
  let srv := Example.server ["CREATE TABLE b (id int);"] in
  let w := Example.world Example.fresh Example.abc in
  exists w',
    applyMigration (entry w "20240102000000_b.sql") w = (Normal false, w')
    /\ Pg.committed (db w') = Pg.committed (db w)
    /\ Pg.txn (db w') = None
    /\ Pg.received (db w') = ["BEGIN;"; "CREATE TABLE b (id int);"; "ROLLBACK;"].
Proof. intros srv w. eexists. split; [vm_compute; reflexivity|]. repeat split. Qed.

(** [applyMigration] when the SQL fails: no condition on the names, the
    record is never sent. *)
Lemma applyMigration_fails {srv : Pg.Server} (m : Migration.t) (w : World) (sql : string) e :
  Pg.txn (db w) = None ->
  body_of w m = Some sql ->
  Pg.classify sql = Pg.SOther sql ->
  Pg.sql_error (Pg.schema (Pg.committed (db w))) sql = Some e ->
  applyMigration m w
  = (Normal false,
     advance (Pg.committed (db w)) 3 ["BEGIN;"; sql; "ROLLBACK;"]
       [Log_applying (Migration.filename m);
        Error_apply_failed (Migration.filename m) (PostgrestError e)] w).
Proof.
  intros Ht Hbody Hc He.
  unfold applyMigration. rewrite bind_log.
  rewrite (bind_normal _ _ _ _ _ (readFileSync_body (say _ w) m sql Hbody)).
  clear Hbody. open_world w. run_methods.
  rewrite classify_begin. step. rewrite Hc. step. rewrite He. step.
  rewrite classify_rollback. step. now rewrite app3, app2.
Qed.

(** ** The algebra of [advance] *)

Lemma advance_eq s s' n n' st st' ls ls' w :
  s = s' -> n = n' -> st = st' -> ls = ls' ->
  advance s n st ls w = advance s' n' st' ls' w.
Proof. now intros -> -> -> ->. Qed.

Lemma advance_advance s1 n1 st1 ls1 s2 n2 st2 ls2 w :
  advance s2 n2 st2 ls2 (advance s1 n1 st1 ls1 w)
  = advance s2 (n2 + n1) (st1 ++ st2) (ls1 ++ ls2) w.
Proof.
  unfold advance. cbn [db cwd files clock ticks console
                       Pg.clock Pg.select_fault Pg.received].
  now rewrite !app_assoc, Nat.add_assoc.
Qed.

Lemma advance_say s n st ls l w :
  advance s n st ls (say l w) = advance s n st (l :: ls) w.
Proof.
  unfold advance, say. cbn [db cwd files clock ticks console].
  now rewrite <- app_assoc.
Qed.

Lemma say_advance s n st ls l w :
  say l (advance s n st ls w) = advance s n st (ls ++ [l]) w.
Proof.
  unfold advance, say. cbn [db cwd files clock ticks console].
  now rewrite app_assoc.
Qed.

Lemma advance_nothing w :
  Pg.txn (db w) = None -> advance (Pg.committed (db w)) 0 [] [] w = w.
Proof.
  intros Ht. destruct w as [d ? ? ? ? ? ?]. destruct d as [? ? ? ? ?].
  cbn in Ht. subst. unfold advance. cbn. now rewrite !app_nil_r.
Qed.

(** ** Reading the ledger of an idle session *)

Lemma getAppliedMigrations_idle {srv : Pg.Server} (w : World) rows :
  Pg.txn (db w) = None ->
  Pg.select_fault (db w) = None ->
  Pg.ledger (Pg.committed (db w)) = Some rows ->
  getAppliedMigrations w
  = (Normal (map to_object (Pg.order_by_applied_at rows)),
     advance (Pg.committed (db w)) 1 [] [] w).
Proof.
  intros Ht Hf Hl. rewrite getAppliedMigrations_run. unfold Pg.select_ordered.
  rewrite Ht, Hf, Hl. open_world w. unfold set_db, advance. step.
  now rewrite !app_nil_r.
Qed.

Lemma names_to_object {srv : Pg.Server} rows : map Applied.name (map to_object rows) = map Pg.name rows.
Proof. rewrite map_map. reflexivity. Qed.

Lemma getPendingMigrations_run {srv : Pg.Server} (w : World) fs rows :
  files w = Some fs ->
  Pg.txn (db w) = None ->
  Pg.select_fault (db w) = None ->
  Pg.ledger (Pg.committed (db w)) = Some rows ->
  getPendingMigrations w
  = (Normal (pending_of w fs rows), advance (Pg.committed (db w)) 1 [] [] w).
Proof.
  intros Hfs Ht Hf Hl. unfold getPendingMigrations.
  rewrite (bind_normal _ _ _ _ _ (getMigrations_run w fs Hfs)).
  rewrite (bind_normal _ _ _ _ _ (getAppliedMigrations_idle w rows Ht Hf Hl)).
  unfold ret, pending_of, catalog. now rewrite names_to_object.
Qed.

Lemma insert_row_perm r rows : Permutation (Pg.insert_row r rows) (r :: rows).
Proof.
  induction rows as [|r' rows IH]; simpl; [reflexivity|].
  destruct (Pg.applied_at r <=? Pg.applied_at r'); [reflexivity|].
  rewrite IH. apply perm_swap.
Qed.

Lemma order_perm rows : Permutation (Pg.order_by_applied_at rows) rows.
Proof.
  induction rows as [|r rows IH]; simpl; [constructor|].
  rewrite insert_row_perm. now constructor.
Qed.

(** A pending migration has no record. *)
Lemma pending_fresh w fs rows m :
  In m (pending_of w fs rows) ->
  existsb (fun r => (Pg.name r =? Migration.name m)%string) rows = false.
Proof.
  unfold pending_of. intros Hin. apply filter_In in Hin as [_ Hinc].
  apply negb_true_iff in Hinc. unfold Js.includes in Hinc.
  destruct (existsb _ rows) eqn:E; [|reflexivity].
  apply existsb_exists in E as (r & Hr & Hname). apply String.eqb_eq in Hname.
  assert (Hex : existsb (String.eqb (Migration.name m))
                        (map Pg.name (Pg.order_by_applied_at rows)) = true).
  { apply existsb_exists. exists (Pg.name r). split.
    - apply in_map. apply (Permutation_in _ (Permutation_sym (order_perm rows))). exact Hr.
    - rewrite Hname. apply String.eqb_refl. }
  congruence.
Qed.

(** ** [runPending] *)

Lemma applyMigration_ok {srv : Pg.Server} (m : Migration.t) (w : World) (sql : string) rows :
  Pg.txn (db w) = None ->
  ready w m sql ->
  Pg.sql_error (Pg.schema (Pg.committed (db w))) sql = None ->
  Pg.ledger (Pg.committed (db w)) = Some rows ->
  existsb (fun r => (Pg.name r =? Migration.name m)%string) rows = false ->
  applyMigration m w
  = (Normal true,
     advance (applied_and_ledgered m sql (S (Pg.clock (db w))) rows (Pg.committed (db w)))
       4 ["BEGIN;"; sql; insert_sql m; "COMMIT;"]
       [Log_applying (Migration.filename m); Log_applied (Migration.filename m)] w).
Proof.
  intros Ht (Hbody & Hc & Hqn & Hqf) He Hl Hfresh.
  rewrite (applyMigration_run m w sql Ht Hbody Hc Hqn Hqf), He.
  unfold recorded. now rewrite Hl, Hfresh.
Qed.

Lemma store_eta (s : Pg.Store) rows :
  Pg.ledger s = Some rows -> {| Pg.schema := Pg.schema s; Pg.ledger := Some rows |} = s.
Proof. destruct s. cbn. now intros ->. Qed.

(** The loop applies, in order, the migrations that succeed. *)
Lemma for_of_applies {srv : Pg.Server} (pre : list Migration.t) :
  forall (bodies : list string) (w : World) (rows : list Pg.Row) (rest : list Migration.t),
    Pg.txn (db w) = None ->
    Pg.ledger (Pg.committed (db w)) = Some rows ->
    Forall2 (ready w) pre bodies ->
    bodies_succeed (Pg.schema (Pg.committed (db w))) bodies = true ->
    NoDup (map Migration.name pre) ->
    (forall m, In m pre ->
               existsb (fun r => (Pg.name r =? Migration.name m)%string) rows = false) ->
    for_of (pre ++ rest) apply_or_abort w
    = for_of rest apply_or_abort
        (advance {| Pg.schema := Pg.schema (Pg.committed (db w)) ++ map Pg.Applied bodies;
                    Pg.ledger := Some (rows ++ records_from (Pg.clock (db w)) pre) |}
                 (4 * List.length pre) (statements_of pre bodies) (lines_of pre) w).
Proof.
  induction pre as [|m pre IH]; intros bodies w rows rest Ht Hl HF Hs Hnd Hfresh.
  - inversion HF; subst. cbn [map records_from statements_of lines_of app].
    change (4 * List.length (@nil Migration.t)) with 0.
    rewrite !app_nil_r, (store_eta _ _ Hl), (advance_nothing w Ht). reflexivity.
  - inversion HF as [|m' sql pre' bodies' Hready HF']; subst.
    cbn [bodies_succeed] in Hs.
    destruct (Pg.sql_error (Pg.schema (Pg.committed (db w))) sql) eqn:He; [discriminate Hs|].
    inversion Hnd as [|n ns Hnotin Hnd']; subst.
    pose proof (applyMigration_ok m w sql rows Ht Hready He Hl
                  (Hfresh m (or_introl eq_refl))) as Hm.
    cbn [app for_of]. unfold apply_or_abort at 1.
    rewrite (bind_normal _ _ _ _ _ (bind_normal _ _ _ _ _ Hm)). cbv beta iota.
    rewrite (IH bodies' _ (rows ++ [row_of m (S (Pg.clock (db w)))]) rest);
      try reflexivity; try assumption.
    + f_equal. rewrite advance_advance. apply advance_eq.
      * unfold applied_and_ledgered. cbn [db advance Pg.committed Pg.schema Pg.clock map
                                          records_from].
        now rewrite <- !app_assoc.
      * cbn [List.length]. lia.
      * reflexivity.
      * reflexivity.
    + intros m' Hin. rewrite existsb_app, (Hfresh m' (or_intror Hin)).
      cbn [existsb row_of Pg.name orb].
      destruct (String.eqb_spec (Migration.name m) (Migration.name m')) as [E|]; [|reflexivity].
      exfalso. apply Hnotin. rewrite E. now apply in_map.
Qed.

Lemma records_names t ms : map Pg.name (records_from t ms) = map Migration.name ms.
Proof. revert t. induction ms as [|m ms IH]; intros t; simpl; [reflexivity|]. now rewrite IH. Qed.

(** [runPending] stops at the first migration whose SQL fails, when every
    record before it is accepted: the ledger table exists, and the
    migrations before the failure have distinct names without a quote.
    When the pending migrations are [pre], then [B], then [post], the SQL
    of the migrations of [pre] succeeds and that of [B] fails,
    [runPending] applies and ledgers the migrations of [pre] in order,
    each in its own transaction, rolls [B] back and stops: [B] has no
    record, nothing is sent and nothing is written for a migration of
    [post], and what [pre] did stays committed. *)
Theorem runPending_fail_fast {srv : Pg.Server}
    (w : World) (fs : list (string * string)) (rows : list Pg.Row)
    (pre post : list Migration.t) (B : Migration.t)
    (bodies : list string) (sqlB : string) (e : Pg.Error) :
  files w = Some fs ->
  Pg.txn (db w) = None ->
  Pg.select_fault (db w) = None ->
  Pg.ledger (Pg.committed (db w)) = Some rows ->
  pending_of w fs rows = pre ++ B :: post ->
  Forall2 (ready w) pre bodies ->
  NoDup (map Migration.name (pre ++ [B])) ->
  bodies_succeed (Pg.schema (Pg.committed (db w))) bodies = true ->
  body_of w B = Some sqlB ->
  Pg.classify sqlB = Pg.SOther sqlB ->
  Pg.sql_error (Pg.schema (Pg.committed (db w)) ++ map Pg.Applied bodies) sqlB = Some e ->
  let s' := {| Pg.schema := Pg.schema (Pg.committed (db w)) ++ map Pg.Applied bodies;
               Pg.ledger := Some (rows ++ records_from (S (Pg.clock (db w))) pre) |} in
  runPending w
  = (Normal false,
     advance s' (4 + 4 * List.length pre)
       (statements_of pre bodies ++ ["BEGIN;"; sqlB; "ROLLBACK;"])
       ([Log_run_start; Log_found_pending (List.length (pre ++ B :: post))]
        ++ lines_of pre
        ++ [Log_applying (Migration.filename B);
            Error_apply_failed (Migration.filename B) (PostgrestError e);
            Log_run_aborted]) w)
  /\ (forall m, In m pre -> ledgered s' (Migration.name m))
  /\ ~ ledgered s' (Migration.name B).
Proof.
  intros Hfs Ht Hf Hl Hpending HF Hnd Hs HbodyB HcB HeB s'.
  assert (Hfresh : forall m, In m (pre ++ B :: post) ->
            existsb (fun r => (Pg.name r =? Migration.name m)%string) rows = false).
  { intros m Hin. apply (pending_fresh w fs rows). now rewrite Hpending. }
  rewrite map_app in Hnd. cbn [map] in Hnd.
  pose proof (NoDup_remove_1 _ _ _ Hnd) as HndPre.
  pose proof (NoDup_remove_2 _ _ _ Hnd) as HnotinB.
  rewrite app_nil_r in HndPre, HnotinB.
  split; [|split].
  - unfold runPending. rewrite bind_log.
    rewrite (bind_normal _ _ _ _ _
               (getPendingMigrations_run (say Log_run_start w) fs rows Hfs Ht Hf Hl)).
    change (pending_of (say Log_run_start w) fs rows) with (pending_of w fs rows).
    rewrite Hpending.
    destruct (List.length (pre ++ B :: post) =? 0) eqn:Elen.
    { apply Nat.eqb_eq in Elen. rewrite length_app in Elen. cbn in Elen. lia. }
    rewrite bind_log, say_advance, advance_say.
    change (for_of (pre ++ B :: post) _) with (for_of (pre ++ B :: post) apply_or_abort).
    set (w0 := advance _ 1 [] _ w).
    set (w1 := advance {| Pg.schema := Pg.schema (Pg.committed (db w0)) ++ map Pg.Applied bodies;
                          Pg.ledger := Some (rows ++ records_from (Pg.clock (db w0)) pre) |}
                       (4 * List.length pre) (statements_of pre bodies) (lines_of pre) w0).
    pose proof (applyMigration_fails B w1 sqlB e eq_refl HbodyB HcB HeB) as HB.
    assert (Hloop :
      for_of (pre ++ B :: post) apply_or_abort w0
      = (Normal (Some false),
         advance s' (4 + 4 * List.length pre)
           (statements_of pre bodies ++ ["BEGIN;"; sqlB; "ROLLBACK;"])
           ([Log_run_start; Log_found_pending (List.length (pre ++ B :: post))]
            ++ lines_of pre
            ++ [Log_applying (Migration.filename B);
                Error_apply_failed (Migration.filename B) (PostgrestError e);
                Log_run_aborted]) w)).
    { rewrite (for_of_applies pre bodies w0 rows (B :: post)); try assumption; try reflexivity.
      - cbn [for_of]. unfold apply_or_abort at 1.
        fold w1. rewrite (bind_normal _ _ _ _ _ (bind_normal _ _ _ _ _ HB)).
        cbv beta iota. unfold ret. f_equal.
        rewrite say_advance. unfold w1, w0. rewrite !advance_advance.
        apply advance_eq; try reflexivity. lia.
      - intros m Hin. apply Hfresh. apply in_or_app. now left. }
    rewrite (bind_normal _ _ _ _ _ Hloop). reflexivity.
  - intros m Hin. exists (rows ++ records_from (S (Pg.clock (db w))) pre).
    assert (Hn : In (Migration.name m) (map Pg.name (records_from (S (Pg.clock (db w))) pre)))
      by (rewrite records_names; now apply in_map).
    apply in_map_iff in Hn as (r & Hr & Hin'). exists r.
    split; [reflexivity|]. split; [apply in_or_app; now right|exact Hr].
  - intros (rows' & r & Hl' & Hin & Hname). injection Hl' as <-.
    apply in_app_or in Hin as [Hin|Hin].
    + specialize (Hfresh B ltac:(apply in_or_app; right; now left)).
      assert (Hex : existsb (fun r => (Pg.name r =? Migration.name B)%string) rows = true).
      { apply existsb_exists. exists r. split; [exact Hin|]. now apply String.eqb_eq. }
      congruence.
    + apply (in_map Pg.name) in Hin. rewrite records_names, Hname in Hin.
      now apply HnotinB.
Qed.

Lemma runPending_fail_fast_witness :
  let srv := Example.server ["CREATE TABLE b (id int);"] in
  let w := Example.world Example.fresh Example.abc in
  let A := entry w "20240101000000_a.sql" in
  let B := entry w "20240102000000_b.sql" in
  let C := entry w "20240103000000_c.sql" in
  let s' := {| Pg.schema := Pg.schema (Pg.committed (db w))
                            ++ map Pg.Applied ["CREATE TABLE a (id int);"];
               Pg.ledger := Some ([] ++ records_from (S (Pg.clock (db w))) [A]) |} in
  runPending w
  = (Normal false,
     advance s' (4 + 4 * List.length [A])
       (statements_of [A] ["CREATE TABLE a (id int);"]
        ++ ["BEGIN;"; "CREATE TABLE b (id int);"; "ROLLBACK;"])
       ([Log_run_start; Log_found_pending (List.length ([A] ++ B :: [C]))]
        ++ lines_of [A]
        ++ [Log_applying (Migration.filename B);
            Error_apply_failed (Migration.filename B) (PostgrestError Example.relation_exists);
            Log_run_aborted]) w)
  /\ (forall m, In m [A] -> ledgered s' (Migration.name m))
  /\ ~ ledgered s' (Migration.name B).
Proof.
  intros srv w A B C.
  apply (@runPending_fail_fast srv w Example.abc [] [A] [C] B
           ["CREATE TABLE a (id int);"] "CREATE TABLE b (id int);" Example.relation_exists).
  - reflexivity.
  - reflexivity.
  - reflexivity.
  - reflexivity.
  - reflexivity.
  - constructor; [|constructor]. repeat split; reflexivity.
  - repeat constructor; simpl; intuition discriminate.
  - reflexivity.
  - reflexivity.
  - reflexivity.
  - reflexivity.
Defined.

(** The scenario of the specification: [a], [b], [c] pending, the SQL of
    [b] fails. *)
Example runPending_a_b_c :
  let srv := Example.server ["CREATE TABLE b (id int);"] in
  exists w',
    runPending (Example.world Example.fresh Example.abc) = (Normal false, w')
    /\ Pg.committed (db w')
       = {| Pg.schema := [Pg.Applied "CREATE TABLE a (id int);"];
            Pg.ledger := Some [ {| Pg.name := "20240101000000_a";
                                   Pg.filename := "20240101000000_a.sql";
                                   Pg.applied_at := 2 |} ] |}
    /\ Pg.txn (db w') = None
    /\ filter (fun sql => existsb (String.eqb sql) (map snd Example.abc))
              (Pg.received (db w'))
       = ["CREATE TABLE a (id int);"; "CREATE TABLE b (id int);"]
    /\ console w'
       = [Log_run_start; Log_found_pending 3;
          Log_applying "20240101000000_a.sql"; Log_applied "20240101000000_a.sql";
          Log_applying "20240102000000_b.sql";
          Error_apply_failed "20240102000000_b.sql" (PostgrestError Example.relation_exists);
          Log_run_aborted].
Proof.
  intros srv. eexists. split; [vm_compute; reflexivity|]. repeat split.
Qed.

(** C2, at an input where a record is refused.  The directory holds
    [20240101000000_a's.sql], [20240102000000_b.sql] and
    [20240103000000_c.sql] on a ledger that exists and is empty.  The
    [INSERT] for the first migration is refused (the quote of the name
    ends the string constant early).  [applyMigration] reads the error of
    the response for the SQL of the migration and not for the [INSERT]:
    it sends [COMMIT], which discards the transaction, writes that the
    migration is applied and returns [true].  [runPending] goes on.  When
    all the SQL is valid it applies [b] and [c] and returns [true], so
    that the second and the third migration are applied and ledgered
    while the first is neither.  When the SQL of [b] fails it stops at
    [b], and the first migration, written as applied, is neither applied
    nor ledgered. *)
Theorem runPending_goes_on_after_failed_insert :
  let w := Example.world Example.fresh
             [("20240101000000_a's.sql", "CREATE TABLE a (id int);");
              ("20240102000000_b.sql", "CREATE TABLE b (id int);");
              ("20240103000000_c.sql", "CREATE TABLE c (id int);")] in
  let A := entry w "20240101000000_a's.sql" in
  Pg.classify (insert_sql A) = Pg.SSyntaxError
  /\ (let srv := Example.server [] in
      exists w',
        runPending w = (Normal true, w')
        /\ Pg.committed (db w')
           = {| Pg.schema := [Pg.Applied "CREATE TABLE b (id int);";
                              Pg.Applied "CREATE TABLE c (id int);"];
                Pg.ledger := Some [ {| Pg.name := "20240102000000_b";
                                       Pg.filename := "20240102000000_b.sql";
                                       Pg.applied_at := 6 |};
                                    {| Pg.name := "20240103000000_c";
                                       Pg.filename := "20240103000000_c.sql";
                                       Pg.applied_at := 10 |} ] |}
        /\ Pg.received (db w')
           = ["BEGIN;"; "CREATE TABLE a (id int);"; insert_sql A; "COMMIT;";
              "BEGIN;"; "CREATE TABLE b (id int);";
              insert_sql (entry w "20240102000000_b.sql"); "COMMIT;";
              "BEGIN;"; "CREATE TABLE c (id int);";
              insert_sql (entry w "20240103000000_c.sql"); "COMMIT;"]
        /\ console w'
           = [Log_run_start; Log_found_pending 3;
              Log_applying "20240101000000_a's.sql"; Log_applied "20240101000000_a's.sql";
              Log_applying "20240102000000_b.sql"; Log_applied "20240102000000_b.sql";
              Log_applying "20240103000000_c.sql"; Log_applied "20240103000000_c.sql";
              Log_all_applied])
  /\ (let srv := Example.server ["CREATE TABLE b (id int);"] in
      exists w',
        runPending w = (Normal false, w')
        /\ Pg.committed (db w') = {| Pg.schema := []; Pg.ledger := Some [] |}
        /\ console w'
           = [Log_run_start; Log_found_pending 3;
              Log_applying "20240101000000_a's.sql"; Log_applied "20240101000000_a's.sql";
              Log_applying "20240102000000_b.sql";
              Error_apply_failed "20240102000000_b.sql"
                (PostgrestError Example.relation_exists);
              Log_run_aborted]).
Proof.
  intros w A. split; [reflexivity|]. split.
  - intros srv. eexists. split; [vm_compute; reflexivity|]. repeat split.
  - intros srv. eexists. split; [vm_compute; reflexivity|]. repeat split.
Qed.

(** ** [rollback] *)

Lemma in_skipn {A} n (l : list A) x : In x (skipn n l) -> In x l.
Proof. intros H. rewrite <- (firstn_skipn n l). apply in_or_app. now right. Qed.

(** One record reverted: its rows leave the ledger, the schema stays. *)
Lemma revert_run {srv : Pg.Server} (r : Applied.t) (w : World) rows :
  Pg.txn (db w) = None ->
  Pg.ledger (Pg.committed (db w)) = Some rows ->
  quote_free (Applied.name r) = true ->
  revert_or_abort r w
  = (Normal None,
     advance {| Pg.schema := Pg.schema (Pg.committed (db w));
                Pg.ledger := Some (without (Applied.name r) rows) |}
       3 ["BEGIN;"; delete_sql r; "COMMIT;"]
       [Log_rolling_back (Applied.filename r); Log_manual_rollback (Applied.filename r);
        Log_rolled_back (Applied.filename r)] w).
Proof.
  intros Ht Hl Hq. unfold revert_or_abort. rewrite bind_log.
  open_world w. run_methods.
  rewrite classify_begin. step. rewrite (classify_delete r Hq). step.
  rewrite classify_commit. step. now rewrite !app3.
Qed.

Lemma for_of_reverts {srv : Pg.Server} (rs : list Applied.t) :
  forall (w : World) (rows : list Pg.Row),
    Pg.txn (db w) = None ->
    Pg.ledger (Pg.committed (db w)) = Some rows ->
    Forall (fun r => quote_free (Applied.name r) = true) rs ->
    for_of rs revert_or_abort w
    = (Normal None,
       advance {| Pg.schema := Pg.schema (Pg.committed (db w));
                  Pg.ledger := Some (without_all (map Applied.name rs) rows) |}
         (3 * List.length rs) (deletions rs) (revert_lines rs) w).
Proof.
  induction rs as [|r rs IH]; intros w rows Ht Hl Hq.
  - cbn [for_of map without_all deletions revert_lines]. unfold ret.
    change (3 * List.length (@nil Applied.t)) with 0.
    now rewrite (store_eta _ _ Hl), (advance_nothing w Ht).
  - inversion Hq as [|r' rs' Hr Hrs]; subst.
    cbn [for_of]. rewrite (bind_normal _ _ _ _ _ (revert_run r w rows Ht Hl Hr)).
    rewrite (IH _ (without (Applied.name r) rows)); try reflexivity; try assumption.
    f_equal. rewrite advance_advance. apply advance_eq; try reflexivity.
    cbn [List.length]. lia.
Qed.

(** What [rollback] does on an idle session whose ledger holds rows of
    names without quote. *)
Lemma rollback_run {srv : Pg.Server} (steps : Js.int) (w : World) rows :
  Pg.txn (db w) = None ->
  Pg.select_fault (db w) = None ->
  Pg.ledger (Pg.committed (db w)) = Some rows ->
  rows <> [] ->
  Forall (fun r => quote_free (Pg.name r) = true) rows ->
  let selected := migrationsToRollback steps (applied_list rows) in
  rollback steps w
  = (Normal true,
     advance {| Pg.schema := Pg.schema (Pg.committed (db w));
                Pg.ledger := Some (without_all (map Applied.name selected) rows) |}
       (3 * List.length selected + 1) (deletions selected)
       ([Log_rollback_start steps; Log_will_rollback (List.length selected)]
        ++ revert_lines selected ++ [Log_rollback_done]) w).
Proof.
  intros Ht Hf Hl Hne Hq selected.
  unfold rollback. rewrite bind_log.
  rewrite (bind_normal _ _ _ _ _ (getAppliedMigrations_idle (say _ w) rows Ht Hf Hl)).
  fold (applied_list rows).
  destruct (List.length (applied_list rows) =? 0) eqn:Elen.
  { apply Nat.eqb_eq in Elen. unfold applied_list in Elen.
    rewrite length_map, (Permutation_length (order_perm rows)) in Elen.
    destruct rows; [congruence|discriminate Elen]. }
  assert (HqSel : Forall (fun r => quote_free (Applied.name r) = true) selected).
  { unfold selected, migrationsToRollback, Js.slice, applied_list.
    rewrite Forall_forall in *. intros r Hin.
    apply in_rev in Hin. apply in_skipn in Hin.
    apply in_map_iff in Hin as (row & <- & Hrow).
    apply Hq. apply (Permutation_in _ (order_perm rows)). exact Hrow. }
  fold selected. rewrite bind_log, say_advance, advance_say.
  change (for_of selected _) with (for_of selected revert_or_abort).
  set (w0 := advance _ 1 [] _ w).
  rewrite (bind_normal _ _ _ _ _ (for_of_reverts selected w0 rows eq_refl Hl HqSel)).
  rewrite bind_log. unfold ret. f_equal.
  rewrite say_advance. unfold w0. rewrite !advance_advance.
  apply advance_eq; reflexivity.
Qed.


Lemma without_all_nil names : without_all names [] = [].
Proof. induction names as [|n names IH]; [reflexivity|exact IH]. Qed.



Lemma applied_list_length {srv : Pg.Server} rows :
  List.length (applied_list rows) = List.length rows.
Proof.
  unfold applied_list. now rewrite length_map, (Permutation_length (order_perm rows)).
Qed.



(** The scenario of the specification: [a], [b], [c] applied in this
    order, [down 2] removes the records of [c] and [b], in this order,
    and leaves [a]. *)
Example rollback_two_of_three :
  let srv := Example.server [] in
  let rows := [Example.row "20240101000000_a" 7; Example.row "20240102000000_b" 8;
               Example.row "20240103000000_c" 9] in
  exists w',
    rollback (Some 2%Z) (Example.world (Example.session (map snd Example.abc) rows) Example.abc)
    = (Normal true, w')
    /\ Pg.ledger (Pg.committed (db w')) = Some [Example.row "20240101000000_a" 7]
    /\ Pg.received (db w')
       = ["BEGIN;"; "DELETE FROM schema_migrations WHERE name = '20240103000000_c';"; "COMMIT;";
          "BEGIN;"; "DELETE FROM schema_migrations WHERE name = '20240102000000_b';"; "COMMIT;"].
Proof. intros srv rows. eexists. split; [vm_compute; reflexivity|]. split; reflexivity. Qed.

(** The parts of [rollback] that hold for [n >= 1]: the records selected
    are the [n] last of the applied list, which is in the order of
    [applied_at], taken from the most recent one down. *)
Lemma migrationsToRollback_recent {A} (n : nat) (applied : list A) :
  1 <= n ->
  rev (Js.slice (Js.neg (Some (Z.of_nat n))) applied)
  = rev (skipn (List.length applied - n) applied).
Proof.
  intros Hn. unfold Js.slice, Js.neg. cbn [option_map].
  destruct (Z.ltb_spec (- Z.of_nat n) 0) as [_|H]; [|lia].
  do 2 f_equal. lia.
Qed.

Lemma insert_row_sorted r rows :
  StronglySorted (fun a b => Pg.applied_at a <= Pg.applied_at b) rows ->
  StronglySorted (fun a b => Pg.applied_at a <= Pg.applied_at b) (Pg.insert_row r rows).
Proof.
  induction 1 as [|r' rows Hs IH Hall]; cbn [Pg.insert_row].
  - repeat constructor.
  - destruct (Nat.leb_spec (Pg.applied_at r) (Pg.applied_at r')) as [Hle|Hgt].
    + constructor; [now constructor|]. constructor; [exact Hle|].
      eapply Forall_impl; [|exact Hall]. cbv beta. intros; lia.
    + constructor; [exact IH|].
      rewrite Forall_forall in *. intros x Hx.
      apply (Permutation_in _ (insert_row_perm r rows)) in Hx.
      destruct Hx as [<-|Hx]; [lia|now apply Hall].
Qed.

Lemma order_sorted rows :
  StronglySorted (fun a b => Pg.applied_at a <= Pg.applied_at b)
                 (Pg.order_by_applied_at rows).
Proof.
  induction rows as [|r rows IH]; cbn [Pg.order_by_applied_at];
    [constructor|now apply insert_row_sorted].
Qed.

(** C6, at an input where a revert fails.  The directory holds
    [20240101000000_a.sql] and [20240102000000_b''s.sql]; [up] applies
    both, and the second is recorded under the name [20240102000000_b's].
    [down 2] then starts with that record: its [DELETE] is refused (the
    quote ends the string constant early), [rollback] does not look at the
    error, writes that the revert succeeded, goes on to revert [a] and
    returns [true].  The record that failed is still in the ledger, the
    older one is gone. *)
Theorem rollback_goes_on_after_failed_delete :
  let srv := Example.server [] in
  let w0 := Example.world Example.fresh
              [("20240101000000_a.sql", "CREATE TABLE a (id int);");
               ("20240102000000_b''s.sql", "CREATE TABLE b (id int);")] in
  let b := {| Applied.name := "20240102000000_b's";
              Applied.filename := "20240102000000_b's.sql";
              Applied.applied_at := Pg.timestamptz_out 6 |} in
  exists w1 w2,
    runPending w0 = (Normal true, w1)
    /\ Pg.ledger (Pg.committed (db w1))
       = Some [ {| Pg.name := "20240101000000_a"; Pg.filename := "20240101000000_a.sql";
                   Pg.applied_at := 2 |};
                {| Pg.name := "20240102000000_b's"; Pg.filename := "20240102000000_b's.sql";
                   Pg.applied_at := 6 |} ]
    /\ Pg.classify (delete_sql b) = Pg.SSyntaxError
    /\ rollback (Some 2%Z) w1 = (Normal true, w2)
    /\ Pg.ledger (Pg.committed (db w2))
       = Some [ {| Pg.name := "20240102000000_b's"; Pg.filename := "20240102000000_b's.sql";
                   Pg.applied_at := 6 |} ]
    /\ skipn (List.length (console w1)) (console w2)
       = [Log_rollback_start (Some 2%Z); Log_will_rollback 2;
          Log_rolling_back "20240102000000_b's.sql";
          Log_manual_rollback "20240102000000_b's.sql";
          Log_rolled_back "20240102000000_b's.sql";
          Log_rolling_back "20240101000000_a.sql";
          Log_manual_rollback "20240101000000_a.sql";
          Log_rolled_back "20240101000000_a.sql";
          Log_rollback_done].
Proof.
  intros srv w0 b. eexists. eexists.
  split; [vm_compute; reflexivity|]. split; [reflexivity|]. split; [reflexivity|].
  split; [vm_compute; reflexivity|]. split; reflexivity.
Qed.

(** ** The session is idle between the calls

    [applyMigration], [runPending] and [rollback] close every transaction
    they open, whatever the statements do: a session that is idle before
    a call is idle after it.  The properties above start from an idle
    session for this reason. *)

Lemma exec_sql_closes {srv : Pg.Server} sql d :
  sql = "COMMIT;" \/ sql = "ROLLBACK;" ->
  Pg.txn (snd (Pg.exec_sql sql d)) = None.
Proof.
  intros [->| ->]; unfold Pg.exec_sql.
  - rewrite classify_commit. destruct (Pg.txn d) eqn:E; cbn; auto.
  - rewrite classify_rollback. reflexivity.
Qed.

Lemma rpc_run {srv : Pg.Server} sql w :
  rpc_exec_sql sql w
  = (Normal {| data := None; error := fst (Pg.exec_sql sql (db w)) |},
     set_db (snd (Pg.exec_sql sql (db w))) w).
Proof. unfold rpc_exec_sql. now destruct (Pg.exec_sql sql (db w)). Qed.

Lemma idle_closed {srv : Pg.Server} sql w :
  sql = "COMMIT;" \/ sql = "ROLLBACK;" ->
  idle (set_db (snd (Pg.exec_sql sql (db w))) w).
Proof. intros H. unfold idle, set_db. cbn [db]. now apply exec_sql_closes. Qed.

Lemma idle_say l w : idle (say l w) <-> idle w.
Proof. reflexivity. Qed.

Lemma readFileSync_world path w r w' : readFileSync path w = (r, w') -> w' = w.
Proof.
  unfold readFileSync. destruct (files w) as [fs|]; [|now intros [= _ <-]].
  destruct (find _ fs) as [f|]; [|now intros [= _ <-]].
  destruct (existsb _ (denied w)); now intros [= _ <-].
Qed.

Lemma getMigrations_world w r w' : getMigrations w = (r, w') -> w' = w.
Proof.
  destruct (files w) as [fs|] eqn:E.
  - rewrite (getMigrations_run w fs E). now intros [= _ <-].
  - rewrite (getMigrations_missing w E). now intros [= _ <-].
Qed.

Lemma getAppliedMigrations_keeps_idle {srv : Pg.Server} w r w' :
  getAppliedMigrations w = (r, w') -> idle w -> idle w'.
Proof.
  rewrite getAppliedMigrations_run. unfold Pg.select_ordered, idle.
  intros H Ht. rewrite Ht in H.
  destruct (Pg.select_fault (db w)) as [e|].
  - destruct (Pg.code e =? "42P01")%string; injection H as _ <-; reflexivity.
  - destruct (Pg.ledger (Pg.committed (db w))); injection H as _ <-; reflexivity.
Qed.

Lemma applyMigration_leaves_idle {srv : Pg.Server} m w r w' :
  applyMigration m w = (r, w') -> idle w -> idle w'.
Proof.
  unfold applyMigration. rewrite bind_log. unfold bind at 1.
  destruct (readFileSync (Migration.path m) (say (Log_applying (Migration.filename m)) w))
    as [[sql|e] w1] eqn:Er; apply readFileSync_world in Er; subst w1.
  2: { intros [= _ <-] H. exact H. }
  intros H _. unfold try_catch in H.
  rewrite (bind_normal _ _ _ _ _ (rpc_run "BEGIN;" _)) in H.
  rewrite (bind_normal _ _ _ _ _ (rpc_run sql _)) in H. cbn [error] in H.
  destruct (fst (Pg.exec_sql sql _)) as [e|].
  - unfold throw in H.
    rewrite (bind_normal _ _ _ _ _ (rpc_run "ROLLBACK;" _)), bind_log in H.
    unfold ret in H. apply (f_equal snd) in H. cbn [snd] in H. subst w'.
    apply idle_say, idle_closed. now right.
  - rewrite (bind_normal _ _ _ _ _ (rpc_run (insert_sql m) _)) in H.
    rewrite (bind_normal _ _ _ _ _ (rpc_run "COMMIT;" _)), bind_log in H.
    unfold ret in H. apply (f_equal snd) in H. cbn [snd] in H. subst w'.
    apply idle_say, idle_closed. now left.
Qed.

Lemma for_of_keeps {A R} (P : World -> Prop) (body : A -> M (option R)) :
  (forall x w r w', body x w = (r, w') -> P w -> P w') ->
  forall xs w r w', for_of xs body w = (r, w') -> P w -> P w'.
Proof.
  intros Hbody. induction xs as [|x xs IH]; intros w r w' H Hw.
  - injection H as _ <-. exact Hw.
  - cbn [for_of] in H. unfold bind in H.
    destruct (body x w) as [[[v|]|e] w1] eqn:E; pose proof (Hbody _ _ _ _ E Hw) as H1.
    + injection H as _ <-. exact H1.
    + exact (IH _ _ _ H H1).
    + injection H as _ <-. exact H1.
Qed.

Lemma apply_or_abort_leaves_idle {srv : Pg.Server} m w r w' :
  apply_or_abort m w = (r, w') -> idle w -> idle w'.
Proof.
  unfold apply_or_abort, bind. intros H Hw.
  destruct (applyMigration m w) as [[[|]|e] w1] eqn:Ea;
    pose proof (applyMigration_leaves_idle _ _ _ _ Ea Hw) as H1;
    injection H as _ <-; exact H1.
Qed.

Lemma runPending_leaves_idle {srv : Pg.Server} w r w' :
  runPending w = (r, w') -> idle w -> idle w'.
Proof.
  unfold runPending. rewrite bind_log. unfold bind at 1. unfold getPendingMigrations.
  unfold bind at 1.
  destruct (getMigrations (say Log_run_start w)) as [[ms|e] w1] eqn:E1;
    apply getMigrations_world in E1; subst w1.
  2: { intros [= _ <-] H. exact H. }
  unfold bind at 1.
  destruct (getAppliedMigrations (say Log_run_start w)) as [[rows|e] w2] eqn:E2;
    intros H Hw; pose proof (getAppliedMigrations_keeps_idle _ _ _ E2 Hw) as H2.
  2: { injection H as _ <-. exact H2. }
  unfold ret at 1 in H.
  destruct (List.length _ =? 0).
  - injection H as _ <-. exact H2.
  - rewrite bind_log in H. unfold bind at 1 in H.
    change (for_of ?l _) with (for_of l apply_or_abort) in H.
    destruct (for_of _ _ _) as [[[v|]|e] w3] eqn:E3;
      (apply (for_of_keeps idle) in E3;
       [|exact apply_or_abort_leaves_idle|exact H2]);
      injection H as _ <-; exact E3.
Qed.

Lemma revert_leaves_idle {srv : Pg.Server} x w r w' :
  revert_or_abort x w = (r, w') -> idle w'.
Proof.
  unfold revert_or_abort. rewrite bind_log. unfold try_catch. intros H.
  rewrite (bind_normal _ _ _ _ _ (rpc_run "BEGIN;" _)) in H.
  rewrite (bind_normal _ _ _ _ _ (rpc_run (delete_sql x) _)), bind_log in H.
  rewrite (bind_normal _ _ _ _ _ (rpc_run "COMMIT;" _)), bind_log in H.
  unfold ret in H. apply (f_equal snd) in H. cbn [snd] in H. subst w'.
    apply idle_say, idle_closed. now left.
Qed.

Lemma rollback_leaves_idle {srv : Pg.Server} steps w r w' :
  rollback steps w = (r, w') -> idle w -> idle w'.
Proof.
  unfold rollback. rewrite bind_log. unfold bind at 1.
  destruct (getAppliedMigrations (say (Log_rollback_start steps) w)) as [[rows|e] w2] eqn:E2;
    intros H Hw; pose proof (getAppliedMigrations_keeps_idle _ _ _ E2 Hw) as H2.
  2: { injection H as _ <-. exact H2. }
  destruct (List.length _ =? 0).
  - injection H as _ <-. exact H2.
  - rewrite bind_log in H. unfold bind at 1 in H.
    change (for_of ?l _) with (for_of l revert_or_abort) in H.
    destruct (for_of _ _ _) as [[[v|]|e] w3] eqn:E3;
      (apply (for_of_keeps idle) in E3;
       [|intros x u ru u' Hu _; exact (revert_leaves_idle _ _ _ _ Hu)|exact H2]);
      injection H as _ <-; exact E3.
Qed.

(** ** What the methods leave as it is *)

Lemma preserves_ret {A} (R : World -> World -> Prop) (a : A) :
  (forall w, R w w) -> preserves R (ret a).
Proof. intros Hrefl w. apply Hrefl. Qed.

Lemma preserves_throw {A} (R : World -> World -> Prop) e :
  (forall w, R w w) -> preserves R (@throw A e).
Proof. intros Hrefl w. apply Hrefl. Qed.

Lemma preserves_bind {A B} (R : World -> World -> Prop) (c : M A) (k : A -> M B) :
  (forall w1 w2 w3, R w1 w2 -> R w2 w3 -> R w1 w3) ->
  preserves R c -> (forall a, preserves R (k a)) -> preserves R (bind c k).
Proof.
  intros Htrans Hc Hk w. unfold bind. specialize (Hc w).
  destruct (c w) as [[a|e] w1]; cbn [snd] in *; [|exact Hc].
  exact (Htrans _ _ _ Hc (Hk a w1)).
Qed.

Lemma preserves_try_catch {A} (R : World -> World -> Prop) (c : M A) (h : Exn -> M A) :
  (forall w1 w2 w3, R w1 w2 -> R w2 w3 -> R w1 w3) ->
  preserves R c -> (forall e, preserves R (h e)) -> preserves R (try_catch c h).
Proof.
  intros Htrans Hc Hh w. unfold try_catch. specialize (Hc w).
  destruct (c w) as [[a|e] w1]; cbn [snd] in *; [exact Hc|].
  exact (Htrans _ _ _ Hc (Hh e w1)).
Qed.

Lemma preserves_for_of {A B} (R : World -> World -> Prop) (body : A -> M (option B)) xs :
  (forall w, R w w) ->
  (forall w1 w2 w3, R w1 w2 -> R w2 w3 -> R w1 w3) ->
  (forall x, preserves R (body x)) -> preserves R (for_of xs body).
Proof.
  intros Hrefl Htrans Hbody. induction xs as [|x xs IH]; cbn [for_of].
  - now apply preserves_ret.
  - apply preserves_bind; [exact Htrans|apply Hbody|].
    intros [v|]; [now apply preserves_ret|exact IH].
Qed.

Lemma only_read_refl w : only_read w w.
Proof. repeat split. Qed.

Lemma only_read_trans w1 w2 w3 : only_read w1 w2 -> only_read w2 w3 -> only_read w1 w3.
Proof.
  intros (A1 & B1 & C1 & D1 & E1) (A2 & B2 & C2 & D2 & E2).
  repeat split; congruence.
Qed.

Lemma only_read_log l : preserves only_read (log l).
Proof. intros w. repeat split. Qed.

Lemma only_read_getMigrations : preserves only_read getMigrations.
Proof.
  intros w. destruct (getMigrations w) as [r w'] eqn:E.
  apply getMigrations_world in E. subst w'. apply only_read_refl.
Qed.

Lemma only_read_getAppliedMigrations {srv : Pg.Server} :
  preserves only_read getAppliedMigrations.
Proof.
  intros w. rewrite getAppliedMigrations_run. unfold Pg.select_ordered.
  destruct (Pg.select_fault (db w)) as [e|] eqn:Ef.
  - destruct (Pg.code e =? "42P01")%string; repeat split; cbn; congruence.
  - destruct (Pg.txn (db w)) as [t|] eqn:Et.
    + destruct (Pg.aborted t); [cbn; repeat split; cbn; congruence|].
      destruct (Pg.ledger (Pg.working t)); cbn; repeat split; cbn; congruence.
    + destruct (Pg.ledger (Pg.committed (db w))); cbn; repeat split; cbn; congruence.
Qed.

Lemma only_read_getPendingMigrations {srv : Pg.Server} :
  preserves only_read getPendingMigrations.
Proof.
  unfold getPendingMigrations.
  apply preserves_bind; [exact only_read_trans|exact only_read_getMigrations|]. intros ms.
  apply preserves_bind; [exact only_read_trans|exact only_read_getAppliedMigrations|]. intros rs.
  apply preserves_ret. exact only_read_refl.
Qed.

Ltac reads :=
  repeat first
    [ exact (only_read_log _)
    | exact only_read_getMigrations
    | exact only_read_getAppliedMigrations
    | exact only_read_getPendingMigrations
    | apply preserves_ret; exact only_read_refl
    | apply preserves_for_of; [exact only_read_refl|exact only_read_trans|intros ?]
    | apply preserves_bind; [exact only_read_trans| |intros ?] ].

(** X1: [status] and [getPendingMigrations] only read.  Whatever the
    session and the directory are, and however they end, they send no
    statement to the database, and the store, the transaction and the
    files are afterwards as they were before. *)
Theorem status_only_reads {srv : Pg.Server} (w : World) :
  only_read w (snd (status w)) /\ only_read w (snd (getPendingMigrations w)).
Proof.
  split; [|apply only_read_getPendingMigrations].
  revert w. change (preserves only_read status). unfold status. reads.
Qed.

(** ** What the methods never do *)

Lemma getAppliedMigrations_returns {srv : Pg.Server} (w : World) :
  exists rows w', getAppliedMigrations w = (Normal rows, w').
Proof.
  rewrite getAppliedMigrations_run.
  destruct (Pg.select_ordered (db w)) as [[[rows|] [e|]] d];
    try destruct (Pg.code e =? "42P01")%string; eexists; eexists; reflexivity.
Qed.

Lemma getAppliedMigrations_lines {srv : Pg.Server} (w : World) :
  exists rows w' lines,
    getAppliedMigrations w = (Normal rows, w')
    /\ console w' = console w ++ lines
    /\ forall l, In l lines -> exists e, l = Warn_get_applied_failed e.
Proof.
  rewrite getAppliedMigrations_run.
  destruct (Pg.select_ordered (db w)) as [[[rows|] [e|]] d];
    try destruct (Pg.code e =? "42P01")%string;
    eexists; eexists;
    first [ exists [Warn_get_applied_failed (PostgrestError e)];
            split; [reflexivity|]; split; [reflexivity|];
            intros l [<-|[]]; eexists; reflexivity
          | exists []; split; [reflexivity|]; split;
            [unfold set_db; cbn [console]; now rewrite app_nil_r|intros l []] ].
Qed.

Lemma revert_or_abort_goes_on {srv : Pg.Server} (x : Applied.t) (w : World) :
  exists w',
    revert_or_abort x w = (Normal None, w')
    /\ console w' = console w ++ revert_lines [x].
Proof.
  unfold revert_or_abort. rewrite bind_log. unfold try_catch.
  rewrite (bind_normal _ _ _ _ _ (rpc_run "BEGIN;" _)).
  rewrite (bind_normal _ _ _ _ _ (rpc_run (delete_sql x) _)), bind_log.
  rewrite (bind_normal _ _ _ _ _ (rpc_run "COMMIT;" _)), bind_log.
  eexists. split; [reflexivity|].
  unfold say, set_db. cbn [console revert_lines]. now rewrite <- !app_assoc.
Qed.

Lemma for_of_reverts_all {srv : Pg.Server} (xs : list Applied.t) :
  forall w, exists w',
    for_of xs revert_or_abort w = (Normal None, w')
    /\ console w' = console w ++ revert_lines xs.
Proof.
  induction xs as [|x xs IH]; intros w; cbn [for_of].
  - exists w. split; [reflexivity|]. cbn [revert_lines]. now rewrite app_nil_r.
  - destruct (revert_or_abort_goes_on x w) as (w1 & E1 & C1).
    rewrite (bind_normal _ _ _ _ _ E1).
    destruct (IH w1) as (w2 & E2 & C2). exists w2. split; [exact E2|].
    rewrite C2, C1. cbn [revert_lines]. now rewrite <- !app_assoc.
Qed.

Lemma revert_lines_quiet rs filename e : ~ In (Error_rollback_failed filename e) (revert_lines rs).
Proof.
  induction rs as [|r rs IH]; cbn [revert_lines]; [intros []|].
  intros [H|[H|[H|H]]]; try discriminate H. now apply IH.
Qed.

(** X2: [rollback] never fails.  For every step count, every session
    and every answer of the database it ends normally and returns [true],
    and it never writes the line of a failed revert: the [error] of the
    responses is not looked at, and the [catch] that returns [false] is
    never entered. *)
Theorem rollback_never_fails {srv : Pg.Server} (steps : Js.int) (w : World) :
  exists w' lines,
    rollback steps w = (Normal true, w')
    /\ console w' = console w ++ lines
    /\ forall filename e, ~ In (Error_rollback_failed filename e) lines.
Proof.
  unfold rollback. rewrite bind_log.
  destruct (getAppliedMigrations_lines (say (Log_rollback_start steps) w))
    as (rows & w1 & l1 & E1 & C1 & Q1).
  rewrite (bind_normal _ _ _ _ _ E1).
  assert (Hq1 : forall filename e, ~ In (Error_rollback_failed filename e) l1).
  { intros f e Hin. destruct (Q1 _ Hin) as (e' & He'). discriminate He'. }
  destruct (List.length rows =? 0).
  - rewrite bind_log. eexists. exists ([Log_rollback_start steps] ++ l1 ++ [Log_nothing_to_rollback]).
    split; [reflexivity|]. split.
    + cbn [say console]. rewrite C1. cbn [say console]. now rewrite <- !app_assoc.
    + intros f e Hin. apply in_app_or in Hin as [[H|[]]|Hin]; [discriminate H|].
      apply in_app_or in Hin as [Hin|[H|[]]]; [now apply (Hq1 f e)|discriminate H].
  - rewrite bind_log.
    change (for_of ?l _) with (for_of l revert_or_abort).
    destruct (for_of_reverts_all (migrationsToRollback steps rows)
                (say (Log_will_rollback (List.length (migrationsToRollback steps rows))) w1))
      as (w2 & E2 & C2).
    rewrite (bind_normal _ _ _ _ _ E2), bind_log.
    eexists.
    exists ([Log_rollback_start steps] ++ l1
            ++ [Log_will_rollback (List.length (migrationsToRollback steps rows))]
            ++ revert_lines (migrationsToRollback steps rows) ++ [Log_rollback_done]).
    split; [reflexivity|]. split.
    + cbn [say console]. rewrite C2. cbn [say console]. rewrite C1. cbn [say console].
      now rewrite <- !app_assoc.
    + intros f e Hin. apply in_app_or in Hin as [[H|[]]|Hin]; [discriminate H|].
      apply in_app_or in Hin as [Hin|Hin]; [now apply (Hq1 f e)|].
      apply in_app_or in Hin as [[H|[]]|Hin]; [discriminate H|].
      apply in_app_or in Hin as [Hin|[H|[]]]; [exact (revert_lines_quiet _ f e Hin)|discriminate H].
Qed.

Lemma find_exists {A} (f : A -> bool) (l : list A) (x : A) :
  In x l -> f x = true -> exists y, find f l = Some y.
Proof.
  intros Hin Hf. destruct (find f l) as [y|] eqn:E; [now exists y|].
  rewrite (find_none f l E x Hin) in Hf. discriminate Hf.
Qed.

(** The file [readFileSync] finds at the path of a file of the
    directory has the name of that file. *)
Lemma find_at_path (w : World) (fs : list (string * string)) (file : string) :
  In file (map fst fs) ->
  exists y,
    find (fun f => (join (migrationsDir w) (fst f) =? join (migrationsDir w) file)%string) fs
    = Some y
    /\ fst y = file.
Proof.
  intros Hin. apply in_map_iff in Hin as (f & Hf & Hin).
  destruct (find_exists
              (fun f => (join (migrationsDir w) (fst f) =? join (migrationsDir w) file)%string)
              fs f Hin) as (y & Hy).
  { rewrite Hf. apply String.eqb_refl. }
  exists y. split; [exact Hy|].
  apply find_some in Hy as [_ Hy]. apply String.eqb_eq in Hy.
  unfold join in Hy. apply append_inv_head in Hy. now apply append_inv_head in Hy.
Qed.

(** [applyMigration] returns when the file of the migration is in the
    directory and can be read, and leaves the directory as it is. *)
Lemma applyMigration_returns {srv : Pg.Server} (m : Migration.t) (w : World) fs file :
  files w = Some fs -> In file (map fst fs) ->
  existsb (String.eqb file) (denied w) = false ->
  Migration.path m = join (migrationsDir w) file ->
  exists ok w',
    applyMigration m w = (Normal ok, w')
    /\ files w' = files w /\ cwd w' = cwd w /\ denied w' = denied w.
Proof.
  intros Hfs Hin Hread Hpath. unfold applyMigration. rewrite bind_log.
  assert (Hsql : exists sql,
            readFileSync (Migration.path m) (say (Log_applying (Migration.filename m)) w)
            = (Normal sql, say (Log_applying (Migration.filename m)) w)).
  { unfold readFileSync. cbn [say files denied]. rewrite Hfs, Hpath.
    destruct (find_at_path w fs file Hin) as (y & Hy & Hname).
    change (migrationsDir (say (Log_applying (Migration.filename m)) w))
      with (migrationsDir w).
    rewrite Hy, Hname, Hread. eexists. reflexivity. }
  destruct Hsql as (sql & Hsql). rewrite (bind_normal _ _ _ _ _ Hsql).
  unfold try_catch.
  rewrite (bind_normal _ _ _ _ _ (rpc_run "BEGIN;" _)).
  rewrite (bind_normal _ _ _ _ _ (rpc_run sql _)). cbn [error].
  destruct (fst (Pg.exec_sql sql _)) as [e|].
  - unfold throw.
    rewrite (bind_normal _ _ _ _ _ (rpc_run "ROLLBACK;" _)), bind_log.
    eexists. eexists. split; [reflexivity|]. repeat split.
  - rewrite (bind_normal _ _ _ _ _ (rpc_run (insert_sql m) _)).
    rewrite (bind_normal _ _ _ _ _ (rpc_run "COMMIT;" _)), bind_log.
    eexists. eexists. split; [reflexivity|]. repeat split.
Qed.

(** [applyMigration] throws when the process may not read the file of the
    migration: [readFileSync] is called before the [try], so nothing is
    sent to the database and nothing catches the exception. *)
Lemma applyMigration_denied {srv : Pg.Server} (m : Migration.t) (w : World) fs file :
  files w = Some fs -> In file (map fst fs) ->
  existsb (String.eqb file) (denied w) = true ->
  Migration.path m = join (migrationsDir w) file ->
  applyMigration m w
  = (Throw (EACCES (Migration.path m)), say (Log_applying (Migration.filename m)) w).
Proof.
  intros Hfs Hin Hread Hpath. unfold applyMigration. rewrite bind_log.
  unfold bind, readFileSync. cbn [say files denied]. rewrite Hfs, Hpath.
  destruct (find_at_path w fs file Hin) as (y & Hy & Hname).
  change (migrationsDir (say (Log_applying (Migration.filename m)) w))
    with (migrationsDir w).
  now rewrite Hy, Hname, Hread.
Qed.

Lemma getAppliedMigrations_denied {srv : Pg.Server} (w : World) :
  denied (snd (getAppliedMigrations w)) = denied w.
Proof.
  rewrite getAppliedMigrations_run.
  destruct (Pg.select_ordered (db w)) as [[[rows|] [e|]] d];
    try destruct (Pg.code e =? "42P01")%string; reflexivity.
Qed.

Lemma for_of_returns {A R} (Q : World -> Prop) (body : A -> M (option R)) (xs : list A) :
  (forall x, In x xs -> forall w, Q w -> exists r w', body x w = (Normal r, w') /\ Q w') ->
  forall w, Q w -> exists r w', for_of xs body w = (Normal r, w') /\ Q w'.
Proof.
  induction xs as [|x xs IH]; intros Hbody w Hw; cbn [for_of].
  - exists None, w. split; [reflexivity|exact Hw].
  - destruct (Hbody x (or_introl eq_refl) w Hw) as (r & w1 & E1 & H1).
    rewrite (bind_normal _ _ _ _ _ E1). destruct r as [v|].
    + exists (Some v), w1. split; [reflexivity|exact H1].
    + apply IH; [|exact H1]. intros y Hy. apply Hbody. now right.
Qed.

(** [runPending] returns when the migrations directory exists and its
    [.sql] files can be read. *)
Lemma runPending_returns {srv : Pg.Server} (w : World) fs :
  files w = Some fs -> readable w fs -> exists ok w', runPending w = (Normal ok, w').
Proof.
  intros Hfs Hreadable. unfold runPending. rewrite bind_log.
  set (w0 := say Log_run_start w).
  destruct (getAppliedMigrations_returns w0) as (rows & w1 & E1).
  pose proof (only_read_getAppliedMigrations w0) as Hr. rewrite E1 in Hr.
  destruct Hr as (_ & _ & _ & Hfiles & Hcwd). cbn [snd] in Hfiles, Hcwd.
  pose proof (getAppliedMigrations_denied w0) as Hdenied. rewrite E1 in Hdenied.
  cbn [snd] in Hdenied.
  assert (Ep : exists pending,
            getPendingMigrations w0 = (Normal pending, w1)
            /\ forall m, In m pending -> In m (catalog w0 fs)).
  { unfold getPendingMigrations.
    rewrite (bind_normal _ _ _ _ _ (getMigrations_run w0 fs Hfs)).
    rewrite (bind_normal _ _ _ _ _ E1). eexists. split; [reflexivity|].
    intros m Hm. apply filter_In in Hm as [Hm _]. exact Hm. }
  destruct Ep as (pending & Ep & Hcat).
  rewrite (bind_normal _ _ _ _ _ Ep).
  destruct (List.length pending =? 0).
  - rewrite bind_log. eexists. eexists. reflexivity.
  - rewrite bind_log.
    change (for_of pending _) with (for_of pending apply_or_abort).
    destruct (for_of_returns
                (fun u => files u = Some fs /\ cwd u = cwd w0 /\ denied u = denied w0)
                apply_or_abort pending) with (w := say (Log_found_pending (List.length pending)) w1)
      as (r & w2 & E2 & _).
    + intros m Hm u (Hfu & Hcu & Hdu).
      apply Hcat in Hm. unfold catalog in Hm.
      apply in_map_iff in Hm as (file & <- & Hfile).
      apply (Permutation_in _ (sort_perm _)), filter_In in Hfile as [Hfile Hsql].
      destruct (applyMigration_returns (entry w0 file) u fs file Hfu Hfile)
        as (ok & u' & Ea & Hfu' & Hcu' & Hdu').
      { rewrite Hdu. exact (Hreadable file Hfile Hsql). }
      { unfold entry, migrationsDir. cbn [Migration.path]. now rewrite Hcu. }
      unfold apply_or_abort. rewrite (bind_normal _ _ _ _ _ Ea).
      destruct ok; cbn [negb].
      * exists None, u'. split; [reflexivity|]. repeat split; congruence.
      * rewrite bind_log. eexists. eexists. split; [reflexivity|].
        cbn [say files cwd denied]. repeat split; congruence.
    + cbn [say files cwd denied]. split; [rewrite Hfiles; exact Hfs|]. split; [exact Hcwd|exact Hdenied].
    + rewrite (bind_normal _ _ _ _ _ E2). destruct r as [v|].
      * eexists. eexists. reflexivity.
      * rewrite bind_log. eexists. eexists. reflexivity.
Qed.

(** ** [main] *)

Lemma constructor_run (p : Process) : configured p -> constructor p = (Done tt, p).
Proof. intros [Hu Hk]. unfold constructor. now rewrite Hu, Hk. Qed.

Lemma andThen_done {A B} (c : Proc A) (k : A -> Proc B) p a p' :
  c p = (Done a, p') -> andThen c k p = k a p'.
Proof. unfold andThen. now intros ->. Qed.

Lemma call_normal {A} (c : M A) (p : Process) a w' :
  c (world p) = (Normal a, w') -> call c p = (Done a, moved w' p).
Proof. unfold call. now intros ->. Qed.

Lemma call_throw {A} (c : M A) (p : Process) e w' :
  c (world p) = (Throw e, w') -> call c p = (Failed (Raised e), moved w' p).
Proof. unfold call. now intros ->. Qed.

(** X3: the command [up] ends normally when the migrations directory
    exists and the process may read its [.sql] files, whether
    [runPending] returns [true] or [false] and whatever follows [up] on
    the command line: the step count is read and not used, the result of
    [runPending] is dropped, and [process.exit(1)] is not reached, so a
    migration whose SQL fails does not make the process fail. *)
Theorem main_up_ends_normally {srv : Pg.Server}
    (p : Process) (rest : list string) (fs : list (string * string)) :
  configured p ->
  args_of p = "up" :: rest ->
  files (world p) = Some fs ->
  readable (world p) fs ->
  exists ok w',
    runPending (world p) = (Normal ok, w')
    /\ main p = (Done tt, moved w' p).
Proof.
  intros Hc Hargs Hfs Hread.
  destruct (runPending_returns (world p) fs Hfs Hread) as (ok & w' & E).
  exists ok, w'. split; [exact E|].
  unfold main. change (Js.slice (Some 2%Z) (argv p)) with (args_of p). rewrite Hargs.
  cbn [nth_error falsy].
  change ("up" =? "")%string with false. cbv iota.
  rewrite (andThen_done _ _ _ _ _ (constructor_run p Hc)).
  change ("up" =? "init")%string with false.
  change ("up" =? "up")%string with true. cbv iota.
  unfold attempt. rewrite (andThen_done _ _ _ _ _ (call_normal runPending p ok w' E)).
  reflexivity.
Qed.

Lemma main_up_ends_normally_witness :
  let srv := Example.server ["CREATE TABLE b (id int);"] in
  let p := Example.process ["up"; "1"]
             (Example.locked ["notes.txt"]
                (Example.world Example.fresh (("notes.txt", "") :: Example.abc))) in
  exists ok w',
    runPending (world p) = (Normal ok, w')
    /\ main p = (Done tt, moved w' p).
Proof.
  intros srv p.
  apply (@main_up_ends_normally srv p ["1"] (("notes.txt", "") :: Example.abc));
    [split; reflexivity|reflexivity|reflexivity|].
  intros file [<-|[<-|[<-|[<-|[]]]]] Hsql; try reflexivity; discriminate Hsql.
Defined.

(** A file that cannot be read does make the process fail:
    [readFileSync] is called before the [try] of [applyMigration], the
    exception reaches the [catch] of [main], and what was applied before
    stays applied. *)
Example main_up_file_not_readable :
  let srv := Example.server [] in
  let w := Example.locked ["20240102000000_b.sql"]
             (Example.world Example.fresh Example.abc) in
  exists p',
    main (Example.process ["up"] w) = (Exit 1, p')
    /\ output p'
       = map Of_class
           [Log_run_start; Log_found_pending 3;
            Log_applying "20240101000000_a.sql"; Log_applied "20240101000000_a.sql";
            Log_applying "20240102000000_b.sql"]
         ++ [Error_failed (Raised (EACCES "/app/supabase/migrations/20240102000000_b.sql"))]
    /\ Pg.committed (db (world p'))
       = {| Pg.schema := [Pg.Applied "CREATE TABLE a (id int);"];
            Pg.ledger := Some [ {| Pg.name := "20240101000000_a";
                                   Pg.filename := "20240101000000_a.sql";
                                   Pg.applied_at := 2 |} ] |}
    /\ Pg.txn (db (world p')) = None.
Proof. intros srv w. eexists. split; [vm_compute; reflexivity|]. repeat split. Qed.

(** [up 1] on the catalog [a], [b], [c] when the SQL of [b] fails: [a]
    is applied, and not only [a] is tried; the run is aborted and [main]
    ends normally. *)
Example main_up_one_with_failure :
  let srv := Example.server ["CREATE TABLE b (id int);"] in
  exists p',
    main (Example.process ["up"; "1"] (Example.world Example.fresh Example.abc)) = (Done tt, p')
    /\ output p'
       = map Of_class
           [Log_run_start; Log_found_pending 3;
            Log_applying "20240101000000_a.sql"; Log_applied "20240101000000_a.sql";
            Log_applying "20240102000000_b.sql";
            Error_apply_failed "20240102000000_b.sql" (PostgrestError Example.relation_exists);
            Log_run_aborted].
Proof. intros srv. eexists. split; [vm_compute; reflexivity|reflexivity]. Qed.

Lemma skipn_exact {A} (a b : list A) : skipn (List.length a) (a ++ b) = b.
Proof. induction a as [|x a IH]; [reflexivity|exact IH]. Qed.

Lemma added_nothing w w' : console w' = console w -> added w w' = [].
Proof.
  intros H. unfold added. rewrite H.
  pose proof (skipn_exact (console w) []) as E. now rewrite app_nil_r in E.
Qed.

Lemma added_lines w w' lines : console w' = console w ++ lines -> added w w' = lines.
Proof. intros H. unfold added. rewrite H. apply skipn_exact. Qed.

Lemma moved_nowhere (p : Process) w' :
  console w' = console (world p) ->
  moved w' p = {| argv := argv p; env := env p; world := w'; output := output p |}.
Proof. intros H. unfold moved. rewrite (added_nothing _ _ H). cbn [map]. now rewrite app_nil_r. Qed.

Lemma puts_nil (p : Process) : puts [] p = p.
Proof. destruct p. unfold puts. cbn. now rewrite app_nil_r. Qed.

Lemma puts_put o os p : puts os (put o p) = puts (o :: os) p.
Proof. unfold puts, put. cbn [argv env world output]. now rewrite <- app_assoc. Qed.

Lemma prints_run os : forall p, prints os p = (Done tt, puts os p).
Proof.
  induction os as [|o os IH]; intros p; cbn [prints].
  - unfold pure. now rewrite puts_nil.
  - unfold andThen, print. now rewrite IH, puts_put.
Qed.

(** X4: the configuration is checked before the command is looked at.
    Without a command, [main] writes its help and ends, with or without
    configuration.  With any command, known or not, and also with [fresh]
    or [create], which do not reach the database, a process that lacks one
    of the two variables is rejected by the constructor: nothing is
    written, nothing is done, and the error does not go through the
    [catch] of [main], so [process.exit(1)] is not called. *)
Theorem main_requires_configuration {srv : Pg.Server} (p : Process) :
  (falsy (nth_error (args_of p) 0) = true ->
   main p = (Done tt, puts (map Log_usage usage) p))
  /\ (falsy (nth_error (args_of p) 0) = false -> ~ configured p ->
      main p = (Failed ConfigMissing, p)).
Proof.
  unfold main. change (Js.slice (Some 2%Z) (argv p)) with (args_of p). split.
  - intros ->. apply prints_run.
  - intros -> Hn. unfold andThen, constructor.
    destruct (falsy (env p "NEXT_PUBLIC_SUPABASE_URL")) eqn:Hu; [reflexivity|].
    destruct (falsy (env p "SUPABASE_SERVICE_ROLE_KEY")) eqn:Hk; [reflexivity|].
    exfalso. apply Hn. now split.
Qed.

Lemma main_requires_configuration_witness :
  let srv := Example.server [] in
  let w := Example.world Example.fresh Example.abc in
  let help := {| argv := ["node"; "scripts/migrate.js"]; env := fun _ => None;
                 world := w; output := [] |} in
  let fresh := {| argv := ["node"; "scripts/migrate.js"; "fresh"]; env := Example.no_key;
                  world := w; output := [] |} in
  main help = (Done tt, puts (map Log_usage usage) help)
  /\ main fresh = (Failed ConfigMissing, fresh).
Proof.
  intros srv w help fresh. split.
  - apply (@main_requires_configuration srv help). reflexivity.
  - apply (@main_requires_configuration srv fresh); [reflexivity|].
    intros [_ H]. discriminate H.
Defined.

Lemma moved_same (p : Process) : moved (world p) p = p.
Proof. rewrite (moved_nowhere p (world p) eq_refl). now destruct p. Qed.

Lemma main_run {srv : Pg.Server} (p : Process) command rest :
  configured p -> args_of p = command :: rest -> command <> EmptyString ->
  main p
  = attempt
      (if (command =? "init")%string then init
       else if (command =? "up")%string then
         andThen (call runPending) (fun _ => pure tt)
       else if (command =? "down")%string then
         andThen (call (down (nth_error rest 0))) (fun _ => pure tt)
       else if (command =? "status")%string then call status
       else if (command =? "create")%string then call (create (nth_error rest 0))
       else if (command =? "fresh")%string then
         andThen (print Log_fresh_warning) (fun _ => print Log_fresh_backup)
       else print (Error_unknown_command command))
      (fun error => andThen (print (Error_failed error)) (fun _ => exit 1)) p.
Proof.
  intros Hc Hargs Hne. unfold main.
  change (Js.slice (Some 2%Z) (argv p)) with (args_of p). rewrite Hargs.
  cbn [nth_error falsy]. apply String.eqb_neq in Hne. rewrite Hne.
  now rewrite (andThen_done _ _ _ _ _ (constructor_run p Hc)).
Qed.

(** X5: [fresh] and a command that [main] does not know end normally
    and change nothing: [fresh] writes its two warnings and resets
    nothing, and an unknown command is named on the console; neither
    reaches the database, the directory or [process.exit(1)]. *)
Theorem main_fresh_and_unknown_do_nothing {srv : Pg.Server}
    (p : Process) (command : string) (rest : list string) :
  configured p ->
  args_of p = command :: rest ->
  command <> EmptyString ->
  (command = "fresh" -> main p = (Done tt, puts [Log_fresh_warning; Log_fresh_backup] p))
  /\ (known_command command = false ->
      main p = (Done tt, put (Error_unknown_command command) p)).
Proof.
  intros Hc Hargs Hne. rewrite (main_run p command rest Hc Hargs Hne). split.
  - intros ->. unfold attempt, andThen, print. cbn [String.eqb Ascii.eqb Bool.eqb].
    unfold put, puts. cbn [argv env world output]. now rewrite <- app_assoc.
  - unfold known_command. cbn [existsb]. rewrite !orb_false_iff.
    intros (H1 & H2 & H3 & H4 & H5 & H6 & _).
    now rewrite H1, H2, H3, H4, H5, H6.
Qed.

Lemma main_fresh_and_unknown_do_nothing_witness :
  let srv := Example.server [] in
  let w := Example.world Example.fresh Example.abc in
  main (Example.process ["fresh"] w)
  = (Done tt, puts [Log_fresh_warning; Log_fresh_backup] (Example.process ["fresh"] w))
  /\ main (Example.process ["reset"; "now"] w)
     = (Done tt, put (Error_unknown_command "reset") (Example.process ["reset"; "now"] w)).
Proof.
  intros srv w. split.
  - apply (@main_fresh_and_unknown_do_nothing srv (Example.process ["fresh"] w) "fresh" []);
      [split; reflexivity|reflexivity|discriminate|reflexivity].
  - apply (@main_fresh_and_unknown_do_nothing srv (Example.process ["reset"; "now"] w)
             "reset" ["now"]);
      [split; reflexivity|reflexivity|discriminate|reflexivity].
Defined.

(** X6: [create] without a name, or with an empty one, makes the process
    end with the code 1: the exception of [create] is caught by [main],
    which writes it and calls [process.exit(1)]; no file is written and
    the clock is not read. *)
Theorem main_create_without_name {srv : Pg.Server} (p : Process) (rest : list string) :
  configured p ->
  args_of p = "create" :: rest ->
  falsy (nth_error rest 0) = true ->
  main p = (Exit 1, put (Error_failed (Raised MigrationNameRequired)) p).
Proof.
  intros Hc Hargs Hname. rewrite (main_run p "create" rest Hc Hargs ltac:(discriminate)).
  cbn [String.eqb Ascii.eqb Bool.eqb]. unfold attempt.
  assert (E : create (nth_error rest 0) (world p) = (Throw MigrationNameRequired, world p)).
  { destruct (nth_error rest 0) as [name|]; [|reflexivity].
    cbn [falsy] in Hname. unfold create. now rewrite Hname. }
  rewrite (call_throw _ _ _ _ E), moved_same. reflexivity.
Qed.

Lemma main_create_without_name_witness :
  let srv := Example.server [] in
  let p := Example.process ["create"] (Example.world Example.fresh Example.abc) in
  main p = (Exit 1, put (Error_failed (Raised MigrationNameRequired)) p).
Proof.
  intros srv p.
  apply (@main_create_without_name srv p []); [split; reflexivity|reflexivity|reflexivity].
Defined.

Lemma rollback_returns {srv : Pg.Server} (steps : Js.int) (w : World) :
  exists w', rollback steps w = (Normal true, w').
Proof.
  unfold rollback. rewrite bind_log.
  destruct (getAppliedMigrations_returns (say (Log_rollback_start steps) w)) as (rows & w1 & E1).
  rewrite (bind_normal _ _ _ _ _ E1).
  destruct (List.length rows =? 0).
  - rewrite bind_log. eexists. reflexivity.
  - rewrite bind_log. change (for_of ?l _) with (for_of l revert_or_abort).
    destruct (for_of_reverts_all (migrationsToRollback steps rows)
                (say (Log_will_rollback (List.length (migrationsToRollback steps rows))) w1))
      as (w2 & E2 & _).
    rewrite (bind_normal _ _ _ _ _ E2), bind_log. eexists. reflexivity.
Qed.

Lemma runPending_missing {srv : Pg.Server} (w : World) :
  files w = None ->
  runPending w = (Throw (MigrationsDirMissing (migrationsDir w)), say Log_run_start w).
Proof.
  intros H. unfold runPending. rewrite bind_log.
  apply bind_throw. unfold getPendingMigrations. apply bind_throw.
  exact (getMigrations_missing (say Log_run_start w) H).
Qed.

Lemma status_missing {srv : Pg.Server} (w : World) :
  files w = None ->
  status w = (Throw (MigrationsDirMissing (migrationsDir w)), say Log_status_title w).
Proof.
  intros H. unfold status. rewrite bind_log. apply bind_throw.
  exact (getMigrations_missing (say Log_status_title w) H).
Qed.

Lemma added_say w l : added w (say l w) = [l].
Proof. now apply added_lines. Qed.

(** X7: when the migrations directory does not exist, [up] and [status]
    end the process with the code 1 before the database is reached:
    [getMigrations] throws after the first line of the method, nothing
    catches the exception before [main], and no round trip is made.
    [down] does not read the directory and ends normally. *)
Theorem main_without_directory {srv : Pg.Server} (p : Process) (rest : list string) :
  configured p ->
  files (world p) = None ->
  let missing := Error_failed (Raised (MigrationsDirMissing (migrationsDir (world p)))) in
  (args_of p = "up" :: rest ->
   exists p', main p = (Exit 1, p')
              /\ db (world p') = db (world p)
              /\ output p' = output p ++ [Of_class Log_run_start; missing])
  /\ (args_of p = "status" :: rest ->
      exists p', main p = (Exit 1, p')
                 /\ db (world p') = db (world p)
                 /\ output p' = output p ++ [Of_class Log_status_title; missing])
  /\ (args_of p = "down" :: rest ->
      exists p', main p = (Done tt, p')).
Proof.
  intros Hc Hfs missing. split; [|split]; intros Hargs.
  - rewrite (main_run p "up" rest Hc Hargs ltac:(discriminate)).
    cbn [String.eqb Ascii.eqb Bool.eqb]. unfold attempt, andThen at 1.
    rewrite (call_throw _ _ _ _ (runPending_missing (world p) Hfs)).
    eexists. split; [reflexivity|]. split; [reflexivity|].
    unfold put, moved. cbn [output]. rewrite added_say. cbn [map].
    now rewrite <- app_assoc.
  - rewrite (main_run p "status" rest Hc Hargs ltac:(discriminate)).
    cbn [String.eqb Ascii.eqb Bool.eqb]. unfold attempt.
    rewrite (call_throw _ _ _ _ (status_missing (world p) Hfs)).
    eexists. split; [reflexivity|]. split; [reflexivity|].
    unfold put, moved. cbn [output]. rewrite added_say. cbn [map].
    now rewrite <- app_assoc.
  - rewrite (main_run p "down" rest Hc Hargs ltac:(discriminate)).
    cbn [String.eqb Ascii.eqb Bool.eqb]. unfold attempt, andThen at 1.
    unfold down.
    match goal with |- context [call (rollback ?s)] =>
      destruct (rollback_returns s (world p)) as (w' & E) end.
    rewrite (call_normal _ _ _ _ E). eexists. reflexivity.
Qed.

Lemma main_without_directory_witness :
  let srv := Example.server [] in
  let w := {| db := Example.fresh; cwd := "/app"; files := None; denied := [];
              clock := fun k => Example.date 5 (100 + k); ticks := 0; console := [] |} in
  let missing := Error_failed (Raised (MigrationsDirMissing "/app/supabase/migrations")) in
  (exists p', main (Example.process ["up"] w) = (Exit 1, p')
              /\ db (world p') = Example.fresh
              /\ output p' = [Of_class Log_run_start; missing])
  /\ (exists p', main (Example.process ["status"] w) = (Exit 1, p')
                 /\ db (world p') = Example.fresh
                 /\ output p' = [Of_class Log_status_title; missing])
  /\ (exists p', main (Example.process ["down"] w) = (Done tt, p')).
Proof.
  intros srv w missing. split; [|split].
  - apply (@main_without_directory srv (Example.process ["up"] w) []);
      [split; reflexivity|reflexivity|reflexivity].
  - apply (@main_without_directory srv (Example.process ["status"] w) []);
      [split; reflexivity|reflexivity|reflexivity].
  - apply (@main_without_directory srv (Example.process ["down"] w) []);
      [split; reflexivity|reflexivity|reflexivity].
Defined.

(** ** [init] *)

(** Every statement sent is received, once. *)
Lemma exec_sql_received {srv : Pg.Server} (sql : string) (d : Pg.Session) :
  Pg.received (snd (Pg.exec_sql sql d)) = Pg.received d ++ [sql].
Proof.
  unfold Pg.exec_sql.
  destruct (Pg.classify sql); destruct (Pg.txn d) as [t|];
    try destruct (Pg.aborted t); try reflexivity;
    match goal with |- context [Pg.run ?n ?s ?st] => destruct (Pg.run n s st) end;
    reflexivity.
Qed.

(** X8: [init] sends its one statement as it is, outside any
    transaction of its own, and it is the only method that lets the error
    of the database out: when the statement is refused, [init] writes the
    error and throws it again, [main] writes it a second time and ends
    the process with the code 1; otherwise [main] ends normally. *)
Theorem main_init {srv : Pg.Server} (p : Process) (rest : list string) :
  configured p ->
  args_of p = "init" :: rest ->
  let answer := Pg.exec_sql createMigrationsTable (db (world p)) in
  exists p',
    main p = (match fst answer with None => Done tt | Some _ => Exit 1 end, p')
    /\ Pg.received (db (world p')) = Pg.received (db (world p)) ++ [createMigrationsTable]
    /\ output p'
       = output p
         ++ Log_init_start
            :: match fst answer with
               | None => [Log_init_done]
               | Some e => [Error_init_failed (Raised (PostgrestError e));
                            Error_failed (Raised (PostgrestError e))]
               end.
Proof.
  intros Hc Hargs answer.
  rewrite (main_run p "init" rest Hc Hargs ltac:(discriminate)).
  cbn [String.eqb Ascii.eqb Bool.eqb].
  unfold init, attempt, andThen at 1, print at 1.
  unfold andThen at 1.
  rewrite (call_normal _ _ _ _ (rpc_run createMigrationsTable (world (put Log_init_start p)))).
  cbn [error put world]. fold answer.
  rewrite moved_nowhere by reflexivity. cbn [argv env world output].
  destruct (fst answer) as [e|].
  - eexists. split; [reflexivity|]. cbn [world output put].
    split; [apply exec_sql_received|]. now rewrite <- !app_assoc.
  - eexists. split; [reflexivity|]. cbn [world output put].
    split; [apply exec_sql_received|]. now rewrite <- !app_assoc.
Qed.

Lemma main_init_witness :
  let srv := Example.server [] in
  let p := Example.process ["init"] (Example.world Example.bootstrap Example.abc) in
  let answer := Pg.exec_sql createMigrationsTable (db (world p)) in
  exists p',
    main p = (match fst answer with None => Done tt | Some _ => Exit 1 end, p')
    /\ Pg.received (db (world p')) = Pg.received (db (world p)) ++ [createMigrationsTable]
    /\ output p'
       = output p
         ++ Log_init_start
            :: match fst answer with
               | None => [Log_init_done]
               | Some e => [Error_init_failed (Raised (PostgrestError e));
                            Error_failed (Raised (PostgrestError e))]
               end.
Proof.
  intros srv p.
  apply (@main_init srv p []); [split; reflexivity|reflexivity].
Defined.

(** [init] when the database refuses the statement. *)
Example main_init_refused :
  let srv := Example.server [createMigrationsTable] in
  exists p',
    main (Example.process ["init"] (Example.world Example.bootstrap Example.abc)) = (Exit 1, p')
    /\ output p'
       = [Log_init_start;
          Error_init_failed (Raised (PostgrestError Example.relation_exists));
          Error_failed (Raised (PostgrestError Example.relation_exists))]
    /\ Pg.received (db (world p')) = [createMigrationsTable]
    /\ Pg.committed (db (world p')) = Pg.committed Example.bootstrap.
Proof. intros srv. eexists. split; [vm_compute; reflexivity|]. repeat split. Qed.

(** [init] before [up]: [init] creates the ledger table, and [up] then
    records what it applies.  [init] on a ledger that exists keeps its
    records. *)
Example main_init_then_up :
  let srv := Example.server [] in
  exists p1 p2 p3,
    main (Example.process ["init"] (Example.world Example.bootstrap Example.abc)) = (Done tt, p1)
    /\ Pg.committed (db (world p1)) = {| Pg.schema := []; Pg.ledger := Some [] |}
    /\ main (Example.process ["up"] (world p1)) = (Done tt, p2)
    /\ option_map (map Pg.name) (Pg.ledger (Pg.committed (db (world p2))))
       = Some ["20240101000000_a"; "20240102000000_b"; "20240103000000_c"]
    /\ main (Example.process ["init"] (world p2)) = (Done tt, p3)
    /\ Pg.committed (db (world p3)) = Pg.committed (db (world p2)).
Proof.
  intros srv. eexists. eexists. eexists.
  split; [vm_compute; reflexivity|]. split; [reflexivity|].
  split; [vm_compute; reflexivity|]. split; [reflexivity|].
  split; [vm_compute; reflexivity|]. reflexivity.
Qed.

(** X9: every transaction that is opened is closed.  From a session
    without an open transaction, [applyMigration], [runPending] and
    [rollback] end on a session without an open transaction, whatever
    the statements do and however the method ends: after a body that
    fails, after a record that is refused, after an exception. *)
Theorem transactions_are_closed {srv : Pg.Server} (w : World) :
  idle w ->
  (forall m, idle (snd (applyMigration m w)))
  /\ idle (snd (runPending w))
  /\ (forall steps, idle (snd (rollback steps w))).
Proof.
  intros Hw. split; [|split].
  - intros m. destruct (applyMigration m w) as [r w'] eqn:E.
    exact (applyMigration_leaves_idle m w r w' E Hw).
  - destruct (runPending w) as [r w'] eqn:E.
    exact (runPending_leaves_idle w r w' E Hw).
  - intros steps. destruct (rollback steps w) as [r w'] eqn:E.
    exact (rollback_leaves_idle steps w r w' E Hw).
Qed.

Lemma transactions_are_closed_witness :
  let srv := Example.server ["CREATE TABLE b (id int);"] in
  let w := Example.world Example.fresh Example.abc in
  (forall m, idle (snd (applyMigration m w)))
  /\ idle (snd (runPending w))
  /\ (forall steps, idle (snd (rollback steps w))).
Proof.
  intros srv w. apply (@transactions_are_closed srv w). reflexivity.
Defined.

(** ** [runPending] when every migration succeeds *)

Lemma runPending_nothing_pending {srv : Pg.Server} (w : World) fs rows :
  files w = Some fs ->
  Pg.txn (db w) = None ->
  Pg.select_fault (db w) = None ->
  Pg.ledger (Pg.committed (db w)) = Some rows ->
  pending_of w fs rows = [] ->
  runPending w
  = (Normal true, advance (Pg.committed (db w)) 1 [] [Log_run_start; Log_no_pending] w).
Proof.
  intros Hfs Ht Hf Hl Hp. unfold runPending. rewrite bind_log.
  rewrite (bind_normal _ _ _ _ _
             (getPendingMigrations_run (say Log_run_start w) fs rows Hfs Ht Hf Hl)).
  change (pending_of (say Log_run_start w) fs rows) with (pending_of w fs rows).
  rewrite Hp. cbn [List.length Nat.eqb]. rewrite bind_log, say_advance, advance_say.
  reflexivity.
Qed.

Lemma runPending_applies_all {srv : Pg.Server} (w : World) fs rows bodies :
  files w = Some fs ->
  Pg.txn (db w) = None ->
  Pg.select_fault (db w) = None ->
  Pg.ledger (Pg.committed (db w)) = Some rows ->
  pending_of w fs rows <> [] ->
  Forall2 (ready w) (pending_of w fs rows) bodies ->
  NoDup (map Migration.name (pending_of w fs rows)) ->
  bodies_succeed (Pg.schema (Pg.committed (db w))) bodies = true ->
  runPending w
  = (Normal true,
     advance {| Pg.schema := Pg.schema (Pg.committed (db w)) ++ map Pg.Applied bodies;
                Pg.ledger := Some (rows ++ records_from (S (Pg.clock (db w)))
                                                        (pending_of w fs rows)) |}
       (1 + 4 * List.length (pending_of w fs rows))
       (statements_of (pending_of w fs rows) bodies)
       ([Log_run_start; Log_found_pending (List.length (pending_of w fs rows))]
        ++ lines_of (pending_of w fs rows) ++ [Log_all_applied]) w).
Proof.
  intros Hfs Ht Hf Hl Hne HF Hnd Hs. unfold runPending. rewrite bind_log.
  rewrite (bind_normal _ _ _ _ _
             (getPendingMigrations_run (say Log_run_start w) fs rows Hfs Ht Hf Hl)).
  change (pending_of (say Log_run_start w) fs rows) with (pending_of w fs rows).
  set (pending := pending_of w fs rows) in *.
  destruct (List.length pending =? 0) eqn:Elen.
  { apply Nat.eqb_eq in Elen. destruct pending; [congruence|discriminate Elen]. }
  rewrite bind_log, say_advance, advance_say.
  change (for_of pending _) with (for_of pending apply_or_abort).
  set (w0 := advance _ 1 [] _ w).
  assert (Hloop :
    for_of pending apply_or_abort w0
    = (Normal None,
       advance {| Pg.schema := Pg.schema (Pg.committed (db w)) ++ map Pg.Applied bodies;
                  Pg.ledger := Some (rows ++ records_from (S (Pg.clock (db w))) pending) |}
         (1 + 4 * List.length pending) (statements_of pending bodies)
         ([Log_run_start; Log_found_pending (List.length pending)] ++ lines_of pending) w)).
  { rewrite <- (app_nil_r pending) at 1.
    rewrite (for_of_applies pending bodies w0 rows []); try assumption; try reflexivity.
    - cbn [for_of]. unfold ret. f_equal. unfold w0. rewrite advance_advance.
      apply advance_eq; try reflexivity. lia.
    - intros m Hin. exact (pending_fresh w fs rows m Hin). }
  rewrite (bind_normal _ _ _ _ _ Hloop), bind_log. unfold ret. f_equal.
  rewrite say_advance. apply advance_eq; try reflexivity; now rewrite <- !app_assoc.
Qed.

Lemma in_order_names rows n :
  In n (map Pg.name (Pg.order_by_applied_at rows)) <-> In n (map Pg.name rows).
Proof.
  split; apply Permutation_in, Permutation_map;
    [apply order_perm|apply Permutation_sym, order_perm].
Qed.

Lemma includes_In a x : Js.includes a x = true <-> In x a.
Proof.
  unfold Js.includes. rewrite existsb_exists. split.
  - intros (y & Hy & E). apply String.eqb_eq in E. now subst.
  - intros H. exists x. split; [exact H|apply String.eqb_refl].
Qed.

(** A catalog whose names all have a record leaves nothing pending. *)
Lemma pending_of_nil w fs rows :
  (forall m, In m (catalog w fs) -> In (Migration.name m) (map Pg.name rows)) ->
  pending_of w fs rows = [].
Proof.
  intros H. unfold pending_of. apply filter_none. intros m Hm.
  apply negb_false_iff, includes_In, in_order_names. now apply H.
Qed.

(** X10: [up] applies everything and a second [up] does nothing, when
    every record is accepted.  The ledger table exists and can be read,
    no transaction is open, the pending migrations have distinct names,
    their names and file names have no quote, their files can be read,
    and their SQL has no statement of its own on transactions or on the
    ledger.  When the SQL of every pending migration succeeds,
    [runPending] then returns [true], the schema has the changes of the
    pending migrations in the order of the catalog, and every migration
    of the catalog has a record.  [runPending] once more finds nothing
    pending: it returns [true], sends no statement and leaves the store
    as it is. *)
Theorem runPending_twice {srv : Pg.Server}
    (w : World) (fs : list (string * string)) (rows : list Pg.Row) (bodies : list string) :
  files w = Some fs ->
  Pg.txn (db w) = None ->
  Pg.select_fault (db w) = None ->
  Pg.ledger (Pg.committed (db w)) = Some rows ->
  Forall2 (ready w) (pending_of w fs rows) bodies ->
  NoDup (map Migration.name (pending_of w fs rows)) ->
  bodies_succeed (Pg.schema (Pg.committed (db w))) bodies = true ->
  exists w1 w2,
    runPending w = (Normal true, w1)
    /\ Pg.schema (Pg.committed (db w1))
       = Pg.schema (Pg.committed (db w)) ++ map Pg.Applied bodies
    /\ (forall m, In m (catalog w fs) ->
          ledgered (Pg.committed (db w1)) (Migration.name m))
    /\ runPending w1 = (Normal true, w2)
    /\ Pg.committed (db w2) = Pg.committed (db w1)
    /\ Pg.received (db w2) = Pg.received (db w1)
    /\ console w2 = console w1 ++ [Log_run_start; Log_no_pending].
Proof.
  intros Hfs Ht Hf Hl HF Hnd Hs.
  set (pending := pending_of w fs rows) in *.
  set (rows1 := rows ++ records_from (S (Pg.clock (db w))) pending).
  assert (Hcover : forall m, In m (catalog w fs) -> In (Migration.name m) (map Pg.name rows1)).
  { intros m Hm. unfold rows1. rewrite map_app, records_names. apply in_or_app.
    destruct (Js.includes (map Pg.name (Pg.order_by_applied_at rows)) (Migration.name m)) eqn:E.
    - left. now apply in_order_names, includes_In.
    - right. apply in_map. unfold pending, pending_of. apply filter_In.
      split; [exact Hm|]. now rewrite E. }
  assert (Hfirst : exists w1,
            runPending w = (Normal true, w1)
            /\ files w1 = Some fs /\ cwd w1 = cwd w
            /\ Pg.txn (db w1) = None /\ Pg.select_fault (db w1) = None
            /\ Pg.committed (db w1)
               = {| Pg.schema := Pg.schema (Pg.committed (db w)) ++ map Pg.Applied bodies;
                    Pg.ledger := Some rows1 |}).
  { destruct pending as [|m ms] eqn:Ep.
    - inversion HF; subst. eexists.
      split; [exact (runPending_nothing_pending w fs rows Hfs Ht Hf Hl Ep)|].
      unfold advance, rows1. cbn [files cwd db Pg.txn Pg.select_fault Pg.committed
                                  records_from map].
      rewrite !app_nil_r, (store_eta _ _ Hl). auto.
    - eexists. split.
      + apply (runPending_applies_all w fs rows bodies Hfs Ht Hf Hl); fold pending;
          rewrite ?Ep; try assumption. discriminate.
      + fold pending. rewrite Ep. unfold advance.
        cbn [files cwd db Pg.txn Pg.select_fault Pg.committed]. auto. }
  destruct Hfirst as (w1 & E1 & Hfs1 & Hcwd1 & Ht1 & Hf1 & Hs1).
  assert (Hl1 : Pg.ledger (Pg.committed (db w1)) = Some rows1) by now rewrite Hs1.
  assert (Hp1 : pending_of w1 fs rows1 = []).
  { apply pending_of_nil. intros m Hm. apply Hcover.
    unfold catalog, entry, migrationsDir in *. now rewrite <- Hcwd1. }
  exists w1. eexists. split; [exact E1|]. split; [now rewrite Hs1|]. split.
  - intros m Hm. specialize (Hcover m Hm).
    apply in_map_iff in Hcover as (r & Hr & Hin). exists rows1, r. auto.
  - split; [exact (runPending_nothing_pending w1 fs rows1 Hfs1 Ht1 Hf1 Hl1 Hp1)|].
    unfold advance. cbn [db console Pg.committed Pg.received].
    now rewrite app_nil_r.
Qed.

Lemma runPending_twice_witness :
  let srv := Example.server [] in
  let w := Example.world Example.fresh Example.abc in
  exists w1 w2,
    runPending w = (Normal true, w1)
    /\ Pg.schema (Pg.committed (db w1))
       = Pg.schema (Pg.committed (db w)) ++ map Pg.Applied (map snd Example.abc)
    /\ (forall m, In m (catalog w Example.abc) ->
          ledgered (Pg.committed (db w1)) (Migration.name m))
    /\ runPending w1 = (Normal true, w2)
    /\ Pg.committed (db w2) = Pg.committed (db w1)
    /\ Pg.received (db w2) = Pg.received (db w1)
    /\ console w2 = console w1 ++ [Log_run_start; Log_no_pending].
Proof.
  intros srv w.
  apply (@runPending_twice srv w Example.abc [] (map snd Example.abc)).
  - reflexivity.
  - reflexivity.
  - reflexivity.
  - reflexivity.
  - repeat constructor.
  - repeat constructor; simpl; intuition discriminate.
  - reflexivity.
Defined.

(** ** [runPending] before [init] *)


Lemma filter_all {A} (f : A -> bool) l : (forall x, In x l -> f x = true) -> filter f l = l.
Proof.
  induction l as [|x l IH]; intros H; [reflexivity|].
  simpl. rewrite (H x (or_introl eq_refl)). f_equal. apply IH. intros y Hy. apply H. now right.
Qed.





(** ** [rollback] of the [n] most recent records *)

Lemma filter_twice {A} (f g : A -> bool) l :
  filter f (filter g l) = filter (fun x => g x && f x) l.
Proof.
  induction l as [|x l IH]; [reflexivity|].
  cbn [filter]. destruct (g x); cbn [filter andb]; [|exact IH].
  destruct (f x); now rewrite IH.
Qed.

Lemma without_all_filter names :
  forall rows,
    without_all names rows = filter (fun r => negb (Js.includes names (Pg.name r))) rows.
Proof.
  induction names as [|n names IH]; intros rows; cbn [without_all].
  - symmetry. apply filter_all. reflexivity.
  - rewrite IH. unfold without. rewrite filter_twice. apply filter_ext.
    intros r. unfold Js.includes. cbn [existsb]. now rewrite negb_orb.
Qed.

Lemma insert_row_first r rows :
  Forall (fun x => Pg.applied_at r <= Pg.applied_at x) rows ->
  Pg.insert_row r rows = r :: rows.
Proof.
  destruct rows as [|x rows]; [reflexivity|]. intros H. inversion H as [|? ? Hx _]; subst.
  cbn [Pg.insert_row]. apply Nat.leb_le in Hx. now rewrite Hx.
Qed.

Lemma filter_insert_row (f : Pg.Row -> bool) r rows :
  StronglySorted (fun a b => Pg.applied_at a <= Pg.applied_at b) rows ->
  filter f (Pg.insert_row r rows)
  = if f r then Pg.insert_row r (filter f rows) else filter f rows.
Proof.
  induction 1 as [|x rows Hs IH Hall].
  - cbn [Pg.insert_row filter]. now destruct (f r).
  - cbn [Pg.insert_row].
    destruct (Nat.leb_spec (Pg.applied_at r) (Pg.applied_at x)) as [Hle|Hgt].
    + cbn [filter]. destruct (f r) eqn:Er; [|reflexivity].
      symmetry. apply insert_row_first.
      destruct (f x).
      * constructor; [exact Hle|]. apply Forall_forall. intros y Hy.
        apply filter_In in Hy as [Hy _]. rewrite Forall_forall in Hall.
        specialize (Hall y Hy). lia.
      * apply Forall_forall. intros y Hy.
        apply filter_In in Hy as [Hy _]. rewrite Forall_forall in Hall.
        specialize (Hall y Hy). lia.
    + cbn [filter]. rewrite IH. destruct (f x) eqn:Ex, (f r) eqn:Er; try reflexivity.
      cbn [Pg.insert_row].
      destruct (Nat.leb_spec (Pg.applied_at r) (Pg.applied_at x)); [lia|reflexivity].
Qed.

(** The order of the read and a selection of the rows commute. *)
Lemma order_filter (f : Pg.Row -> bool) rows :
  Pg.order_by_applied_at (filter f rows) = filter f (Pg.order_by_applied_at rows).
Proof.
  induction rows as [|r rows IH]; [reflexivity|].
  cbn [filter Pg.order_by_applied_at].
  rewrite (filter_insert_row f r _ (order_sorted rows)).
  destruct (f r); [|exact IH]. cbn [Pg.order_by_applied_at]. now rewrite IH.
Qed.

Lemma filter_out_tail {A} (g : A -> string) (a b : list A) :
  NoDup (map g (a ++ b)) ->
  filter (fun x => negb (Js.includes (map g b) (g x))) (a ++ b) = a.
Proof.
  induction a as [|x a IH]; intros Hnd.
  - cbn [app]. apply filter_none. intros x Hx.
    apply negb_false_iff, includes_In. now apply in_map.
  - cbn [app map] in *. inversion Hnd as [|? ? Hnotin Hnd']; subst.
    cbn [filter].
    destruct (Js.includes (map g b) (g x)) eqn:E.
    + exfalso. apply Hnotin. apply includes_In in E.
      rewrite map_app. apply in_or_app. now right.
    + cbn [negb]. f_equal. now apply IH.
Qed.

Lemma includes_rev a x : Js.includes (rev a) x = Js.includes a x.
Proof.
  destruct (Js.includes a x) eqn:E.
  - apply includes_In. apply -> in_rev. now apply includes_In.
  - destruct (Js.includes (rev a) x) eqn:E'; [|reflexivity].
    apply includes_In in E'. apply in_rev in E'. apply includes_In in E'. congruence.
Qed.

(** Without the records selected by [rollback(n)], the ledger reads as
    the applied list without its [n] last. *)
Lemma applied_list_without {srv : Pg.Server} (k : nat) rows :
  NoDup (map Pg.name rows) ->
  applied_list (without_all (map Applied.name (rev (skipn k (applied_list rows)))) rows)
  = firstn k (applied_list rows).
Proof.
  intros Hnd. unfold applied_list.
  rewrite without_all_filter, order_filter.
  set (L := Pg.order_by_applied_at rows).
  assert (HndL : NoDup (map Pg.name L)).
  { apply (Permutation_NoDup (l := map Pg.name rows)); [|exact Hnd].
    apply Permutation_map, Permutation_sym, order_perm. }
  rewrite firstn_map. f_equal.
  rewrite <- (firstn_skipn k L) in HndL.
  pose proof (filter_out_tail Pg.name (firstn k L) (skipn k L) HndL) as E.
  rewrite (firstn_skipn k L) in E.
  etransitivity; [|exact E]. apply filter_ext. intros r.
  rewrite skipn_map, map_rev, includes_rev, names_to_object. reflexivity.
Qed.

(** X12: [rollback(n)] for [n >= 1], when the names of the ledger are
    distinct and have no quote, removes the records of the [n] most
    recent migrations, the most recent first, each in a transaction of
    its own, and nothing else: the ledger then reads as the applied list
    without its [n] last entries (empty when [n] is the length of the
    list or more), and the schema is as it was, since the SQL that undoes
    a migration is left to the operator. *)
Theorem rollback_reverts_most_recent {srv : Pg.Server}
    (n : nat) (w : World) (rows : list Pg.Row) :
  1 <= n ->
  Pg.txn (db w) = None ->
  Pg.select_fault (db w) = None ->
  Pg.ledger (Pg.committed (db w)) = Some rows ->
  rows <> [] ->
  Forall (fun r => quote_free (Pg.name r) = true) rows ->
  NoDup (map Pg.name rows) ->
  let applied := applied_list rows in
  let k := List.length applied - n in
  exists w' rows',
    rollback (Some (Z.of_nat n)) w = (Normal true, w')
    /\ Pg.committed (db w')
       = {| Pg.schema := Pg.schema (Pg.committed (db w)); Pg.ledger := Some rows' |}
    /\ applied_list rows' = firstn k applied
    /\ Pg.received (db w') = Pg.received (db w) ++ deletions (rev (skipn k applied))
    /\ Pg.txn (db w') = None.
Proof.
  intros Hn Ht Hf Hl Hne Hq Hnd applied k.
  pose proof (rollback_run (Some (Z.of_nat n)) w rows Ht Hf Hl Hne Hq) as Hrun.
  cbv zeta in Hrun. unfold migrationsToRollback in Hrun.
  rewrite (migrationsToRollback_recent n (applied_list rows) Hn) in Hrun.
  fold applied in Hrun. fold k in Hrun.
  eexists. eexists. split; [exact Hrun|].
  unfold advance. cbn [db Pg.committed Pg.received Pg.txn].
  split; [reflexivity|]. split; [|split; reflexivity].
  apply applied_list_without. exact Hnd.
Qed.

Lemma rollback_reverts_most_recent_witness :
  let srv := Example.server [] in
  let rows := [Example.row "20240101000000_a" 7; Example.row "20240102000000_b" 8;
               Example.row "20240103000000_c" 9] in
  let w := Example.world (Example.session (map snd Example.abc) rows) Example.abc in
  let applied := applied_list rows in
  let k := List.length applied - 2 in
  exists w' rows',
    rollback (Some (Z.of_nat 2)) w = (Normal true, w')
    /\ Pg.committed (db w')
       = {| Pg.schema := Pg.schema (Pg.committed (db w)); Pg.ledger := Some rows' |}
    /\ applied_list rows' = firstn k applied
    /\ Pg.received (db w') = Pg.received (db w) ++ deletions (rev (skipn k applied))
    /\ Pg.txn (db w') = None.
Proof.
  intros srv rows w.
  apply (@rollback_reverts_most_recent srv 2 w rows).
  - lia.
  - reflexivity.
  - reflexivity.
  - reflexivity.
  - discriminate.
  - repeat constructor.
  - repeat constructor; simpl; intuition discriminate.
Defined.

(** ** What [rollback] selects *)

(** X13: the records [rollback(steps)] selects, for every value of
    [steps]: the [steps] last of the applied list when [steps] is
    positive, all of them when it exceeds the length; all but the
    [-steps] first when [steps] is negative or zero, which is all of them
    for zero; and all of them when [steps] is [NaN], as it is for [down]
    with an argument that does not start with a number.  They are taken
    from the most recent one down. *)
Theorem migrationsToRollback_selects (steps : Js.int) (applied : list Applied.t) :
  migrationsToRollback steps applied
  = rev match steps with
        | Some z =>
            if (0 <? z)%Z then skipn (List.length applied - Z.to_nat z) applied
            else skipn (Z.to_nat (- z)) applied
        | None => applied
        end.
Proof.
  unfold migrationsToRollback, Js.slice, Js.neg. f_equal.
  destruct steps as [z|]; cbn [option_map].
  - destruct (Z.ltb_spec 0 z) as [Hpos|Hneg].
    + destruct (Z.ltb_spec (- z) 0) as [_|H]; [|lia]. f_equal. lia.
    + destruct (Z.ltb_spec (- z) 0) as [H|_]; [lia|].
      destruct (Z.le_gt_cases (- z) (Z.of_nat (List.length applied))) as [Hle|Hgt].
      * f_equal. lia.
      * rewrite !skipn_all2 by lia. reflexivity.
  - cbn [Z.ltb Z.compare].
    replace (Z.min 0 (Z.of_nat (List.length applied))) with 0%Z by lia. reflexivity.
Qed.

(** [down all], [down -1] and [down 2nd] *)
Example down_arguments :
  Js.parseInt "all" = None /\ Js.parseInt "-1" = Some (-1)%Z /\ Js.parseInt "2nd" = Some 2%Z.
Proof. repeat split. Qed.



(** ** The table and the counts of [status] *)

Lemma for_of_logs {A} (f : A -> Line) (xs : list A) :
  forall w,
    Pg.txn (db w) = None ->
    for_of (R := unit) xs (fun x => log (f x) ;; ret None) w
    = (Normal None, advance (Pg.committed (db w)) 0 [] (map f xs) w).
Proof.
  induction xs as [|x xs IH]; intros w Ht; cbn [for_of map].
  - unfold ret. now rewrite (advance_nothing w Ht).
  - transitivity (for_of (R := unit) xs (fun x => log (f x) ;; ret None) (say (f x) w));
      [reflexivity|].
    rewrite (IH (say (f x) w) Ht). now rewrite advance_say.
Qed.

Lemma status_run {srv : Pg.Server} (w : World) fs rows :
  files w = Some fs ->
  Pg.txn (db w) = None ->
  Pg.select_fault (db w) = None ->
  Pg.ledger (Pg.committed (db w)) = Some rows ->
  status w
  = (Normal tt,
     advance (Pg.committed (db w)) 2 []
       ([Log_status_title; Log_table_title; Log_table_top; Log_table_head; Log_table_rule]
        ++ map (table_row (applied_list rows)) (catalog w fs)
        ++ [Log_table_bottom; Log_stats_title;
            Log_stats_total (List.length (catalog w fs));
            Log_stats_applied (List.length (applied_list rows));
            Log_stats_pending (List.length (pending_of w fs rows));
            Log_stats_rate (rate (List.length (applied_list rows))
                                 (List.length (catalog w fs)))]) w).
Proof.
  intros Hfs Ht Hf Hl. unfold status. rewrite bind_log.
  set (w1 := say Log_status_title w).
  rewrite (bind_normal _ _ _ _ _ (getMigrations_run w1 fs Hfs)).
  rewrite (bind_normal _ _ _ _ _ (getAppliedMigrations_idle w1 rows Ht Hf Hl)).
  set (w2 := advance _ 1 [] [] w1).
  rewrite (bind_normal _ _ _ _ _ (getPendingMigrations_run w2 fs rows Hfs eq_refl Hf Hl)).
  rewrite !bind_log.
  fold (applied_list rows). fold (catalog w1 fs).
  change (catalog w1 fs) with (catalog w fs).
  change (pending_of w2 fs rows) with (pending_of w fs rows).
  set (w3 := say _ _).
  change (for_of (catalog w fs) _)
    with (for_of (R := unit) (catalog w fs)
            (fun m => log (table_row (applied_list rows) m) ;; ret None)).
  rewrite (bind_normal _ _ _ _ _ (for_of_logs _ (catalog w fs) w3 eq_refl)).
  rewrite !bind_log. unfold log. f_equal.
  unfold w3, w2, w1. rewrite !say_advance, !advance_advance, !advance_say.
  apply advance_eq; try reflexivity.
  cbn [app]. now rewrite <- !app_assoc.
Qed.

Lemma NoDup_map_filter {A B} (g : A -> B) (f : A -> bool) l :
  NoDup (map g l) -> NoDup (map g (filter f l)).
Proof.
  induction l as [|x l IH]; intros H; [constructor|].
  cbn [map] in H. inversion H as [|? ? Hnotin Hnd]; subst.
  cbn [filter]. destruct (f x); [|now apply IH].
  cbn [map]. constructor; [|now apply IH].
  intros Hin. apply Hnotin. apply in_map_iff in Hin as (y & Hy & Hin).
  apply filter_In in Hin as [Hin _]. rewrite <- Hy. now apply in_map.
Qed.

(** The migrations with a record are as many as the records, when the
    names are distinct and every record is the record of a migration. *)
Lemma recorded_count (ms : list Migration.t) (rows : list Pg.Row) :
  NoDup (map Migration.name ms) ->
  NoDup (map Pg.name rows) ->
  (forall r, In r rows -> In (Pg.name r) (map Migration.name ms)) ->
  List.length ms
  = List.length rows
    + List.length (filter (fun m => negb (Js.includes (map Pg.name (Pg.order_by_applied_at rows))
                                                      (Migration.name m))) ms).
Proof.
  intros Hms Hrows Hin.
  rewrite <- (filter_length
                (fun m => Js.includes (map Pg.name (Pg.order_by_applied_at rows))
                                      (Migration.name m)) ms).
  f_equal.
  rewrite <- (length_map Migration.name), <- (length_map Pg.name rows).
  apply Permutation_length, NoDup_Permutation;
    [now apply NoDup_map_filter|exact Hrows|].
  intros n. split.
  - intros H. apply in_map_iff in H as (m & <- & Hm).
    apply filter_In in Hm as [_ Hm]. now apply in_order_names, includes_In.
  - intros H. pose proof H as H'. apply in_map_iff in H' as (r & <- & Hr).
    specialize (Hin r Hr). apply in_map_iff in Hin as (m & Hname & Hm).
    apply in_map_iff. exists m. split; [exact Hname|].
    apply filter_In. split; [exact Hm|].
    apply includes_In, in_order_names. now rewrite Hname.
Qed.

(** X15: the table and the counts of [status].  [status] writes one
    row for each migration of the catalog, in the order of the catalog,
    then the number of migrations, of records and of pending migrations.
    When the names of the catalog and of the ledger are distinct and
    every record is the record of a migration of the catalog, the three
    numbers add up: total = applied + pending.  [status] makes two reads
    of the ledger and sends no statement. *)
Theorem status_counts_add_up {srv : Pg.Server}
    (w : World) (fs : list (string * string)) (rows : list Pg.Row) :
  files w = Some fs ->
  Pg.txn (db w) = None ->
  Pg.select_fault (db w) = None ->
  Pg.ledger (Pg.committed (db w)) = Some rows ->
  NoDup (map Migration.name (catalog w fs)) ->
  NoDup (map Pg.name rows) ->
  (forall r, In r rows -> In (Pg.name r) (map Migration.name (catalog w fs))) ->
  let total := List.length (catalog w fs) in
  let applied := List.length rows in
  exists w' pending,
    status w = (Normal tt, w')
    /\ total = applied + pending
    /\ console w'
       = console w
         ++ [Log_status_title; Log_table_title; Log_table_top; Log_table_head; Log_table_rule]
         ++ map (table_row (applied_list rows)) (catalog w fs)
         ++ [Log_table_bottom; Log_stats_title;
             Log_stats_total total; Log_stats_applied applied; Log_stats_pending pending;
             Log_stats_rate (rate applied total)]
    /\ Pg.clock (db w') = 2 + Pg.clock (db w)
    /\ Pg.received (db w') = Pg.received (db w).
Proof.
  intros Hfs Ht Hf Hl Hms Hrows Hin total applied.
  exists (advance (Pg.committed (db w)) 2 []
            ([Log_status_title; Log_table_title; Log_table_top; Log_table_head; Log_table_rule]
             ++ map (table_row (applied_list rows)) (catalog w fs)
             ++ [Log_table_bottom; Log_stats_title;
                 Log_stats_total (List.length (catalog w fs));
                 Log_stats_applied (List.length (applied_list rows));
                 Log_stats_pending (List.length (pending_of w fs rows));
                 Log_stats_rate (rate (List.length (applied_list rows))
                                      (List.length (catalog w fs)))]) w).
  exists (List.length (pending_of w fs rows)).
  split; [exact (status_run w fs rows Hfs Ht Hf Hl)|].
  split; [exact (recorded_count (catalog w fs) rows Hms Hrows Hin)|].
  unfold advance. cbn [db console Pg.clock Pg.received].
  rewrite applied_list_length, app_nil_r. repeat split.
Qed.

Lemma status_counts_add_up_witness :
  let srv := Example.server [] in
  let rows := [Example.row "20240101000000_a" 7; Example.row "20240102000000_b" 8] in
  let w := Example.world (Example.session ["CREATE TABLE a (id int);"; "CREATE TABLE b (id int);"]
                                          rows) Example.abc in
  let total := List.length (catalog w Example.abc) in
  let applied := List.length rows in
  exists w' pending,
    status w = (Normal tt, w')
    /\ total = applied + pending
    /\ console w'
       = console w
         ++ [Log_status_title; Log_table_title; Log_table_top; Log_table_head; Log_table_rule]
         ++ map (table_row (applied_list rows)) (catalog w Example.abc)
         ++ [Log_table_bottom; Log_stats_title;
             Log_stats_total total; Log_stats_applied applied; Log_stats_pending pending;
             Log_stats_rate (rate applied total)]
    /\ Pg.clock (db w') = 2 + Pg.clock (db w)
    /\ Pg.received (db w') = Pg.received (db w).
Proof.
  intros srv rows w.
  apply (@status_counts_add_up srv w Example.abc rows).
  - reflexivity.
  - reflexivity.
  - reflexivity.
  - reflexivity.
  - repeat constructor; simpl; intuition discriminate.
  - repeat constructor; simpl; intuition discriminate.
  - intros r [<-|[<-|[]]]; vm_compute; tauto.
Defined.

(** The table of [status] for the catalog [a], [b], [c] when [a] and [b]
    are applied, and the counts when a record has no file: they do not
    add up, and the rate is above 100. *)
Example status_a_b_applied :
  let srv := Example.server [] in
  let rows := [Example.row "20240101000000_a" 7; Example.row "20240102000000_b" 8] in
  exists w',
    status (Example.world (Example.session [] rows) Example.abc) = (Normal tt, w')
    /\ console w'
       = [Log_status_title; Log_table_title; Log_table_top; Log_table_head; Log_table_rule;
          Log_table_row "20240101000000_a.sql" true "2024-01-15";
          Log_table_row "20240102000000_b.sql" true "2024-01-15";
          Log_table_row "20240103000000_c.sql" false "-";
          Log_table_bottom; Log_stats_title;
          Log_stats_total 3; Log_stats_applied 2; Log_stats_pending 1;
          Log_stats_rate "66.7"].
Proof. intros srv rows. eexists. split; vm_compute; reflexivity. Qed.

Example status_record_without_file :
  let srv := Example.server [] in
  let rows := [Example.row "20240101000000_a" 7; Example.row "20231231000000_gone" 5] in
  exists w',
    status (Example.world (Example.session [] rows) [("20240101000000_a.sql", "")])
    = (Normal tt, w')
    /\ skipn 8 (console w')
       = [Log_stats_total 1; Log_stats_applied 2; Log_stats_pending 0; Log_stats_rate "200.0"].
Proof. intros srv rows. eexists. split; vm_compute; reflexivity. Qed.

(** ** The names of the catalog *)

Lemma substring_skip (a b : string) m :
  substring (String.length a) m (a ++ b) = substring 0 m b.
Proof. induction a as [|c a IH]; [reflexivity|exact IH]. Qed.

Lemma substring_whole (s : string) : substring 0 (String.length s) s = s.
Proof. induction s as [|c s IH]; [reflexivity|]. cbn [String.length substring]. now rewrite IH. Qed.

Lemma endsWith_app (a suffix : string) : Js.endsWith (a ++ suffix) suffix = true.
Proof.
  unfold Js.endsWith. rewrite append_length.
  replace (String.length a + String.length suffix - String.length suffix)
    with (String.length a) by lia.
  rewrite substring_skip, substring_whole, String.eqb_refl.
  replace (String.length suffix <=? String.length a + String.length suffix) with true
    by (symmetry; apply Nat.leb_le; lia).
  reflexivity.
Qed.

Lemma substring_split (s : string) k :
  k <= String.length s ->
  s = (substring 0 k s ++ substring k (String.length s - k) s)%string.
Proof.
  revert k. induction s as [|c s IH]; intros k Hk.
  - destruct k; [reflexivity|cbn in Hk; lia].
  - destruct k as [|k].
    + cbn [substring String.append String.length Nat.sub]. now rewrite substring_whole.
    + cbn [String.length] in Hk. cbn [substring String.append String.length Nat.sub].
      f_equal. apply IH. lia.
Qed.

(** A name that ends with the suffix is a base followed by the suffix. *)
Lemma endsWith_inv (s suffix : string) :
  Js.endsWith s suffix = true -> exists base, s = (base ++ suffix)%string.
Proof.
  unfold Js.endsWith. intros H. apply andb_true_iff in H as [Hle Heq].
  apply Nat.leb_le in Hle. apply String.eqb_eq in Heq.
  exists (substring 0 (String.length s - String.length suffix) s).
  pose proof (substring_split s (String.length s - String.length suffix) ltac:(lia)) as E.
  replace (String.length s - (String.length s - String.length suffix))
    with (String.length suffix) in E by lia.
  now rewrite Heq in E.
Qed.

(** [.sql] does not overlap itself: it starts in the base or is the
    suffix. *)
Lemma prefix_sql_base (base : string) :
  base <> EmptyString ->
  prefix ".sql" (base ++ ".sql") = prefix ".sql" base.
Proof.
  destruct base as [|c1 [|c2 [|c3 [|c4 base]]]]; intros Hne; [congruence| | | |];
    cbn [String.append]; rewrite ?prefix_cons, ?prefix_nil, ?prefix_empty;
    repeat match goal with
           | |- context [Ascii.eqb ?a ?b] => destruct (Ascii.eqb_spec a b); subst
           end;
    cbn [andb]; try reflexivity; try discriminate; congruence.
Qed.

Lemma replace_suffix (base : string) :
  contains ".sql" base = false -> Js.replace ".sql" "" (base ++ ".sql") = base.
Proof.
  induction base as [|c base IH]; intros H; [reflexivity|].
  cbn [contains] in H. apply orb_false_iff in H as [Hp Hc].
  cbn [String.append Js.replace].
  change (String c (base ++ ".sql")) with (String c base ++ ".sql")%string.
  rewrite prefix_sql_base by discriminate. rewrite Hp.
  cbn [String.append]. f_equal. now apply IH.
Qed.

Lemma NoDup_map_on {A B} (f : A -> B) (l : list A) :
  (forall x y, In x l -> In y l -> f x = f y -> x = y) ->
  NoDup l -> NoDup (map f l).
Proof.
  intros Hinj Hnd. induction Hnd as [|x l Hnotin Hnd IH]; [constructor|].
  cbn [map]. constructor.
  - intros Hin. apply in_map_iff in Hin as (y & Hy & Hin).
    apply Hnotin. rewrite (Hinj x y (or_introl eq_refl) (or_intror Hin) (eq_sym Hy)).
    exact Hin.
  - apply IH. intros a b Ha Hb. apply Hinj; now right.
Qed.

(** X16: the name of a migration is its file name without the
    extension, and the names of the catalog are distinct, when [.sql]
    occurs in the [.sql] files of the directory as the extension only.
    [replace('.sql', '')] removes the first occurrence: it is the
    extension under this condition, and not without it. *)
Theorem getMigrations_names (w : World) (fs : list (string * string)) :
  files w = Some fs ->
  NoDup (map fst fs) ->
  (forall base, In (base ++ ".sql")%string (map fst fs) -> contains ".sql" base = false) ->
  exists ms,
    getMigrations w = (Normal ms, w)
    /\ (forall m, In m ms -> (Migration.name m ++ ".sql")%string = Migration.filename m)
    /\ NoDup (map Migration.name ms).
Proof.
  intros Hfs Hnd Hsql. eexists. split; [exact (getMigrations_run w fs Hfs)|].
  set (names := Js.sort (filter (fun file => Js.endsWith file ".sql") (map fst fs))).
  assert (Hin : forall file, In file names ->
                  In file (map fst fs) /\ Js.endsWith file ".sql" = true).
  { intros file H. apply (Permutation_in _ (sort_perm _)) in H. now apply filter_In in H. }
  assert (Hname : forall file, In file names ->
                    (Js.replace ".sql" "" file ++ ".sql")%string = file).
  { intros file H. destruct (Hin file H) as [Hdir Hend].
    destruct (endsWith_inv _ _ Hend) as (base & ->).
    now rewrite (replace_suffix base (Hsql base Hdir)). }
  split.
  - intros m Hm. apply in_map_iff in Hm as (file & <- & Hfile).
    cbn [Migration.name Migration.filename]. now apply Hname.
  - rewrite map_map. cbn [Migration.name]. apply NoDup_map_on.
    + intros x y Hx Hy E. cbn [entry Migration.name] in E.
      rewrite <- (Hname x Hx), <- (Hname y Hy). now rewrite E.
    + apply (Permutation_NoDup (Permutation_sym (sort_perm _))).
      now apply NoDup_filter.
Qed.

Lemma getMigrations_names_witness :
  let w := Example.world Example.fresh Example.abc in
  exists ms,
    getMigrations w = (Normal ms, w)
    /\ (forall m, In m ms -> (Migration.name m ++ ".sql")%string = Migration.filename m)
    /\ NoDup (map Migration.name ms).
Proof.
  intros w. apply (getMigrations_names w Example.abc).
  - reflexivity.
  - repeat constructor; simpl; intuition discriminate.
  - intros base [H|[H|[H|[]]]];
      [apply (append_inv_tail "20240101000000_a" base ".sql") in H
      |apply (append_inv_tail "20240102000000_b" base ".sql") in H
      |apply (append_inv_tail "20240103000000_c" base ".sql") in H];
      subst base; reflexivity.
Defined.

(** When [.sql] occurs before the extension, the name is not the file
    name without its extension, and two files can have one name. *)
Example getMigrations_names_with_sql_inside :
  exists ms,
    getMigrations (Example.world Example.fresh
                     [("x.sqlite.sql", ""); ("a.sql.sql", ""); (".sqla.sql", "")])
    = (Normal ms, Example.world Example.fresh
                    [("x.sqlite.sql", ""); ("a.sql.sql", ""); (".sqla.sql", "")])
    /\ map Migration.filename ms = [".sqla.sql"; "a.sql.sql"; "x.sqlite.sql"]
    /\ map Migration.name ms = ["a.sql"; "a.sql"; "xite.sql"].
Proof. eexists. split; [reflexivity|]. split; reflexivity. Qed.

(** ** [create] and the catalog *)

Lemma create_run (w : World) fs (name : string) :
  files w = Some fs ->
  name <> EmptyString ->
  plain name = true ->
  valid_date (clock w (ticks w)) = true ->
  let filename := (digits14 (clock w (ticks w)) ++ "_" ++ name ++ ".sql")%string in
  create (Some name) w
  = (Normal tt,
     {| db := db w; cwd := cwd w;
        files := Some (write filename
                         (template name (Js.toISOString (clock w (S (ticks w))))) fs);
        denied := denied w;
        clock := clock w; ticks := S (S (ticks w));
        console := console w ++ [Log_created filename;
                                 Log_created_path (join (migrationsDir w) filename)] |}).
Proof.
  intros Hfs Hname Hplain Hdate filename.
  destruct (compact_timestamp_digits _ Hdate) as (Hts & _ & Hdig).
  assert (Hfile : plain filename = true).
  { unfold filename. rewrite !plain_app, (plain_digits _ Hdig), Hplain. reflexivity. }
  unfold create. apply String.eqb_neq in Hname. rewrite Hname.
  unfold bind, new_Date, writeFileSync, log, say, migrationsDir.
  cbn [files cwd ticks clock db console].
  rewrite Hfs, Hts. fold filename.
  set (dir := join (join (cwd w) "supabase") "migrations").
  change (join dir filename) with (dir ++ ("/" ++ filename))%string.
  rewrite <- append_assoc, prefix_app, drop_app.
  unfold plain in Hfile. rewrite Hfile. cbn [andb files console db cwd clock ticks].
  now rewrite <- app_assoc.
Qed.

Lemma In_write file text fs : In file (map fst (write file text fs)).
Proof.
  induction fs as [|[g c] fs IH]; cbn [write map fst]; [now left|].
  destruct (g =? file)%string; cbn [map fst]; [now left|now right].
Qed.

(** [s.split(sep)[0]] of a string whose first [sep] comes after [p]. *)
Lemma first_split_app sep (p rest : string) :
  existsb (Ascii.eqb sep) (list_ascii_of_string p) = false ->
  Js.first (Js.split sep (p ++ String sep rest)) = p.
Proof.
  induction p as [|c p IH]; intros H.
  - cbn [String.append Js.split]. now rewrite Ascii.eqb_refl.
  - cbn [list_ascii_of_string existsb] in H. apply orb_false_iff in H as [Hc Hp].
    cbn [String.append Js.split]. rewrite Ascii.eqb_sym, Hc.
    specialize (IH Hp).
    destruct (Js.split sep (p ++ String sep rest)) as [|piece pieces] eqn:E.
    + now apply split_nonempty in E.
    + cbn [Js.first hd] in *. now rewrite IH.
Qed.

Lemma digits_no_underscore (p : string) :
  all_digits p = true -> existsb (Ascii.eqb "_") (list_ascii_of_string p) = false.
Proof.
  induction p as [|c p IH]; [reflexivity|].
  cbn [all_digits list_ascii_of_string existsb]. intros H.
  apply andb_true_iff in H as [Hc Hp]. rewrite (IH Hp), orb_false_r.
  destruct (Ascii.eqb_spec "_" c) as [<-|]; [discriminate Hc|reflexivity].
Qed.

Lemma digits_prefix_app (a b : string) :
  all_digits a = true ->
  Js.digits_prefix 10 (a ++ b) = Js.digits_prefix 10 a ++ Js.digits_prefix 10 b.
Proof.
  induction a as [|c a IH]; intros H; [reflexivity|].
  cbn [all_digits] in H. apply andb_true_iff in H as [Hc Ha].
  destruct (is_digit_inv c Hc) as (Hv & Hlt & _).
  cbn [String.append Js.digits_prefix]. rewrite Hv.
  apply Nat.ltb_lt in Hlt. rewrite Hlt. cbn [app]. now rewrite IH.
Qed.

Lemma value_of_app ds1 ds2 :
  Js.value_of 10 (ds1 ++ ds2)
  = (Js.value_of 10 ds1 * 10 ^ Z.of_nat (List.length ds2) + Js.value_of 10 ds2)%Z.
Proof.
  unfold Js.value_of. rewrite fold_left_app, fold_value_acc. reflexivity.
Qed.

(** The value of a padded number is the number, when it fits. *)
Lemma pad_value w bound :
  forallb (fun n => (Js.value_of 10 (Js.digits_prefix 10 (Js.pad w n)) =? Z.of_nat n)%Z)
          (seq 0 bound) = true ->
  forall n, n < bound -> Js.value_of 10 (Js.digits_prefix 10 (Js.pad w n)) = Z.of_nat n.
Proof.
  intros H n Hn. rewrite forallb_forall in H.
  specialize (H n ltac:(apply in_seq; lia)). now apply Z.eqb_eq in H.
Qed.

Lemma pad2_value n : n < 100 -> Js.value_of 10 (Js.digits_prefix 10 (Js.pad 2 n)) = Z.of_nat n.
Proof. apply pad_value. vm_compute. reflexivity. Qed.

Lemma pad4_value n :
  n < 100 * 100 -> Js.value_of 10 (Js.digits_prefix 10 (Js.pad 4 n)) = Z.of_nat n.
Proof. apply pad_value. vm_compute. reflexivity. Qed.

(** The fourteen digits of a valid date read as its number. *)
Lemma digits14_value d :
  valid_date d = true ->
  Js.value_of 10 (Js.digits_prefix 10 (digits14 d)) = stamp d.
Proof.
  unfold valid_date. rewrite !andb_true_iff.
  intros (((((((((Hy0 & Hy1) & Hm0) & Hm1) & Hd0) & Hd1) & Hh) & Hmi) & Hs) & Hms).
  apply Z.leb_le in Hy0, Hy1. apply Nat.leb_le in Hm0, Hm1, Hd0, Hd1, Hh, Hmi, Hs, Hms.
  destruct (pad4 (Z.to_nat (Js.year d)) ltac:(lia)) as [Ly Dy].
  destruct (pad2 (Js.month d) ltac:(lia)) as [Lm Dm].
  destruct (pad2 (Js.day d) ltac:(lia)) as [Ld Dd].
  destruct (pad2 (Js.hours d) ltac:(lia)) as [Lh Dh].
  destruct (pad2 (Js.minutes d) ltac:(lia)) as [Lmi Dmi].
  destruct (pad2 (Js.seconds d) ltac:(lia)) as [Ls Ds].
  unfold digits14, stamp.
  rewrite (digits_prefix_app _ _ Dy), (digits_prefix_app _ _ Dm), (digits_prefix_app _ _ Dd),
    (digits_prefix_app _ _ Dh), (digits_prefix_app _ _ Dmi).
  rewrite !value_of_app, !length_app.
  rewrite (proj1 (digits_prefix_length _ Dm)), (proj1 (digits_prefix_length _ Dd)),
    (proj1 (digits_prefix_length _ Dh)), (proj1 (digits_prefix_length _ Dmi)),
    (proj1 (digits_prefix_length _ Ds)), Lm, Ld, Lh, Lmi, Ls.
  rewrite (pad4_value (Z.to_nat (Js.year d)) ltac:(lia)),
    (pad2_value (Js.month d) ltac:(lia)), (pad2_value (Js.day d) ltac:(lia)),
    (pad2_value (Js.hours d) ltac:(lia)), (pad2_value (Js.minutes d) ltac:(lia)),
    (pad2_value (Js.seconds d) ltac:(lia)).
  rewrite Z2Nat.id by lia.
  change (Z.of_nat (2 + (2 + (2 + (2 + 2))))) with 10%Z.
  change (Z.of_nat (2 + (2 + (2 + 2)))) with 8%Z.
  change (Z.of_nat (2 + (2 + 2))) with 6%Z.
  change (Z.of_nat (2 + 2)) with 4%Z.
  change (Z.of_nat 2) with 2%Z.
  ring.
Qed.

(** X17: a migration that [create] has written is in the catalog, and
    its version is the time of its creation.  For a name that is not
    empty and has no path separator, and a clock whose year has four
    digits, [getMigrations] lists the new file, and the [timestamp] it
    parses from the file name is the number [YYYYMMDDHHmmss] of the
    clock, also when the name has underscores and digits of its own. *)
Theorem create_then_getMigrations
    (w : World) (fs : list (string * string)) (name : string) :
  files w = Some fs ->
  name <> EmptyString ->
  plain name = true ->
  valid_date (clock w (ticks w)) = true ->
  let file := created_filename (clock w (ticks w)) name in
  exists w' ms,
    create (Some name) w = (Normal tt, w')
    /\ getMigrations w' = (Normal ms, w')
    /\ In file (map Migration.filename ms)
    /\ (forall m, In m ms -> Migration.filename m = file ->
                  Migration.timestamp m = Some (stamp (clock w (ticks w)))).
Proof.
  intros Hfs Hname Hplain Hdate file.
  destruct (compact_timestamp_digits _ Hdate) as (Hts & Hlen & Hdig).
  assert (Hfile : file = (digits14 (clock w (ticks w)) ++ "_" ++ name ++ ".sql")%string).
  { unfold file, created_filename. now rewrite Hts. }
  eexists. eexists. split; [exact (create_run w fs name Hfs Hname Hplain Hdate)|].
  cbv zeta. rewrite <- Hfile.
  split; [apply getMigrations_run; reflexivity|].
  rewrite filename_entry. split.
  - apply (Permutation_in _ (Permutation_sym (sort_perm _))). apply filter_In.
    split; [apply In_write|].
    rewrite Hfile. change ("_" ++ name ++ ".sql")%string with (("_" ++ name) ++ ".sql")%string.
    rewrite <- append_assoc. apply endsWith_app.
  - intros m Hm Hmf. apply in_map_iff in Hm as (f & <- & _).
    cbn [entry Migration.filename Migration.timestamp] in *. subst f.
    rewrite Hfile. cbn [String.append].
    rewrite (first_split_app "_" _ _ (digits_no_underscore _ Hdig)).
    rewrite parseInt_digits; [|exact Hdig|].
    + now rewrite (digits14_value _ Hdate).
    + intros E. rewrite E in Hlen. discriminate Hlen.
Qed.

Lemma create_then_getMigrations_witness :
  let w := Example.world Example.fresh Example.abc in
  let file := created_filename (clock w (ticks w)) "add_2_tables" in
  exists w' ms,
    create (Some "add_2_tables") w = (Normal tt, w')
    /\ getMigrations w' = (Normal ms, w')
    /\ In file (map Migration.filename ms)
    /\ (forall m, In m ms -> Migration.filename m = file ->
                  Migration.timestamp m = Some (stamp (clock w (ticks w)))).
Proof.
  intros w.
  apply (create_then_getMigrations w Example.abc "add_2_tables");
    [reflexivity|discriminate|reflexivity|reflexivity].
Defined.

(** ** The order of creation *)

Lemma created_filename_order d1 d2 (name1 name2 : string) :
  valid_date d1 = true -> valid_date d2 = true ->
  (stamp d1 < stamp d2)%Z ->
  String.compare (created_filename d1 name1) (created_filename d2 name2) = Lt.
Proof.
  intros H1 H2 Hlt. unfold created_filename.
  destruct (compact_timestamp_digits _ H1) as (-> & L1 & D1).
  destruct (compact_timestamp_digits _ H2) as (-> & L2 & D2).
  rewrite compare_app by congruence.
  rewrite (compare_digits _ _ D1 D2) by congruence.
  rewrite (digits14_value _ H1), (digits14_value _ H2).
  apply Z.compare_lt_iff in Hlt. now rewrite Hlt.
Qed.

Lemma In_write_other file text (fs : list (string * string)) g :
  In g (map fst fs) -> In g (map fst (write file text fs)).
Proof.
  induction fs as [|[h c] fs IH]; cbn [write map fst]; [intros []|].
  intros [<-|Hin].
  - destruct (String.eqb_spec h file) as [->|]; cbn [map fst]; now left.
  - destruct (h =? file)%string; cbn [map fst]; right; [exact Hin|now apply IH].
Qed.

Lemma created_listed d name (names : list string) :
  In (created_filename d name) names ->
  In (created_filename d name)
     (Js.sort (filter (fun file => Js.endsWith file ".sql") names)).
Proof.
  intros Hin. apply (Permutation_in _ (Permutation_sym (sort_perm _))).
  apply filter_In. split; [exact Hin|]. unfold created_filename.
  change ("_" ++ name ++ ".sql")%string with (("_" ++ name) ++ ".sql")%string.
  rewrite <- append_assoc. apply endsWith_app.
Qed.

(** X18: migrations are listed, and so applied, in the order of their
    creation.  [create] is called twice, with names that are not empty
    and have no path separator, at times that differ by a second or
    more (the years have four digits).  In the catalog [getMigrations]
    then returns, the file of the first call comes before the file of the
    second, whatever else the names hold and whatever other files the
    directory has. *)
Theorem created_first_listed_first
    (w : World) (fs : list (string * string)) (name1 name2 : string) :
  files w = Some fs ->
  name1 <> EmptyString -> plain name1 = true ->
  name2 <> EmptyString -> plain name2 = true ->
  let d1 := clock w (ticks w) in
  let d2 := clock w (S (S (ticks w))) in
  valid_date d1 = true -> valid_date d2 = true ->
  (stamp d1 < stamp d2)%Z ->
  exists w1 w2 ms,
    create (Some name1) w = (Normal tt, w1)
    /\ create (Some name2) w1 = (Normal tt, w2)
    /\ getMigrations w2 = (Normal ms, w2)
    /\ before (created_filename d1 name1) (created_filename d2 name2)
              (map Migration.filename ms).
Proof.
  intros Hfs Hn1 Hp1 Hn2 Hp2 d1 d2 Hd1 Hd2 Hlt.
  pose proof (create_run w fs name1 Hfs Hn1 Hp1 Hd1) as E1. cbv zeta in E1.
  set (w1 := {| db := db w; cwd := cwd w;
                files := Some (write (digits14 d1 ++ "_" ++ name1 ++ ".sql")
                                 (template name1 (Js.toISOString (clock w (S (ticks w))))) fs);
                denied := denied w; clock := clock w; ticks := S (S (ticks w));
                console := console w
                           ++ [Log_created (digits14 d1 ++ "_" ++ name1 ++ ".sql");
                               Log_created_path
                                 (join (migrationsDir w)
                                       (digits14 d1 ++ "_" ++ name1 ++ ".sql"))] |}) in *.
  pose proof (create_run w1 _ name2 eq_refl Hn2 Hp2 Hd2) as E2. cbv zeta in E2.
  destruct (compact_timestamp_digits _ Hd1) as (Hts1 & _).
  destruct (compact_timestamp_digits _ Hd2) as (Hts2 & _).
  eexists. eexists. eexists.
  split; [exact E1|]. split; [exact E2|].
  split; [apply getMigrations_run; reflexivity|].
  rewrite filename_entry.
  apply sorted_before; [apply sort_sorted| | |now apply created_filename_order].
  - apply created_listed. apply In_write_other.
    unfold created_filename. rewrite Hts1. apply In_write.
  - apply created_listed. unfold created_filename. rewrite Hts2.
    cbn [w1 clock ticks]. apply In_write.
Qed.

Lemma created_first_listed_first_witness :
  let w := {| db := Example.fresh; cwd := "/app"; files := Some Example.abc; denied := [];
              clock := fun k => Example.date (5 + k) 900; ticks := 0; console := [] |} in
  exists w1 w2 ms,
    create (Some "z") w = (Normal tt, w1)
    /\ create (Some "b") w1 = (Normal tt, w2)
    /\ getMigrations w2 = (Normal ms, w2)
    /\ before "20240115103005_z.sql" "20240115103007_b.sql" (map Migration.filename ms).
Proof.
  intros w.
  apply (created_first_listed_first w Example.abc "z" "b");
    [reflexivity|discriminate|reflexivity|discriminate|reflexivity
    |reflexivity|reflexivity|vm_compute; reflexivity].
Defined.

(** ** After [rollback] *)

(** X19: what [rollback(n)] leaves pending.  After [rollback(n)], under
    the conditions of the property above, the pending migrations are
    those of the catalog whose name is not among the records that are
    left: the migrations that were reverted are pending again, while the
    schema still has their changes, so the next [up] sends their SQL a
    second time. *)
Theorem rollback_makes_pending_again {srv : Pg.Server}
    (n : nat) (w : World) (fs : list (string * string)) (rows : list Pg.Row) :
  1 <= n ->
  files w = Some fs ->
  Pg.txn (db w) = None ->
  Pg.select_fault (db w) = None ->
  Pg.ledger (Pg.committed (db w)) = Some rows ->
  rows <> [] ->
  Forall (fun r => quote_free (Pg.name r) = true) rows ->
  NoDup (map Pg.name rows) ->
  let applied := applied_list rows in
  let k := List.length applied - n in
  exists w1 w2 pending,
    rollback (Some (Z.of_nat n)) w = (Normal true, w1)
    /\ getPendingMigrations w1 = (Normal pending, w2)
    /\ (forall m, In m pending
                  <-> In m (catalog w fs)
                      /\ ~ In (Migration.name m) (map Applied.name (firstn k applied)))
    /\ Pg.schema (Pg.committed (db w2)) = Pg.schema (Pg.committed (db w)).
Proof.
  intros Hn Hfs Ht Hf Hl Hne Hq Hnd applied k.
  pose proof (rollback_run (Some (Z.of_nat n)) w rows Ht Hf Hl Hne Hq) as Hrun.
  cbv zeta in Hrun. unfold migrationsToRollback in Hrun.
  rewrite (migrationsToRollback_recent n (applied_list rows) Hn) in Hrun.
  fold applied in Hrun. fold k in Hrun.
  set (rows' := without_all (map Applied.name (rev (skipn k applied))) rows) in *.
  set (w1 := advance _ _ _ _ w) in Hrun.
  exists w1. eexists. eexists. split; [exact Hrun|].
  split; [exact (getPendingMigrations_run w1 fs rows' Hfs eq_refl Hf eq_refl)|].
  split; [|reflexivity].
  intros m. unfold pending_of. rewrite filter_In, negb_true_iff.
  change (catalog w1 fs) with (catalog w fs).
  rewrite <- names_to_object. fold (applied_list rows'). unfold rows'.
  unfold applied, k. rewrite (applied_list_without _ rows Hnd).
  split; intros [Hm Hi]; (split; [exact Hm|]).
  - intros Hin. apply includes_In in Hin. congruence.
  - destruct (Js.includes _ _) eqn:E; [|reflexivity].
    exfalso. apply Hi. now apply includes_In.
Qed.

Lemma rollback_makes_pending_again_witness :
  let srv := Example.server [] in
  let rows := [Example.row "20240101000000_a" 7; Example.row "20240102000000_b" 8;
               Example.row "20240103000000_c" 9] in
  let w := Example.world (Example.session (map snd Example.abc) rows) Example.abc in
  let applied := applied_list rows in
  let k := List.length applied - 2 in
  exists w1 w2 pending,
    rollback (Some (Z.of_nat 2)) w = (Normal true, w1)
    /\ getPendingMigrations w1 = (Normal pending, w2)
    /\ (forall m, In m pending
                  <-> In m (catalog w Example.abc)
                      /\ ~ In (Migration.name m) (map Applied.name (firstn k applied)))
    /\ Pg.schema (Pg.committed (db w2)) = Pg.schema (Pg.committed (db w)).
Proof.
  intros srv rows w.
  apply (@rollback_makes_pending_again srv 2 w Example.abc rows).
  - lia.
  - reflexivity.
  - reflexivity.
  - reflexivity.
  - reflexivity.
  - discriminate.
  - repeat constructor.
  - repeat constructor; simpl; intuition discriminate.
Defined.

(** [down 2] then [up] on [a], [b], [c]: the SQL of [b] and [c] is sent a
    second time. *)
Example down_two_then_up :
  let srv := Example.server [] in
  let rows := [Example.row "20240101000000_a" 7; Example.row "20240102000000_b" 8;
               Example.row "20240103000000_c" 9] in
  let w := Example.world (Example.session (map snd Example.abc) rows) Example.abc in
  exists w1 w2,
    rollback (Some 2%Z) w = (Normal true, w1)
    /\ runPending w1 = (Normal true, w2)
    /\ Pg.schema (Pg.committed (db w2))
       = map Pg.Applied ["CREATE TABLE a (id int);"; "CREATE TABLE b (id int);";
                         "CREATE TABLE c (id int);"; "CREATE TABLE b (id int);";
                         "CREATE TABLE c (id int);"].
Proof.
  intros srv rows w. eexists. eexists.
  split; [vm_compute; reflexivity|]. split; [vm_compute; reflexivity|]. reflexivity.
Qed.

(** ** The exceptions [main] catches *)

Lemma call_outcome {A} (c : M A) (p : Process) :
  (exists a p', call c p = (Done a, p')) \/ (exists f p', call c p = (Failed f, p')).
Proof.
  unfold call. destruct (c (world p)) as [[a|e] w'].
  - left. eexists. eexists. reflexivity.
  - right. eexists. eexists. reflexivity.
Qed.

Lemma init_outcome {srv : Pg.Server} (p : Process) :
  (exists p', init p = (Done tt, p')) \/ (exists f p', init p = (Failed f, p')).
Proof.
  destruct (init p) as [[[]|f|code] p'] eqn:E.
  - left. now exists p'.
  - right. now exists f, p'.
  - exfalso. revert E. unfold init, attempt, andThen at 1, print at 1. unfold andThen at 1.
    rewrite (call_normal _ _ _ _
               (rpc_run createMigrationsTable (world (put Log_init_start p)))).
    cbn [error].
    destruct (fst (Pg.exec_sql createMigrationsTable _)) as [e|]; discriminate.
Qed.

Lemma attempt_outcome (c : Proc unit) (p : Process) :
  (exists p', c p = (Done tt, p')) \/ (exists f p', c p = (Failed f, p')) ->
  (exists p', attempt c (fun error => andThen (print (Error_failed error)) (fun _ => exit 1)) p
              = (Done tt, p'))
  \/ (exists p' f,
        attempt c (fun error => andThen (print (Error_failed error)) (fun _ => exit 1)) p
        = (Exit 1, put (Error_failed f) p')).
Proof.
  intros [(p' & E)|(f & p' & E)]; unfold attempt; rewrite E.
  - left. now exists p'.
  - right. exists p', f. reflexivity.
Qed.

(** X20: once the process is configured, no exception leaves [main].
    Whatever the command, the directory and the database, [main] ends
    normally, or it writes the error as the last line of the console and
    ends the process with the code 1. *)
Theorem main_catches_every_exception {srv : Pg.Server} (p : Process) :
  configured p ->
  (exists p', main p = (Done tt, p'))
  \/ (exists p' f, main p = (Exit 1, put (Error_failed f) p')).
Proof.
  intros Hc.
  destruct (falsy (nth_error (args_of p) 0)) eqn:Hcmd.
  { left. exists (puts (map Log_usage usage) p).
    unfold main. change (Js.slice (Some 2%Z) (argv p)) with (args_of p).
    rewrite Hcmd. apply prints_run. }
  destruct (args_of p) as [|command rest] eqn:Hargs; [discriminate Hcmd|].
  cbn [nth_error falsy] in Hcmd. apply String.eqb_neq in Hcmd.
  rewrite (main_run p command rest Hc Hargs Hcmd).
  assert (Hany : forall (A : Type) (c : M A),
            (exists p', andThen (call c) (fun _ => pure tt) p = (Done tt, p'))
            \/ (exists f p', andThen (call c) (fun _ => pure tt) p = (Failed f, p'))).
  { intros A c. unfold andThen. destruct (call_outcome c p) as [(a & p' & E)|(f & p' & E)];
      rewrite E; [left|right]; eexists; try eexists; reflexivity. }
  destruct (command =? "init")%string; [apply attempt_outcome, init_outcome|].
  destruct (command =? "up")%string; [apply attempt_outcome, Hany|].
  destruct (command =? "down")%string; [apply attempt_outcome, Hany|].
  destruct (command =? "status")%string.
  { apply attempt_outcome.
    destruct (call_outcome status p) as [([] & p' & E)|(f & p' & E)];
      [left|right]; eexists; try eexists; exact E. }
  destruct (command =? "create")%string.
  { apply attempt_outcome.
    destruct (call_outcome (create (nth_error rest 0)) p) as [([] & p' & E)|(f & p' & E)];
      [left|right]; eexists; try eexists; exact E. }
  destruct (command =? "fresh")%string; apply attempt_outcome; left; eexists; reflexivity.
Qed.

Lemma main_catches_every_exception_witness :
  let srv := Example.server [] in
  let p := Example.process ["create"] (Example.world Example.fresh Example.abc) in
  (exists p', main p = (Done tt, p'))
  \/ (exists p' f, main p = (Exit 1, put (Error_failed f) p')).
Proof.
  intros srv p. apply (@main_catches_every_exception srv p). split; reflexivity.
Defined.

(* ===================================================================== *)
(** * Properties of the utilities *)
(* ===================================================================== *)

(** ** [take], [drop], [takeRight], [dropRight] *)

Lemma slice_relative {A} (start : Js.int) (a : list A) :
  Js.slice start a
  = skipn (Z.to_nat (Js.relative_index (Z.of_nat (List.length a)) start)) a.
Proof. reflexivity. Qed.

Lemma slice_to_zero {A} (final : Js.int) (a : list A) :
  Js.slice_to (Some 0%Z) final a
  = firstn (Z.to_nat (Js.relative_index (Z.of_nat (List.length a)) final)) a.
Proof.
  unfold Js.slice_to.
  assert (E : Js.relative_index (Z.of_nat (List.length a)) (Some 0%Z) = 0%Z).
  { unfold Js.relative_index. cbn [Z.ltb Z.compare]. lia. }
  rewrite E. cbn [Z.to_nat skipn]. now rewrite Z.sub_0_r.
Qed.

(** X21: [take] and [drop] split the array, and so do [dropRight] and
    [takeRight], for every count: an integer of either sign, zero, more
    than the length, or [NaN].  [take(arr, n)] followed by [drop(arr, n)]
    is [arr], and [dropRight(arr, n)] followed by [takeRight(arr, n)] is
    [arr]. *)
Theorem take_drop_split {T : Type} (arr : list T) (n : Js.int) :
  ArrayUtils.take arr n ++ ArrayUtils.drop arr n = arr
  /\ ArrayUtils.dropRight arr n ++ ArrayUtils.takeRight arr n = arr.
Proof.
  unfold ArrayUtils.take, ArrayUtils.drop, ArrayUtils.dropRight, ArrayUtils.takeRight.
  rewrite !slice_to_zero, !slice_relative. split; apply firstn_skipn.
Qed.

(** X22: what [takeRight] and [dropRight] return.  For a count
    [n >= 1], [takeRight(arr, n)] is the [n] last elements of [arr] and
    [dropRight(arr, n)] is [arr] without them.  For the count 0 it is the
    other way round: [takeRight(arr, 0)] is the whole of [arr] and
    [dropRight(arr, 0)] is empty, since [-0] is 0 and [slice(0)] is the
    array while [slice(0, 0)] is empty. *)
Theorem takeRight_dropRight {T : Type} (arr : list T) (n : nat) :
  ArrayUtils.takeRight arr (Some 0%Z) = arr
  /\ ArrayUtils.dropRight arr (Some 0%Z) = []
  /\ ArrayUtils.takeRight arr (Some (Z.of_nat (S n))) = skipn (List.length arr - S n) arr
  /\ ArrayUtils.dropRight arr (Some (Z.of_nat (S n))) = firstn (List.length arr - S n) arr.
Proof.
  unfold ArrayUtils.dropRight, ArrayUtils.takeRight.
  rewrite !slice_to_zero, !slice_relative. unfold Js.neg, Js.relative_index.
  cbn [option_map Z.opp Z.ltb Z.compare].
  replace (Z.min 0 (Z.of_nat (List.length arr))) with 0%Z by lia.
  split; [reflexivity|]. split; [reflexivity|].
  destruct (Z.ltb_spec (- Z.of_nat (S n)) 0) as [_|H]; [|lia].
  replace (Z.to_nat (Z.max (Z.of_nat (List.length arr) + - Z.of_nat (S n)) 0))
    with (List.length arr - S n) by lia.
  split; reflexivity.
Qed.

(** ** [rotate] *)

(** [((n % len) + len) % len] is [n] modulo [len]. *)
Lemma normalized_rem (n len : Z) :
  (0 < len)%Z -> Z.rem (Z.rem n len + len) len = (n mod len)%Z.
Proof.
  intros Hlen.
  pose proof (Z.quot_rem' n len) as Hq.
  assert (Hr : (- len < Z.rem n len < len)%Z).
  { pose proof (Z.rem_bound_abs n len ltac:(lia)). lia. }
  rewrite Z.rem_mod_nonneg by lia.
  replace (Z.rem n len + len)%Z with (n + (1 - n ÷ len) * len)%Z by lia.
  apply Z_mod_plus_full.
Qed.

Lemma rotate_run {T : Type} (arr : list T) (n : Z) :
  arr <> [] ->
  let k := Z.to_nat (n mod Z.of_nat (List.length arr)) in
  k < List.length arr /\ ArrayUtils.rotate arr n = skipn k arr ++ firstn k arr.
Proof.
  intros Hne k.
  assert (Hlen : (0 < Z.of_nat (List.length arr))%Z).
  { destruct arr; [congruence|cbn [List.length]; lia]. }
  pose proof (Z.mod_pos_bound n _ Hlen) as Hk.
  split; [unfold k; lia|].
  unfold ArrayUtils.rotate.
  destruct (Z.eqb_spec (Z.of_nat (List.length arr)) 0) as [E|_]; [lia|].
  rewrite (normalized_rem n _ Hlen), slice_to_zero, slice_relative.
  unfold Js.relative_index.
  destruct (Z.ltb_spec (n mod Z.of_nat (List.length arr)) 0) as [H|_]; [lia|].
  rewrite Z.min_l by lia. reflexivity.
Qed.

(** X23: [rotate] turns the array and turns it back.  For every
    integer [n], [rotate(arr, n)] is [arr] from its index [n] modulo the
    length on, followed by the elements before that index; it has the
    length of [arr], and [rotate(rotate(arr, n), -n)] is [arr]. *)
Theorem rotate_back {T : Type} (arr : list T) (n : Z) :
  let k := Z.to_nat (n mod Z.of_nat (List.length arr)) in
  ArrayUtils.rotate arr n = skipn k arr ++ firstn k arr
  /\ List.length (ArrayUtils.rotate arr n) = List.length arr
  /\ ArrayUtils.rotate (ArrayUtils.rotate arr n) (- n) = arr.
Proof.
  intros k. destruct arr as [|x arr'].
  { change (@ArrayUtils.rotate T [] n) with (@nil T).
    rewrite skipn_nil, firstn_nil. split; [|split]; reflexivity. }
  remember (x :: arr') as arr eqn:Earr.
  assert (Hne : arr <> []) by (rewrite Earr; discriminate).
  destruct (rotate_run arr n Hne) as [Hk Hrot]. fold k in Hk, Hrot.
  assert (Hlength : List.length (skipn k arr ++ firstn k arr) = List.length arr).
  { rewrite length_app, length_skipn, length_firstn. lia. }
  split; [exact Hrot|]. split; [now rewrite Hrot|].
  rewrite Hrot.
  assert (Hne' : skipn k arr ++ firstn k arr <> []).
  { intros E. rewrite E in Hlength. rewrite Earr in Hlength. discriminate Hlength. }
  destruct (rotate_run (skipn k arr ++ firstn k arr) (- n) Hne') as [Hj Hback].
  rewrite Hback, Hlength. clear Hback.
  set (len := List.length arr) in *.
  assert (Hlen : (0 < Z.of_nat len)%Z) by lia.
  destruct (Nat.eq_dec k 0) as [E0|Hpos].
  - assert (Ej : Z.to_nat (- n mod Z.of_nat len) = 0).
    { assert ((n mod Z.of_nat len = 0)%Z) by (unfold k in E0; pose proof (Z.mod_pos_bound n _ Hlen); lia).
      rewrite Z.mod_opp_l_z by lia. reflexivity. }
    rewrite Ej, E0. cbn [skipn firstn]. now rewrite !app_nil_r.
  - assert (Ej : Z.to_nat (- n mod Z.of_nat len) = len - k).
    { assert ((n mod Z.of_nat len <> 0)%Z) by (unfold k in Hpos; lia).
      rewrite Z.mod_opp_l_nz by lia. unfold k. lia. }
    rewrite Ej.
    rewrite skipn_app, firstn_app, length_skipn. fold len.
    replace (len - k - (len - k)) with 0 by lia. cbn [skipn firstn].
    rewrite app_nil_r.
    rewrite (skipn_all2 (skipn k arr)) by (rewrite length_skipn; fold len; lia).
    rewrite (firstn_all2 (skipn k arr)) by (rewrite length_skipn; fold len; lia).
    cbn [app]. apply firstn_skipn.
Qed.

(** ** [chunk] *)

Lemma slice_to_from {A} (a : list A) (i size : Z) :
  (0 <= i <= Z.of_nat (List.length a))%Z -> (0 <= size)%Z ->
  Js.slice_to (Some i) (Some (i + size)%Z) a
  = firstn (Z.to_nat (Z.min size (Z.of_nat (List.length a) - i))) (skipn (Z.to_nat i) a).
Proof.
  intros Hi Hsize. unfold Js.slice_to, Js.relative_index.
  destruct (Z.ltb_spec i 0) as [H|_]; [lia|].
  destruct (Z.ltb_spec (i + size) 0) as [H|_]; [lia|].
  rewrite (Z.min_l i) by lia. f_equal. lia.
Qed.

Lemma chunk_loop_ends {T : Type} (arr : list T) (size : Z) :
  (1 <= size)%Z ->
  forall (bound : nat) (i : Z) (chunks : list (list T)),
    (0 <= i)%Z ->
    Z.to_nat (Z.of_nat (List.length arr) - i) < bound ->
    exists rest,
      ArrayUtils.chunk_loop bound arr size i chunks = Some (chunks ++ rest)
      /\ List.concat rest = skipn (Z.to_nat i) arr
      /\ Forall (fun c => 1 <= List.length c <= Z.to_nat size) rest
      /\ Forall (fun c => List.length c = Z.to_nat size) (removelast rest).
Proof.
  intros Hsize. induction bound as [|bound IH]; intros i chunks Hi Hbound; [lia|].
  cbn [ArrayUtils.chunk_loop].
  destruct (Z.ltb_spec i (Z.of_nat (List.length arr))) as [Hlt|Hge].
  - destruct (IH (i + size)%Z
                 (chunks ++ [Js.slice_to (Some i) (Some (i + size)%Z) arr])
                 ltac:(lia) ltac:(lia)) as (rest & E & Hcat & Hall & Hfull).
    rewrite E. rewrite (slice_to_from arr i size) in * by lia.
    set (m := Z.to_nat (Z.min size (Z.of_nat (List.length arr) - i))) in *.
    set (c := firstn m (skipn (Z.to_nat i) arr)) in *.
    assert (Hc : List.length c = m).
    { unfold c. rewrite length_firstn, length_skipn. unfold m. lia. }
    exists (c :: rest). split; [now rewrite <- app_assoc|]. split; [|split].
    + cbn [List.concat]. rewrite Hcat. unfold c.
      rewrite <- (firstn_skipn m (skipn (Z.to_nat i) arr)) at 2. f_equal.
      rewrite skipn_skipn.
      destruct (Z.le_gt_cases size (Z.of_nat (List.length arr) - i)) as [Hfit|Hnot].
      * f_equal. unfold m. lia.
      * rewrite !skipn_all2; [reflexivity| |]; unfold m; lia.
    + constructor; [|exact Hall]. rewrite Hc. unfold m. lia.
    + destruct rest as [|c' rest']; [constructor|].
      change (removelast (c :: c' :: rest')) with (c :: removelast (c' :: rest')).
      constructor; [|exact Hfull].
      rewrite Hc. unfold m.
      assert (Hmore : (i + size < Z.of_nat (List.length arr))%Z).
      { destruct (Z.lt_ge_cases (i + size) (Z.of_nat (List.length arr))) as [H|H]; [exact H|].
        exfalso. rewrite skipn_all2 in Hcat by lia.
        cbn [List.concat] in Hcat. apply app_eq_nil in Hcat as [Hc' _].
        inversion Hall as [|? ? Hlen _]; subst. cbn [List.length] in Hlen. lia. }
      lia.
  - exists []. rewrite app_nil_r. split; [reflexivity|].
    split; [cbn [List.concat]; now rewrite skipn_all2 by lia|]. split; constructor.
Qed.

(** X24: [chunk] cuts the array into consecutive pieces.  For a size
    of 1 or more the loop ends, within as many iterations as the array
    has elements and one more, and the chunks, one after the other, are
    the array: none is empty, none is longer than the size, and all but
    the last have the size exactly. *)
Theorem chunk_partitions {T : Type} (arr : list T) (size : Z) (bound : nat) :
  (1 <= size)%Z ->
  List.length arr < bound ->
  exists chunks,
    ArrayUtils.chunk bound arr size = Some chunks
    /\ List.concat chunks = arr
    /\ Forall (fun c => 1 <= List.length c <= Z.to_nat size) chunks
    /\ Forall (fun c => List.length c = Z.to_nat size) (removelast chunks).
Proof.
  intros Hsize Hbound.
  destruct (chunk_loop_ends arr size Hsize bound 0 [] ltac:(lia) ltac:(lia))
    as (rest & E & Hcat & Hall & Hfull).
  exists rest. split; [exact E|]. split; [exact Hcat|]. split; assumption.
Qed.

Lemma chunk_partitions_witness :
  exists chunks,
    ArrayUtils.chunk 6 [1; 2; 3; 4; 5] 2 = Some chunks
    /\ List.concat chunks = [1; 2; 3; 4; 5]
    /\ Forall (fun c => 1 <= List.length c <= Z.to_nat 2) chunks
    /\ Forall (fun c => List.length c = Z.to_nat 2) (removelast chunks).
Proof. apply (chunk_partitions [1; 2; 3; 4; 5] 2 6); [lia|simpl; lia]. Defined.

Example chunk_five_by_two :
  ArrayUtils.chunk 6 [1; 2; 3; 4; 5] 2 = Some [[1; 2]; [3; 4]; [5]].
Proof. reflexivity. Qed.

Lemma chunk_loop_goes_on {T : Type} (arr : list T) (size : Z) :
  (size <= 0)%Z -> arr <> [] ->
  forall (bound : nat) (i : Z) (chunks : list (list T)),
    (i <= 0)%Z -> ArrayUtils.chunk_loop bound arr size i chunks = None.
Proof.
  intros Hsize Hne. induction bound as [|bound IH]; intros i chunks Hi; [reflexivity|].
  cbn [ArrayUtils.chunk_loop].
  destruct (Z.ltb_spec i (Z.of_nat (List.length arr))) as [_|Hge].
  - apply IH. lia.
  - destruct arr; [congruence|cbn [List.length] in Hge; lia].
Qed.

(** X25: [chunk] with a size of 0, or a negative one, never returns on
    an array that is not empty: the index does not advance, the loop
    pushes a chunk at every iteration and no bound on the number of its
    iterations is enough for it to end. *)
Theorem chunk_never_returns {T : Type} (arr : list T) (size : Z) (bound : nat) :
  (size <= 0)%Z ->
  arr <> [] ->
  ArrayUtils.chunk bound arr size = None.
Proof.
  intros Hsize Hne. apply (chunk_loop_goes_on arr size Hsize Hne). lia.
Qed.

Lemma chunk_never_returns_witness :
  ArrayUtils.chunk 1000 [1; 2; 3] 0 = None.
Proof. apply (chunk_never_returns [1; 2; 3] 0 1000); [lia|discriminate]. Defined.

(** ** [unique] and [compress] *)

Lemma same_value_zero_refl x : ArrayUtils.same_value_zero x x = true.
Proof. destruct x as [z|]; [apply Z.eqb_refl|reflexivity]. Qed.

Lemma same_value_zero_eq x y : ArrayUtils.same_value_zero x y = true -> x = y.
Proof.
  destruct x as [a|], y as [b|]; cbn; try discriminate; [|reflexivity].
  intros H. apply Z.eqb_eq in H. now subst.
Qed.

Lemma strict_equal_number x z :
  ArrayUtils.strict_equal x (Some z) = ArrayUtils.same_value_zero (Some z) x.
Proof. destruct x as [y|]; [apply Z.eqb_sym|reflexivity]. Qed.

Lemma strict_equal_NaN x : ArrayUtils.strict_equal x None = false.
Proof. now destruct x. Qed.

Lemma indexOf_from_skip (pre l : list Js.int) item :
  forall i,
    existsb (fun x => ArrayUtils.strict_equal x item) pre = false ->
    ArrayUtils.indexOf_from i (pre ++ l) item
    = ArrayUtils.indexOf_from (i + Z.of_nat (List.length pre)) l item.
Proof.
  induction pre as [|x pre IH]; intros i H.
  - cbn [app List.length Z.of_nat]. now rewrite Z.add_0_r.
  - cbn [existsb] in H. apply orb_false_iff in H as [Hx Hpre].
    cbn [app ArrayUtils.indexOf_from]. rewrite Hx, (IH _ Hpre).
    f_equal. cbn [List.length]. lia.
Qed.

Lemma indexOf_from_found (pre l : list Js.int) item :
  forall i,
    existsb (fun x => ArrayUtils.strict_equal x item) pre = true ->
    (i <= ArrayUtils.indexOf_from i (pre ++ l) item < i + Z.of_nat (List.length pre))%Z.
Proof.
  induction pre as [|x pre IH]; intros i H; [discriminate H|].
  cbn [existsb] in H. cbn [app ArrayUtils.indexOf_from List.length].
  destruct (ArrayUtils.strict_equal x item); [lia|].
  cbn [orb] in H. specialize (IH (i + 1)%Z H). lia.
Qed.

Lemma existsb_same {A} (f g : A -> bool) l :
  (forall x, f x = g x) -> existsb f l = existsb g l.
Proof. intros H. induction l as [|x l IH]; [reflexivity|]. cbn [existsb]. now rewrite H, IH. Qed.

(** The elements [compress] keeps, from an index on, are the numbers of
    the set built from the same index on. *)
Lemma compress_from (arr : list Js.int) :
  forall rest pre seen,
    arr = pre ++ rest ->
    (forall x, existsb (ArrayUtils.same_value_zero x) seen
               = existsb (ArrayUtils.same_value_zero x) pre) ->
    ArrayUtils.filter_from (fun item index => (ArrayUtils.indexOf arr item =? index)%Z)
                           (Z.of_nat (List.length pre)) rest
    = filter is_number (ArrayUtils.set_of seen rest).
Proof.
  induction rest as [|item rest IH]; intros pre seen Harr Hseen; [reflexivity|].
  assert (Hnext : arr = (pre ++ [item]) ++ rest) by (now rewrite <- app_assoc).
  assert (Hlen : (Z.of_nat (List.length pre) + 1)%Z = Z.of_nat (List.length (pre ++ [item]))).
  { rewrite length_app. cbn [List.length]. lia. }
  assert (Hseen1 : forall x, existsb (ArrayUtils.same_value_zero x) (seen ++ [item])
                             = existsb (ArrayUtils.same_value_zero x) (pre ++ [item])).
  { intros x. now rewrite !existsb_app, Hseen. }
  assert (Hseen2 : existsb (ArrayUtils.same_value_zero item) seen = true ->
                   forall x, existsb (ArrayUtils.same_value_zero x) seen
                             = existsb (ArrayUtils.same_value_zero x) (pre ++ [item])).
  { intros Hin x. rewrite existsb_app, <- Hseen. cbn [existsb]. rewrite orb_false_r.
    destruct (ArrayUtils.same_value_zero x item) eqn:E; [|now rewrite orb_false_r].
    apply same_value_zero_eq in E. subst x. now rewrite Hin. }
  cbn [ArrayUtils.filter_from ArrayUtils.set_of]. rewrite Hlen.
  unfold ArrayUtils.indexOf at 1. rewrite Harr at 1.
  destruct item as [z|].
  - (* a number *)
    assert (Hpre : existsb (fun x => ArrayUtils.strict_equal x (Some z)) pre
                   = existsb (ArrayUtils.same_value_zero (Some z)) seen).
    { rewrite Hseen. apply existsb_same. intros x. apply strict_equal_number. }
    destruct (existsb (ArrayUtils.same_value_zero (Some z)) seen) eqn:Hin.
    + pose proof (indexOf_from_found pre (@cons Js.int (Some z) rest) (Some z) 0 Hpre) as Hfound.
      match goal with
      | |- context [(?a =? ?b)%Z] => destruct (Z.eqb_spec a b) as [E|_]; [lia|]
      end.
      apply (IH (pre ++ [Some z]) seen Hnext). now apply Hseen2.
    + rewrite (indexOf_from_skip pre _ _ 0 Hpre).
      cbn [ArrayUtils.indexOf_from ArrayUtils.strict_equal]. rewrite Z.eqb_refl.
      rewrite Z.add_0_l, Z.eqb_refl. cbn [filter is_number]. f_equal.
      apply (IH (pre ++ [Some z]) (seen ++ [Some z]) Hnext Hseen1).
  - (* NaN *)
    assert (Hnone : forall l i, ArrayUtils.indexOf_from i l None = (-1)%Z).
    { induction l as [|x l IHl]; intros i; [reflexivity|].
      cbn [ArrayUtils.indexOf_from]. now rewrite strict_equal_NaN. }
    rewrite Hnone.
    match goal with
    | |- context [(?a =? ?b)%Z] => destruct (Z.eqb_spec a b) as [E|_]; [lia|]
    end.
    destruct (existsb (ArrayUtils.same_value_zero None) seen) eqn:Hin; cbv iota.
    + apply (IH (pre ++ [None]) seen Hnext). now apply Hseen2.
    + cbn [filter is_number].
      apply (IH (pre ++ [None]) (seen ++ [None]) Hnext Hseen1).
Qed.

Lemma set_of_fresh (arr : list Js.int) :
  forall seen,
    NoDup (ArrayUtils.set_of seen arr)
    /\ forall x, In x (ArrayUtils.set_of seen arr) ->
                 In x arr /\ existsb (ArrayUtils.same_value_zero x) seen = false.
Proof.
  induction arr as [|item arr IH]; intros seen; cbn [ArrayUtils.set_of].
  - split; [constructor|intros x []].
  - destruct (existsb (ArrayUtils.same_value_zero item) seen) eqn:Hin.
    + destruct (IH seen) as [Hnd Hfresh]. split; [exact Hnd|].
      intros x Hx. destruct (Hfresh x Hx). split; [now right|assumption].
    + destruct (IH (seen ++ [item])) as [Hnd Hfresh]. split.
      * constructor; [|exact Hnd]. intros Hx. destruct (Hfresh item Hx) as [_ H].
        rewrite existsb_app in H. cbn [existsb] in H.
        now rewrite same_value_zero_refl, orb_true_r in H.
      * intros x [<-|Hx]; [split; [now left|exact Hin]|].
        destruct (Hfresh x Hx) as [Ha H]. split; [now right|].
        rewrite existsb_app in H. now apply orb_false_iff in H as [H _].
Qed.

Lemma set_of_keeps (arr : list Js.int) x :
  forall seen,
    In x arr -> existsb (ArrayUtils.same_value_zero x) seen = false ->
    In x (ArrayUtils.set_of seen arr).
Proof.
  induction arr as [|item arr IH]; intros seen Hin Hseen; [destruct Hin|].
  cbn [ArrayUtils.set_of].
  destruct (ArrayUtils.same_value_zero x item) eqn:E.
  - apply same_value_zero_eq in E. subst item. rewrite Hseen. now left.
  - destruct Hin as [->|Hin]; [now rewrite same_value_zero_refl in E|].
    destruct (existsb (ArrayUtils.same_value_zero item) seen).
    + now apply IH.
    + right. apply IH; [exact Hin|].
      rewrite existsb_app, Hseen. cbn [existsb]. now rewrite E.
Qed.

(** X26: [unique] and [compress] both keep the first occurrence of
    every number, in the order of the array, and differ on [NaN] only:
    [unique] keeps one [NaN] when the array has one, and [compress] drops
    them all, since [indexOf] never finds [NaN].  [unique(arr)] has the
    elements of [arr], each once; [compress(arr)] is [unique(arr)]
    without [NaN]. *)
Theorem compress_is_unique_without_NaN (arr : list Js.int) :
  ArrayUtils.compress arr = filter is_number (ArrayUtils.unique arr)
  /\ NoDup (ArrayUtils.unique arr)
  /\ (forall x, In x (ArrayUtils.unique arr) <-> In x arr)
  /\ ~ In None (ArrayUtils.compress arr).
Proof.
  assert (E : ArrayUtils.compress arr = filter is_number (ArrayUtils.unique arr)).
  { exact (compress_from arr arr [] [] eq_refl (fun x => eq_refl)). }
  split; [exact E|]. split; [apply (set_of_fresh arr [])|]. split.
  - intros x. split.
    + intros H. now apply (set_of_fresh arr []) in H.
    + intros H. now apply set_of_keeps.
  - rewrite E. intros H. apply filter_In in H as [_ H]. discriminate H.
Qed.

Example unique_and_compress :
  ArrayUtils.unique [Some 3%Z; None; Some 1%Z; Some 3%Z; None] = [Some 3%Z; None; Some 1%Z]
  /\ ArrayUtils.compress [Some 3%Z; None; Some 1%Z; Some 3%Z; None] = [Some 3%Z; Some 1%Z].
Proof. split; reflexivity. Qed.

(** ** [truncate] *)

Lemma take_firstn (s : string) :
  forall k, string_of_list_ascii (firstn k (list_ascii_of_string s)) = Js.take k s.
Proof.
  induction s as [|c s IH]; intros [|k]; try reflexivity.
  cbn [list_ascii_of_string firstn string_of_list_ascii Js.take]. now rewrite IH.
Qed.

Lemma take_all (s : string) : forall k, String.length s <= k -> Js.take k s = s.
Proof.
  induction s as [|c s IH]; intros [|k] H; try reflexivity; cbn [String.length] in H; [lia|].
  cbn [Js.take]. rewrite IH by lia. reflexivity.
Qed.

Lemma take_length (s : string) :
  forall k, k <= String.length s -> String.length (Js.take k s) = k.
Proof.
  induction s as [|c s IH]; intros [|k] H; try reflexivity; cbn [String.length] in *; [lia|].
  cbn [Js.take String.length]. rewrite IH by lia. reflexivity.
Qed.

Lemma length_list_ascii (s : string) :
  List.length (list_ascii_of_string s) = String.length s.
Proof. induction s as [|c s IH]; [reflexivity|]. cbn. now rewrite IH. Qed.

(** X27: [truncate] cuts at [length] and then adds the suffix.  A
    string of at most [length] code units is returned as it is; a longer
    one becomes its first [length] code units followed by the suffix, so
    that the result has [length] code units and those of the suffix: it
    is longer than [length], and it is longer than the string itself when
    fewer code units are cut than the suffix has. *)
Theorem truncate_adds_suffix (str suffix : string) (n : nat) :
  StringUtils.truncate str (Z.of_nat n) suffix
  = (if (String.length str <=? n)%nat then str else Js.take n str ++ suffix)%string
  /\ String.length (StringUtils.truncate str (Z.of_nat n) suffix)
     = if (String.length str <=? n)%nat then String.length str else n + String.length suffix.
Proof.
  assert (E : StringUtils.truncate str (Z.of_nat n) suffix
              = (if (String.length str <=? n)%nat then str else Js.take n str ++ suffix)%string).
  { unfold StringUtils.truncate.
    destruct (Nat.leb_spec (String.length str) n) as [Hle|Hgt].
    - replace (Z.of_nat (String.length str) <=? Z.of_nat n)%Z with true
        by (symmetry; apply Z.leb_le; lia).
      now rewrite orb_true_r.
    - replace (Z.of_nat (String.length str) <=? Z.of_nat n)%Z with false
        by (symmetry; apply Z.leb_gt; lia).
      destruct (String.eqb_spec str "") as [->|_]; [cbn in Hgt; lia|].
      cbn [orb]. f_equal. unfold Js.string_slice_to.
      rewrite slice_to_zero, length_list_ascii. unfold Js.relative_index.
      destruct (Z.ltb_spec (Z.of_nat n) 0) as [H|_]; [lia|].
      rewrite Z.min_l by lia. rewrite Nat2Z.id. apply take_firstn. }
  split; [exact E|]. rewrite E.
  destruct (Nat.leb_spec (String.length str) n) as [Hle|Hgt]; [reflexivity|].
  rewrite append_length, take_length by lia. reflexivity.
Qed.

(** The three dots make [abcd] longer when it is cut at 3. *)
Example truncate_abcd :
  StringUtils.truncate "abcd" 3 StringUtils.ellipsis = "abc..."
  /\ StringUtils.truncate "abcd" 4 StringUtils.ellipsis = "abcd"
  /\ StringUtils.truncate "abcdef" (-2) StringUtils.ellipsis = "abcd...".
Proof. repeat split. Qed.

(** ** [camelToSnake] and [snakeToCamel] *)

Lemma upper_lower_upper c :
  StringUtils.is_upper c = true ->
  StringUtils.is_lower (StringUtils.toLowerCase c) = true
  /\ StringUtils.toUpperCase (StringUtils.toLowerCase c) = c.
Proof.
  destruct c as [[] [] [] [] [] [] [] []]; intros H; try discriminate H; split; reflexivity.
Qed.

Lemma lower_upper_lower c :
  StringUtils.is_lower c = true ->
  StringUtils.is_upper (StringUtils.toUpperCase c) = true
  /\ StringUtils.toLowerCase (StringUtils.toUpperCase c) = c
  /\ StringUtils.is_upper c = false.
Proof.
  destruct c as [[] [] [] [] [] [] [] []]; intros H; try discriminate H; repeat split.
Qed.

Lemma snakeToCamel_cons c (rest : string) :
  match rest with
  | String d _ => StringUtils.is_separator c && StringUtils.is_lower d = false
  | EmptyString => True
  end ->
  StringUtils.snakeToCamel (String c rest) = String c (StringUtils.snakeToCamel rest).
Proof.
  destruct rest as [|d rest]; [reflexivity|]. intros H.
  cbn [StringUtils.snakeToCamel]. rewrite H. reflexivity.
Qed.

Lemma string_pairs_ind (P : string -> Prop) :
  P EmptyString ->
  (forall c, P (String c EmptyString)) ->
  (forall c d s, P s -> P (String d s) -> P (String c (String d s))) ->
  forall s, P s.
Proof.
  intros H0 H1 H2 s.
  assert (H : P s /\ forall c, P (String c s)).
  { induction s as [|d s [IHs IHc]]; [split; [exact H0|exact H1]|].
    split; [apply IHc|]. intros c. apply H2; [exact IHs|apply IHc]. }
  apply H.
Qed.

(** X28: [camelToSnake] and [snakeToCamel] undo each other on the
    strings they are made for.  [snakeToCamel(camelToSnake(str))] is
    [str] when no hyphen or underscore of [str] is followed by a small
    letter, and [camelToSnake(snakeToCamel(str))] is [str] when [str]
    has no capital letter and no hyphen followed by a small letter. *)
Theorem camel_snake_round_trips (str : string) :
  (camel_case str = true ->
   StringUtils.snakeToCamel (StringUtils.camelToSnake str) = str)
  /\ (snake_case str = true ->
      StringUtils.camelToSnake (StringUtils.snakeToCamel str) = str).
Proof.
  split.
  - induction str as [|c str IH]; intros H; [reflexivity|].
    assert (Htail : camel_case str = true).
    { destruct str as [|d str]; [reflexivity|].
      cbn [camel_case] in H. now apply andb_true_iff in H as [_ H]. }
    cbn [StringUtils.camelToSnake].
    destruct (StringUtils.is_upper c) eqn:Hu.
    + destruct (upper_lower_upper c Hu) as [Hl Hback].
      cbn [StringUtils.snakeToCamel]. rewrite Hl.
      cbn [StringUtils.is_separator Ascii.eqb Bool.eqb orb andb].
      now rewrite Hback, IH.
    + rewrite snakeToCamel_cons; [now rewrite IH|].
      destruct str as [|d str]; [exact I|].
      cbn [camel_case] in H. apply andb_true_iff in H as [H _].
      apply negb_true_iff in H.
      cbn [StringUtils.camelToSnake].
      destruct (StringUtils.is_upper d) eqn:Hd.
      * cbn [StringUtils.is_lower nat_of_ascii]. apply andb_false_r.
      * exact H.
  - induction str as [| c | c d s IHs IHd] using string_pairs_ind; intros H.
    + reflexivity.
    + cbn [snake_case] in H. cbn [StringUtils.snakeToCamel StringUtils.camelToSnake].
      apply andb_true_iff in H as [H _]. apply andb_true_iff in H as [H _].
      apply negb_true_iff in H. now rewrite H.
    + pose proof H as H'. cbn [snake_case] in H'.
      apply andb_true_iff in H' as [H1 Hd]. apply andb_true_iff in H1 as [Hc Hpair].
      apply negb_true_iff in Hc, Hpair.
      assert (Hs : snake_case s = true).
      { cbn [snake_case] in Hd. now apply andb_true_iff in Hd as [_ Hd]. }
      cbn [StringUtils.snakeToCamel].
      destruct (StringUtils.is_separator c && StringUtils.is_lower d) eqn:Hg.
      * apply andb_true_iff in Hg as [Hsep Hlow].
        destruct (lower_upper_lower d Hlow) as (Hup & Hback & _).
        cbn [StringUtils.camelToSnake]. rewrite Hup, Hback, (IHs Hs).
        rewrite Hlow, andb_true_r in Hpair.
        unfold StringUtils.is_separator in Hsep. rewrite Hpair in Hsep. cbn [orb] in Hsep.
        apply Ascii.eqb_eq in Hsep. now subst c.
      * cbn [StringUtils.camelToSnake]. rewrite Hc. f_equal. exact (IHd Hd).
Qed.

Lemma camel_snake_round_trips_witness :
  StringUtils.snakeToCamel (StringUtils.camelToSnake "createdAt_UTC") = "createdAt_UTC"
  /\ StringUtils.camelToSnake (StringUtils.snakeToCamel "created_at_2") = "created_at_2".
Proof.
  split.
  - apply (camel_snake_round_trips "createdAt_UTC"). reflexivity.
  - apply (camel_snake_round_trips "created_at_2"). reflexivity.
Defined.

(** The conversions, and a string with a group that does not come
    back. *)
Example camel_and_snake :
  StringUtils.camelToSnake "createdAt" = "created_at"
  /\ StringUtils.snakeToCamel "created_at" = "createdAt"
  /\ StringUtils.snakeToCamel "created-at" = "createdAt"
  /\ StringUtils.snakeToCamel (StringUtils.camelToSnake "created_at") = "createdAt"
  /\ StringUtils.camelToSnake (StringUtils.snakeToCamel "created-at") = "created_at".
Proof. repeat split. Qed.
